(** * ofx2json: the tag-soup tokenizer, the container stack and the leaf decoders

    A shallow embedding of [src/ofx2json.cpp].  A [std::string] is a [string]
    of 8-bit characters, a [size_t] cursor is a [nat], an [int] is a [Z] with
    its 32-bit wrap-around written out, a [double] is a binary64 [float] and
    the rapidjson document is a small store of JSON values addressed by [nat],
    so that the [shared_ptr] aliasing of the source is kept.

    The character classes are those of the C locale (the program never sets
    another one), a failed [assert] (the program's or rapidjson's) ends the
    process like [abort()], and file and stream errors are left out: [main]
    is modelled from the point where the whole input is in memory. *)

From Stdlib Require Import PrimFloat Uint63.
From Stdlib Require Import Bool Arith ZArith Lia List Ascii String DecimalString.
Import ListNotations.

#[local] Set Warnings "-register-all".

Local Open Scope string_scope.
Local Open Scope nat_scope.

(** ** Characters and strings *)

Definition size (s : string) : nat := String.length s.

(** The part of [s] from position [n] on (empty when [n] is at or past the end). *)
Fixpoint drop (n : nat) (s : string) : string :=
  match n, s with
  | 0, _ => s
  | S n', String _ r => drop n' r
  | S _, EmptyString => EmptyString
  end.

(** The first [n] characters of [s]. *)
Fixpoint take (n : nat) (s : string) : string :=
  match n, s with
  | S n', String c r => String c (take n' r)
  | _, _ => EmptyString
  end.

(** [str[pos]]: for [pos = str.size()] a [std::string] yields the NUL
    character, which is also what the model gives past the end. *)
Definition char_at (s : string) (pos : nat) : ascii :=
  match drop pos s with
  | String c _ => c
  | EmptyString => Ascii.zero
  end.

Definition chr_eqb (a b : ascii) : bool := Ascii.eqb a b.

(** The double quote character (code 34). *)
Definition dquote : ascii :=
  Ascii false true false false false true false false.

(** [isspace] in the C locale: space, and the controls 9 to 13. *)
Definition isspace (c : ascii) : bool :=
  let n := nat_of_ascii c in
  ((9 <=? n) && (n <=? 13)) || (n =? 32).

(** [isdigit]: the characters '0' to '9'. *)
Definition isdigit (c : ascii) : bool :=
  let n := nat_of_ascii c in
  (48 <=? n) && (n <=? 57).

(** [ch - '0'] for a digit. *)
Definition digit_val (c : ascii) : Z := Z.of_nat (nat_of_ascii c) - 48.

(** [::tolower] in the C locale. *)
Definition tolower (c : ascii) : ascii :=
  let n := nat_of_ascii c in
  if (65 <=? n) && (n <=? 90) then ascii_of_nat (n + 32) else c.

Fixpoint str_lower (s : string) : string :=
  match s with
  | EmptyString => EmptyString
  | String c r => String (tolower c) (str_lower r)
  end.

(** [skip_ws]: [while (pos < str.size() && isspace(str[pos])) pos++].  The loop
    walks the unread part of the buffer; the result is the new cursor. *)
Fixpoint skip_ws_from (rest : string) (pos : nat) : nat :=
  match rest with
  | String ch rest' => if isspace ch then skip_ws_from rest' (S pos) else pos
  | EmptyString => pos
  end.

Definition skip_ws (str : string) (pos : nat) : nat :=
  skip_ws_from (drop pos str) pos.

(** ** Machine integers *)

(** The value an [int] holds after an operation whose exact result is [z]
    (two's complement, 32 bits). *)
Definition wrap_int (z : Z) : Z := ((z + 2147483648) mod 4294967296 - 2147483648)%Z.

(** The same for [unsigned int]. *)
Definition wrap_uint (z : Z) : Z := (z mod 4294967296)%Z.

(** ** parse_digits *)

(** The loop of [parse_digits] over the window [text[pos+i .. slen)];
    [bounded] says that a length was given ([len != npos]).  Returns the count
    of digits read (0 on failure) and the value left in [val]. *)
Fixpoint parse_digits_loop (wrap : Z -> Z) (bounded : bool) (win : string)
    (i : nat) (val : Z) : nat * Z :=
  match win with
  | EmptyString => (i, val)
  | String ch win' =>
      if isdigit ch then
        let pval := val in
        let val := wrap (val * 10)%Z in
        let val := wrap (val + digit_val ch)%Z in
        if (val <? pval)%Z then (0, val)
        else parse_digits_loop wrap bounded win' (S i) val
      else if bounded || (i =? 0) then (0, val)
      else (i, val)
  end.

(** [len = None] stands for [std::string::npos]. *)
Definition parse_digits (wrap : Z -> Z) (text : string) (pos : nat)
    (len : option nat) : nat * Z :=
  match len with
  | Some l =>
      if size text <? pos + l then (0, 0%Z)
      else parse_digits_loop wrap true (take l (drop pos text)) 0 0%Z
  | None => parse_digits_loop wrap false (drop pos text) 0 0%Z
  end.

(** ** parse_datetime *)

(** The fields of [struct tm] that the program sets. *)
Record tm : Type := mk_tm {
  tm_year : Z;   (* years since 1900 *)
  tm_mon : Z;    (* 0 to 11 *)
  tm_mday : Z;
  tm_hour : Z;
  tm_min : Z;
  tm_sec : Z
}.

(** [while (i < len && text[i] != ']') i++] *)
Fixpoint skip_to_bracket_from (rest : string) (i : nat) : nat :=
  match rest with
  | String ch rest' =>
      if chr_eqb ch "]" then i else skip_to_bracket_from rest' (S i)
  | EmptyString => i
  end.

Definition skip_to_bracket (text : string) (i : nat) : nat :=
  skip_to_bracket_from (drop i text) i.

(** The bracketed timezone of [parse_datetime]: the body of [if (i < len)],
    entered with the cursor [i] on the first character after the white space
    that follows the seconds.  Returns [tzoff_min], or [None] where the source
    returns [false]. *)
Definition parse_tzoff (text : string) (i : nat) : option Z :=
  let len := size text in
  if negb (chr_eqb (char_at text i) "[") then None else
  let i := S i in
  let i := skip_ws text i in
  if len <=? i then None else
  let signed := chr_eqb (char_at text i) "-" || chr_eqb (char_at text i) "+" in
  let neg := signed && chr_eqb (char_at text i) "-" in
  let i := if signed then S i else i in
  if signed && (len <=? i) then None else
  let '(digs, tzoff_min) := parse_digits wrap_int text i None in
  if (digs =? 0) || (12 <? tzoff_min)%Z then None else
  let tzoff_min := wrap_int (tzoff_min * 60)%Z in
  let i := i + digs in
  if len <=? i then None else
  let frac :=
    if chr_eqb (char_at text i) "." then
      let i := S i in
      if len <=? i then None else
      let '(digs, tzoff_frac) := parse_digits wrap_int text i None in
      if (digs =? 0) || negb (tzoff_frac =? 0)%Z then None
      else Some (i + digs)
    else Some i in
  match frac with
  | None => None
  | Some i =>
      let tzoff_min := if neg then wrap_int (- tzoff_min)%Z else tzoff_min in
      let i := skip_ws text i in
      if len <=? i then None else
      let named :=
        if chr_eqb (char_at text i) ":" then
          let i := skip_to_bracket text (S i) in
          if len <=? i then None else Some i
        else Some i in
      match named with
      | None => None
      | Some i =>
          if negb (chr_eqb (char_at text i) "]") then None else
          let i := skip_ws text (S i) in
          if i <? len then None else Some tzoff_min
      end
  end.

(** The result of a successful [parse_datetime]: the [struct tm], [msecs]
    ([None] where the source leaves it unset) and [tzoff_min]. *)
Record datetime : Type := mk_datetime {
  dt_tm : tm;
  dt_msecs : option Z;
  dt_tzoff_min : Z
}.

Definition parse_datetime (text : string) : option datetime :=
  let len := size text in
  if len <? 8 then None else
  let '(n, year) := parse_digits wrap_int text 0 (Some 4) in
  if (n =? 0) || (9999 <? year)%Z then None else
  let year := wrap_int (year - 1900)%Z in
  let '(n, mon) := parse_digits wrap_int text 4 (Some 2) in
  if (n =? 0) || (mon =? 0)%Z || (12 <? mon)%Z then None else
  let mon := wrap_int (mon - 1)%Z in
  let '(n, mday) := parse_digits wrap_int text 6 (Some 2) in
  if (n =? 0) || (mday =? 0)%Z || (31 <? mday)%Z then None else
  if 14 <=? len then
    let '(n, hour) := parse_digits wrap_int text 8 (Some 2) in
    if (n =? 0) || (23 <? hour)%Z then None else
    let '(n, min) := parse_digits wrap_int text 10 (Some 2) in
    if (n =? 0) || (59 <? min)%Z then None else
    let '(n, sec) := parse_digits wrap_int text 12 (Some 2) in
    if (n =? 0) || (60 <? sec)%Z then None else
    let t := mk_tm year mon mday hour min sec in
    if 18 <=? len then
      let i := 14 in
      let frac :=
        if chr_eqb (char_at text i) "." then
          let '(n, msecs) := parse_digits wrap_uint text (S i) (Some 3) in
          if n =? 0 then None else Some (S i + 3, Some msecs)
        else Some (i, None) in
      match frac with
      | None => None
      | Some (i, msecs) =>
          let i := skip_ws text i in
          if i <? len then
            match parse_tzoff text i with
            | Some tzoff_min => Some (mk_datetime t msecs tzoff_min)
            | None => None
            end
          else Some (mk_datetime t msecs 0%Z)
      end
    else if 14 <? len then None
    else Some (mk_datetime t None 0%Z)
  else if 8 <? len then None
  else Some (mk_datetime (mk_tm year mon mday 0%Z 0%Z 0%Z) None 0%Z).


(** ** Rendering a timestamp (the formatting half of [add_datetime]) *)

Fixpoint zeros (n : nat) : string :=
  match n with
  | 0 => EmptyString
  | S n' => String "0" (zeros n')
  end.

(** [printf]'s [%0<width>d], and with [plus] its [%+0<width>d]. *)
Definition fmt_int (plus : bool) (width : nat) (v : Z) : string :=
  let sign := if (v <? 0)%Z then "-" else if plus then "+" else "" in
  let digits := NilZero.string_of_uint (N.to_uint (Z.abs_N v)) in
  sign ++ zeros (width - size sign - size digits) ++ digits.

(** [strftime(buf, sizeof buf, "%FT%T", &tm)].  The year is written with four
    digits; the years [parse_datetime] lets through are 0 to 9999, and below
    1000 the padding is the C library's choice. *)
Definition strftime_FT (t : tm) : string :=
  fmt_int false 4 (tm_year t + 1900) ++ "-" ++ fmt_int false 2 (tm_mon t + 1)
  ++ "-" ++ fmt_int false 2 (tm_mday t) ++ "T" ++ fmt_int false 2 (tm_hour t)
  ++ ":" ++ fmt_int false 2 (tm_min t) ++ ":" ++ fmt_int false 2 (tm_sec t).

(** The text [add_datetime] builds in [buf] from a decoded timestamp. *)
Definition format_datetime (d : datetime) : string :=
  let buf := strftime_FT (dt_tm d) in
  let tzoff_min := dt_tzoff_min d in
  if (tzoff_min =? 0)%Z then buf ++ "Z"
  else
    let off_min := Z.rem (Z.abs tzoff_min) 60 in
    if negb (off_min =? 0)%Z
    then buf ++ fmt_int true 3 (Z.quot tzoff_min 60) ++ ":" ++ fmt_int false 2 off_min
    else buf ++ fmt_int true 3 (Z.quot tzoff_min 60).

(** ** parse_number *)

(** [(double)(ch - '0')] *)
Definition float_of_digit (ch : ascii) : float :=
  PrimFloat.of_uint63 (Uint63.of_Z (digit_val ch)).

Definition is_09 (ch : ascii) : bool :=
  let n := nat_of_ascii ch in (48 <=? n) && (n <=? 57).

(** The digit loop of [parse_number], walking the unread part of [text].  A
    [double] is an IEEE binary64 number and every operation rounds on its own.
    Returns the cursor and the two accumulators at the loop's exit, [None]
    where the loop returns [false]. *)
Fixpoint parse_number_loop (rest : string) (pos : nat) (r f : float)
    (isf : bool) : option (nat * float * float) :=
  match rest with
  | EmptyString => Some (pos, r, f)
  | String ch rest' =>
      if chr_eqb ch "." then
        if isf then None
        else parse_number_loop rest' (S pos) r f true
      else if is_09 ch then
        let f := if isf then PrimFloat.div f 10%float else f in
        let pr := r in
        let r := PrimFloat.add (PrimFloat.mul r 10%float) (float_of_digit ch) in
        if PrimFloat.ltb r pr then None
        else parse_number_loop rest' (S pos) r f isf
      else Some (pos, r, f)
  end.

Definition parse_number (text : string) : option float :=
  let r := 0%float in
  let f := 1%float in
  let pos := skip_ws text 0 in
  if size text <=? pos then None else
  let ch := char_at text pos in
  let signed := chr_eqb ch "-" || chr_eqb ch "+" in
  let f := if chr_eqb ch "-" then (-1)%float else f in
  let pos := if signed then S (skip_ws text pos) else pos in
  if signed && (size text <=? pos) then None else
  match parse_number_loop (drop pos text) pos r f false with
  | None => None
  | Some (pos, r, f) =>
      let pos := skip_ws text pos in
      if pos <? size text then None
      else Some (PrimFloat.mul r f)
  end.

(** ** parse_bool *)

Definition parse_bool (text : string) : option bool :=
  let pos := skip_ws text 0 in
  if size text <=? pos then None else
  let ch := char_at text pos in
  let val :=
    if chr_eqb ch "Y" || chr_eqb ch "y" then Some true
    else if chr_eqb ch "N" || chr_eqb ch "n" then Some false
    else None in
  match val with
  | None => None
  | Some v =>
      let pos := skip_ws text (S pos) in
      if size text <=? pos then Some v else None
  end.


(** ** The tokenizer's character readers *)

(** What a loop that is bounded by the buffer may give: a value, or [OutOfFuel]
    when the bound the model gave it was too small (shown below never to
    happen), or [Aborted] when the process ends in [abort()] or a failed
    [assert]. *)
Inductive exec (A : Type) : Type :=
| Ret (a : A)
| Aborted
| OutOfFuel.
Arguments Ret {A} a.
Arguments Aborted {A}.
Arguments OutOfFuel {A}.

(** The characters that end a bare name or an unquoted attribute value. *)
Definition is_name_end (ch : ascii) : bool :=
  isspace ch || chr_eqb ch "<" || chr_eqb ch ">" || chr_eqb ch "/"
  || chr_eqb ch "=" || chr_eqb ch dquote.

Definition nonempty (s : string) : bool :=
  match s with EmptyString => false | String _ _ => true end.

Definition push_back (s : string) (ch : ascii) : string :=
  s ++ String ch EmptyString.

(** [read_name]: the result, the new cursor and the text appended to [txt]. *)
Fixpoint read_name_from (rest : string) (pos : nat) (txt : string)
    : bool * nat * string :=
  match rest with
  | EmptyString => (nonempty txt, pos, txt)
  | String ch rest' =>
      if is_name_end ch then (nonempty txt, pos, txt)
      else read_name_from rest' (S pos) (push_back txt ch)
  end.

Definition read_name (str : string) (pos : nat) (txt : string)
    : bool * nat * string :=
  read_name_from (drop pos str) pos txt.

Fixpoint read_attrval_from (quoted : bool) (rest : string) (pos : nat)
    (txt : string) : bool * nat * string :=
  match rest with
  | EmptyString => (negb quoted && nonempty txt, pos, txt)
  | String ch rest' =>
      if negb quoted && is_name_end ch then (nonempty txt, pos, txt)
      else if quoted && chr_eqb ch dquote then (nonempty txt, pos, txt)
      else read_attrval_from quoted rest' (S pos) (push_back txt ch)
  end.

Definition read_attrval (str : string) (pos : nat) (txt : string)
    (quoted : bool) : bool * nat * string :=
  read_attrval_from quoted (drop pos str) pos txt.

(** [txt.erase(i)] after [i] has stepped back over the trailing white space:
    the text without its trailing white space. *)
Fixpoint rtrim (txt : string) : string :=
  match txt with
  | EmptyString => EmptyString
  | String ch r =>
      match rtrim r with
      | EmptyString => if isspace ch then EmptyString else String ch EmptyString
      | r' => String ch r'
      end
  end.

Fixpoint read_text_from (rest : string) (pos : nat) (txt : string)
    : bool * nat * string :=
  match rest with
  | EmptyString => (false, pos, txt)
  | String ch rest' =>
      if chr_eqb ch "<" || chr_eqb ch ">" then (true, pos, rtrim txt)
      else read_text_from rest' (S pos) (push_back txt ch)
  end.

Definition read_text (str : string) (pos : nat) (txt : string)
    : bool * nat * string :=
  let pos := skip_ws str pos in
  read_text_from (drop pos str) pos txt.

(** ** try_xml_decode *)

(** The [for] loop that collects an entity name: at most [n] characters of
    [rest], stopping at a semicolon.  Gives [found_end] and [entity]. *)
Fixpoint scan_entity (n : nat) (rest : string) (entity : string)
    : bool * string :=
  match n, rest with
  | S n', String ch_e rest' =>
      if chr_eqb ch_e ";" then (true, entity)
      else scan_entity n' rest' (push_back entity ch_e)
  | _, _ => (false, entity)
  end.

(** The static map [xml_entities]. *)
Definition xml_entities (entity : string) : option ascii :=
  if String.eqb entity "quot" then Some dquote
  else if String.eqb entity "amp" then Some "&"%char
  else if String.eqb entity "apos" then Some "'"%char
  else if String.eqb entity "lt" then Some "<"%char
  else if String.eqb entity "gt" then Some ">"%char
  else None.

Fixpoint try_xml_decode_loop (fuel : nat) (txt : string) (pos : nat)
    (ret : string) : exec string :=
  match fuel with
  | 0 => OutOfFuel
  | S fuel' =>
      if pos <? size txt then
        let ch := char_at txt pos in
        let '(found_end, entity) :=
          if chr_eqb ch "&" then scan_entity 5 (drop (S pos) txt) EmptyString
          else (false, EmptyString) in
        match (if found_end && nonempty entity then xml_entities entity
               else None) with
        | Some c =>
            try_xml_decode_loop fuel' txt (pos + (size entity + 2))
              (push_back ret c)
        | None => try_xml_decode_loop fuel' txt (S pos) (push_back ret ch)
        end
      else Ret ret
  end.

Definition try_xml_decode (txt : string) : exec string :=
  try_xml_decode_loop (S (size txt)) txt 0 EmptyString.

(** ** iterate_elements *)

(** [std::map<std::string, std::string>]: keys are unique and [insert] keeps
    the value a key already has. *)
Definition attrs : Type := list (string * string).

Fixpoint map_find {V : Type} (key : string) (m : list (string * V)) : option V :=
  match m with
  | [] => None
  | (k, v) :: m' => if String.eqb k key then Some v else map_find key m'
  end.

Definition map_insert (key val : string) (m : attrs) : attrs :=
  match map_find key m with
  | Some _ => m
  | None => (m ++ [(key, val)])%list
  end.

(** The [do ... while (pos < str.size())] loop that reads the attributes of
    an opening tag.  [Ret None] is the loop's [return false]. *)
Fixpoint read_attrs (fuel : nat) (str : string) (pos : nat) (el_attrs : attrs)
    : exec (option (nat * attrs)) :=
  match fuel with
  | 0 => OutOfFuel
  | S fuel' =>
      if chr_eqb (char_at str pos) ">" || chr_eqb (char_at str pos) "/"
      then Ret (Some (pos, el_attrs))
      else
        let '(ok, pos, at_name) := read_name str pos EmptyString in
        if negb ok then Ret None else
        let pos := skip_ws str pos in
        if size str <=? pos then Ret None else
        let value :=
          if chr_eqb (char_at str pos) "=" then
            let pos := skip_ws str (S pos) in
            if size str <=? pos then None else
            let quoted := chr_eqb (char_at str pos) dquote in
            let pos := if quoted then S pos else pos in
            let '(ok, pos, at_val) := read_attrval str pos EmptyString quoted in
            if negb ok then None
            else if quoted then
              if negb (chr_eqb (char_at str pos) dquote) then None
              else Some (S pos, at_val)
            else Some (pos, at_val)
          else Some (pos, EmptyString) in
        match value with
        | None => Ret None
        | Some (pos, at_val) =>
            let pos := skip_ws str pos in
            match try_xml_decode at_val with
            | Ret decoded =>
                let el_attrs := map_insert at_name decoded el_attrs in
                if pos <? size str then read_attrs fuel' str pos el_attrs
                else Ret (Some (pos, el_attrs))
            | Aborted => Aborted
            | OutOfFuel => OutOfFuel
            end
        end
  end.

(** One element as the loop body of [iterate_elements] reads it. *)
Record element : Type := mk_element {
  el_name : string;
  el_attrs : attrs;
  el_text : string;
  simple_tag : bool
}.

(** What one pass of the loop body finds before it calls the handler. *)
Inductive token : Type :=
| TokBreak (pos : nat)                 (* only white space was left *)
| TokError (pos : nat)                 (* [return false] *)
| TokElement (pos : nat) (el : element).

(** The tail of the loop body for a name that does not start with a slash.
    When the attribute list is refused, the cursor given with [TokError] is
    the one at the start of the list, while the source leaves its cursor
    where the reading stopped: after a [return false] of the loop neither
    [process_ofx] nor [main] reads the cursor again. *)
Definition read_open_tag (str : string) (pos : nat) (name : string)
    : exec token :=
  let pos0 := pos in
  let pos := skip_ws str pos in
  match (if pos0 <? pos then read_attrs (S (size str)) str pos []
         else Ret (Some (pos, []))) with
  | Aborted => Aborted
  | OutOfFuel => OutOfFuel
  | Ret None => Ret (TokError pos)
  | Ret (Some (pos, el_attrs)) =>
      if size str <=? pos then Ret (TokError pos) else
      let simple := (1 <? size str) && chr_eqb (char_at str pos) "/" in
      let pos := if simple then S pos else pos in
      let pos := skip_ws str pos in
      if (size str <=? pos) || negb (chr_eqb (char_at str pos) ">")
      then Ret (TokError pos) else
      let pos := S pos in
      if simple then Ret (TokElement pos (mk_element name el_attrs EmptyString true))
      else
        let '(ok, pos, el_text) := read_text str pos EmptyString in
        if negb ok then Ret (TokError pos)
        else Ret (TokElement pos (mk_element name el_attrs el_text false))
  end.

(** The loop body of [iterate_elements] up to the test for [/OFX], entered
    with [pos < str.size()]. *)
Definition read_element (str : string) (pos : nat) : exec token :=
  let pos := skip_ws str pos in
  if size str <=? pos then Ret (TokBreak pos) else
  if negb (chr_eqb (char_at str pos) "<") then Ret (TokError pos) else
  let pos := skip_ws str (S pos) in
  if size str <=? pos then Ret (TokError pos) else
  let closing := chr_eqb (char_at str pos) "/" in
  let pos' := if closing then skip_ws str (S pos) else pos in
  if closing && (size str <=? pos') then Ret (TokError pos') else
  let '(ok, pos, name) :=
    read_name str pos' (if closing then "/" else EmptyString) in
  if negb ok then Ret (TokError pos) else
  if negb (chr_eqb (char_at name 0) "/") then read_open_tag str pos name
  else
    let pos := skip_ws str pos in
    if (size str <=? pos) || negb (chr_eqb (char_at str pos) ">")
    then Ret (TokError pos)
    else Ret (TokElement (S pos) (mk_element name [] EmptyString false)).

(** The handler [iterate_elements] is instantiated with: it is given the
    element and threads the state [St] it has captured. *)
Definition handler (St : Type) : Type :=
  St -> string -> attrs -> string -> exec (bool * St).

(** [iterate_elements]: the result, the final cursor and the handler's state. *)
Fixpoint iterate_elements {St : Type} (fuel : nat) (str : string) (pos : nat)
    (handle_element : handler St) (st : St) : exec (bool * nat * St) :=
  match fuel with
  | 0 => OutOfFuel
  | S fuel' =>
      if pos <? size str then
        match read_element str pos with
        | Aborted => Aborted
        | OutOfFuel => OutOfFuel
        | Ret (TokBreak pos) => Ret (true, pos, st)
        | Ret (TokError pos) => Ret (false, pos, st)
        | Ret (TokElement pos el) =>
            if String.eqb (el_name el) "/OFX" then Ret (true, pos, st) else
            match try_xml_decode (el_text el) with
            | Aborted => Aborted
            | OutOfFuel => OutOfFuel
            | Ret text =>
                match handle_element st (el_name el) (el_attrs el) text with
                | Aborted => Aborted
                | OutOfFuel => OutOfFuel
                | Ret (false, st) => Ret (false, pos, st)
                | Ret (true, st) =>
                    if simple_tag el then
                      match handle_element st ("/" ++ el_name el) (el_attrs el)
                              EmptyString with
                      | Aborted => Aborted
                      | OutOfFuel => OutOfFuel
                      | Ret (false, st) => Ret (false, pos, st)
                      | Ret (true, st) =>
                          iterate_elements fuel' str pos handle_element st
                      end
                    else iterate_elements fuel' str pos handle_element st
                end
            end
        end
      else Ret (true, pos, st)
  end.

(** ** The JSON document *)

(** A [rapidjson::Value]. *)
Inductive json : Type :=
| JNull
| JBool (b : bool)
| JNumber (d : float)
| JString (s : string)
| JArray (items : list json)
| JObject (members : list (string * json)).

(** The values the [shared_ptr]s of the program point to, by address.  Two
    containers that hold the same address share one value. *)
Definition heap : Type := list json.

Definition load (h : heap) (a : nat) : json := nth a h JNull.

Fixpoint store (h : heap) (a : nat) (v : json) : heap :=
  match h, a with
  | [], _ => []
  | _ :: t, 0 => v :: t
  | x :: t, S a' => x :: store t a' v
  end.

(** [std::make_shared<rapidjson::Value>(...)]: a fresh address. *)
Definition alloc (h : heap) (v : json) : nat * heap :=
  (List.length h, (h ++ [v])%list).

(** [target->AddMember(name, value, allocator)]: appends a member to an
    object; on any other value rapidjson's assertion fails. *)
Definition AddMember (h : heap) (target : nat) (name : string) (value : json)
    : exec heap :=
  match load h target with
  | JObject ms => Ret (store h target (JObject (ms ++ [(name, value)])%list))
  | _ => Aborted
  end.

(** [target->PushBack(value, allocator)], likewise for an array. *)
Definition PushBack (h : heap) (target : nat) (value : json) : exec heap :=
  match load h target with
  | JArray l => Ret (store h target (JArray (l ++ [value])%list))
  | _ => Aborted
  end.

(** ** The schema *)

Inductive serialize_as : Type :=
| nothing
| object
| object_in_array
| object_with_name_in_array
| array.

Inductive tag_fmt : Type :=
| tag_string
| tag_number
| tag_boolean
| tag_datetime.

(** [struct ofx_cont]; the two [std::map]s are read by key only. *)
Inductive ofx_cont : Type := mk_ofx_cont {
  serialize : serialize_as;
  sub : list (string * ofx_cont);
  tags : list (string * tag_fmt)
}.

(** ** The container stack *)

(** [struct ofx_container]; [val_] is the address its [shared_ptr] holds. *)
Record ofx_container : Type := mk_ofx_container {
  name_ : string;
  cont_ : ofx_cont;
  val_ : nat;
  tags_ : list (string * string)
}.

(** What [logErr] and [logDbg] report (printed unless [g_quiet] is set). *)
Inductive diag : Type :=
| UnhandledElement (container element text : string)
| MismatchFor (element expecting : string)
| UnexpectedTag (element : string)
| ProcessingFailed
| StackNotEmpty
| ProcessingSucceeded
| NotAnOfxFile.

(** [struct process_ctx], with the memory its pointers refer to and the
    diagnostics written so far.  [ostack_] has its front at the head. *)
Record process_ctx : Type := mk_process_ctx {
  heap_ : heap;
  cerr_ : list diag;
  doc_ : nat;
  ostack_ : list ofx_container
}.

Definition with_heap (pctx : process_ctx) (h : heap) : process_ctx :=
  mk_process_ctx h (cerr_ pctx) (doc_ pctx) (ostack_ pctx).

Definition with_ostack (pctx : process_ctx) (s : list ofx_container)
    : process_ctx :=
  mk_process_ctx (heap_ pctx) (cerr_ pctx) (doc_ pctx) s.

Definition log (pctx : process_ctx) (d : diag) : process_ctx :=
  mk_process_ctx (heap_ pctx) (cerr_ pctx ++ [d])%list (doc_ pctx) (ostack_ pctx).

Definition push_container (pctx : process_ctx) (container : ofx_container)
    : process_ctx :=
  with_ostack pctx (container :: ostack_ pctx).

Definition pop_container (pctx : process_ctx) : process_ctx :=
  with_ostack pctx (tl (ostack_ pctx)).

(** The constructor of [ofx_container]: the new container and the context
    with the value it may have allocated. *)
Definition new_ofx_container (name : string) (cont : ofx_cont)
    (pctx : process_ctx) : ofx_container * process_ctx :=
  match serialize cont with
  | object | object_in_array | object_with_name_in_array =>
      let '(a, h) := alloc (heap_ pctx) (JObject []) in
      (mk_ofx_container name cont a [], with_heap pctx h)
  | array =>
      let '(a, h) := alloc (heap_ pctx) (JArray []) in
      (mk_ofx_container name cont a [], with_heap pctx h)
  | nothing =>
      let a := match ostack_ pctx with
               | top :: _ => val_ top
               | [] => doc_ pctx
               end in
      (mk_ofx_container name cont a [], pctx)
  end.

(** [done()], called on the front container: folds its value into the
    container below it.  [AddMember] and [PushBack] take the value over and
    leave null behind. *)
Definition done (pctx : process_ctx) : exec process_ctx :=
  match ostack_ pctx with
  | [] => Aborted
  | this :: [] => Ret pctx
  | this :: pcontainer :: _ =>
      let h := heap_ pctx in
      let v := load h (val_ this) in
      match serialize (cont_ this) with
      | object | array =>
          match AddMember (store h (val_ this) JNull) (val_ pcontainer)
                  (str_lower (name_ this)) v with
          | Ret h => Ret (with_heap pctx h)
          | Aborted => Aborted
          | OutOfFuel => OutOfFuel
          end
      | object_in_array =>
          match PushBack (store h (val_ this) JNull) (val_ pcontainer) v with
          | Ret h => Ret (with_heap pctx h)
          | Aborted => Aborted
          | OutOfFuel => OutOfFuel
          end
      | object_with_name_in_array =>
          let obj := JObject [(str_lower (name_ this), v)] in
          match PushBack (store h (val_ this) JNull) (val_ pcontainer) obj with
          | Ret h => Ret (with_heap pctx h)
          | Aborted => Aborted
          | OutOfFuel => OutOfFuel
          end
      | nothing => Ret pctx
      end
  end.

(** [s.c_str()] as the C string rapidjson reads when it copies it: the
    characters of [s] before its first NUL. *)
Fixpoint c_str (s : string) : string :=
  match s with
  | EmptyString => EmptyString
  | String ch r => if chr_eqb ch Ascii.zero then EmptyString else String ch (c_str r)
  end.

(** The four [add_*] methods, on the value at address [val].  [add_string]
    hands [text.c_str()] to rapidjson, which copies it up to its first NUL.
    The member names are keys of the schema tables, which are C string
    literals. *)
Definition add_string (h : heap) (val : nat) (element text : string)
    : exec heap :=
  AddMember h val (str_lower element) (JString (c_str text)).

Definition add_datetime (h : heap) (val : nat) (element text : string)
    : exec heap :=
  match parse_datetime text with
  | Some d => add_string h val element (format_datetime d)
  | None => add_string h val element text
  end.

Definition add_number (h : heap) (val : nat) (element text : string)
    : exec heap :=
  match parse_number text with
  | Some v => AddMember h val (str_lower element) (JNumber v)
  | None => Aborted
  end.

Definition add_bool (h : heap) (val : nat) (element text : string)
    : exec heap :=
  match parse_bool text with
  | Some v => AddMember h val (str_lower element) (JBool v)
  | None => Aborted
  end.

(** [handle_tag], called on the front container of [pctx]. *)
Definition handle_tag (pctx : process_ctx) (element : string) (_ : attrs)
    (text : string) : exec (bool * process_ctx) :=
  match ostack_ pctx with
  | [] => Aborted
  | this :: below =>
      match map_find element (sub (cont_ this)) with
      | Some c =>
          let '(n, pctx) := new_ofx_container element c pctx in
          Ret (true, push_container pctx n)
      | None =>
          let added :=
            match map_find element (tags (cont_ this)) with
            | Some tag_string =>
                match add_string (heap_ pctx) (val_ this) element text with
                | Ret h => Ret (with_heap pctx h)
                | Aborted => Aborted
                | OutOfFuel => OutOfFuel
                end
            | Some tag_number =>
                match add_number (heap_ pctx) (val_ this) element text with
                | Ret h => Ret (with_heap pctx h)
                | Aborted => Aborted
                | OutOfFuel => OutOfFuel
                end
            | Some tag_boolean =>
                match add_bool (heap_ pctx) (val_ this) element text with
                | Ret h => Ret (with_heap pctx h)
                | Aborted => Aborted
                | OutOfFuel => OutOfFuel
                end
            | Some tag_datetime =>
                match add_datetime (heap_ pctx) (val_ this) element text with
                | Ret h => Ret (with_heap pctx h)
                | Aborted => Aborted
                | OutOfFuel => OutOfFuel
                end
            | None => Ret (log pctx (UnhandledElement (name_ this) element text))
            end in
          match added with
          | Ret pctx =>
              let this := mk_ofx_container (name_ this) (cont_ this) (val_ this)
                            (tags_ this ++ [(element, text)])%list in
              Ret (true, with_ostack pctx (this :: below))
          | Aborted => Aborted
          | OutOfFuel => OutOfFuel
          end
      end
  end.

(** The loop of [handle_close] on the pending tags taken from the back:
    whether [close_tag] was met, and the tags left (still back first). *)
Fixpoint scan_back (close_tag : string) (rtags : list (string * string))
    : bool * list (string * string) :=
  match rtags with
  | [] => (false, [])
  | t :: rtags' =>
      if String.eqb (fst t) close_tag then (true, rtags')
      else scan_back close_tag rtags'
  end.

(** [handle_close]: the result, [container_done] and the container after. *)
Definition handle_close (this : ofx_container) (close_tag : string)
    : bool * bool * ofx_container :=
  let '(found, rtags) := scan_back close_tag (rev (tags_ this)) in
  let this' := mk_ofx_container (name_ this) (cont_ this) (val_ this) (rev rtags) in
  match rtags with
  | [] =>
      if String.eqb close_tag (name_ this) then (true, true, this')
      else (found, false, this')
  | _ :: _ => (found, false, this')
  end.

(** [element.substr(1)] *)
Definition substr1 (s : string) : string := drop 1 s.

(** The handler [process_ofx] gives to [iterate_elements]. *)
Definition handle_element : handler process_ctx :=
  fun pctx element attrs text =>
    if negb (chr_eqb (char_at element 0) "/") then
      handle_tag pctx element attrs text
    else
      match ostack_ pctx with
      | os_top :: below =>
          let '(ok, container_done, os_top') :=
            handle_close os_top (substr1 element) in
          let pctx := with_ostack pctx (os_top' :: below) in
          if negb ok then
            Ret (false, log pctx (MismatchFor element (name_ os_top)))
          else if container_done then
            match done pctx with
            | Ret pctx => Ret (true, pop_container pctx)
            | Aborted => Aborted
            | OutOfFuel => OutOfFuel
            end
          else Ret (true, pctx)
      | [] => Ret (false, log pctx (UnexpectedTag element))
      end.

(** ** process_ofx and main *)

Section Driver.

(** The schema of the document root (the table [ofx_main] below). *)
Variable root_cont : ofx_cont.

(** [process_ofx] on a context that holds the document at [doc_] and an empty
    stack; the loop is given as many passes as the buffer has characters,
    plus one. *)
Definition process_ofx (pctx : process_ctx) (input : string) (pos : nat)
    : exec (bool * process_ctx) :=
  let '(root, pctx) := new_ofx_container "OFX" root_cont pctx in
  let pctx := push_container pctx root in
  match iterate_elements (S (size input)) input pos handle_element pctx with
  | Aborted => Aborted
  | OutOfFuel => OutOfFuel
  | Ret (false, _, pctx) => Ret (true, log pctx ProcessingFailed)
  | Ret (true, _, pctx) =>
      let closed :=
        match ostack_ pctx with
        | [os_top] =>
            let '(_, container_done, _) := handle_close os_top (name_ os_top) in
            (container_done, pop_container pctx)
        | _ => (true, pctx)
        end in
      let '(container_done, pctx) := closed in
      if negb container_done then Ret (false, pctx)
      else
        match ostack_ pctx with
        | _ :: _ => Ret (false, log pctx StackNotEmpty)
        | [] => Ret (true, log pctx ProcessingSucceeded)
        end
  end.

(** What a run of the program leaves: the exit status, the JSON document it
    wrote (if any) and its diagnostics. *)
Record outcome : Type := mk_outcome {
  ret : Z;
  output : option json;
  diags : list diag
}.

(** [main], from the point where [in] holds the whole input. *)
Definition main (input : string) : exec outcome :=
  match String.index 0 "<OFX>" input with
  | None => Ret (mk_outcome 1 None [NotAnOfxFile])
  | Some pos =>
      let pos := pos + 5 in
      let pctx := mk_process_ctx [JObject []] [] 0 [] in
      match process_ofx pctx input pos with
      | Aborted => Aborted
      | OutOfFuel => OutOfFuel
      | Ret (true, pctx) =>
          Ret (mk_outcome 0 (Some (load (heap_ pctx) (doc_ pctx))) (cerr_ pctx))
      | Ret (false, pctx) => Ret (mk_outcome 0 None (cerr_ pctx))
      end
  end.

End Driver.

(** ** The schema table

    The static [ofx_cont] tables of the program, in the order of the source;
    a pointer to a table is the table itself. *)

Definition ofx_status : ofx_cont :=
  {| serialize := object;
     sub := [];
     tags := [("CODE", tag_string); ("SEVERITY", tag_string);
           ("MESSAGE", tag_string)] |}.

Definition ofx_signon_sonrs_fi : ofx_cont :=
  {| serialize := object;
     sub := [];
     tags := [("ORG", tag_string); ("FID", tag_string)] |}.

Definition ofx_signon_sonrs : ofx_cont :=
  {| serialize := object;
     sub := [("STATUS", ofx_status); ("FI", ofx_signon_sonrs_fi)];
     tags := [("DTSERVER", tag_datetime); ("DTPROFUP", tag_datetime);
           ("LANGUAGE", tag_string); ("SESSCOOKIE", tag_string)] |}.

Definition ofx_signonmsgsrsv1 : ofx_cont :=
  {| serialize := object;
     sub := [("SONRS", ofx_signon_sonrs)];
     tags := [] |}.

Definition ofx_signupmsgsrsv1 : ofx_cont :=
  {| serialize := object;
     sub := [];
     tags := [] |}.

Definition ofx_investment_entry_status : ofx_cont :=
  {| serialize := object;
     sub := [];
     tags := [("CODE", tag_string); ("SEVERITY", tag_string)] |}.

Definition ofx_invacctfrom : ofx_cont :=
  {| serialize := object;
     sub := [];
     tags := [("BROKERID", tag_string); ("ACCTID", tag_string)] |}.

Definition ofx_currency : ofx_cont :=
  {| serialize := object;
     sub := [];
     tags := [("CURRATE", tag_string); ("CURSYM", tag_string)] |}.

Definition ofx_escrwamt : ofx_cont :=
  {| serialize := object;
     sub := [];
     tags := [("ESCRWTOTAL", tag_number); ("ESCRWTAX", tag_number);
           ("ESCRWINS", tag_number); ("ESCRWPMI", tag_number);
           ("ESCRWFEES", tag_number); ("ESCRWOTHER", tag_number)] |}.

Definition ofx_payee : ofx_cont :=
  {| serialize := object;
     sub := [];
     tags := [("NAME", tag_string); ("ADDR1", tag_string);
           ("ADDR2", tag_string); ("ADDR3", tag_string);
           ("CITY", tag_string); ("STATE", tag_string);
           ("POSTALCODE", tag_string); ("COUNTRY", tag_string);
           ("PHONE", tag_string)] |}.

Definition ofx_bankacctto : ofx_cont :=
  {| serialize := object;
     sub := [];
     tags := [("BANKID", tag_string); ("BRANCHID", tag_string);
           ("ACCTID", tag_string); ("ACCTTYPE", tag_string);
           ("ACCTKEY", tag_string)] |}.

Definition ofx_ccacct_fromorto : ofx_cont :=
  {| serialize := object;
     sub := [];
     tags := [("ACCTID", tag_string); ("ACCTKEY", tag_string)] |}.

Definition ofx_loanpmtinfo : ofx_cont :=
  {| serialize := object;
     sub := [("ESCRWAMT", ofx_escrwamt)];
     tags := [("PRINAMT", tag_number); ("INTAMT", tag_number);
           ("INSURANCE", tag_number); ("LATEFEEAMT", tag_number);
           ("OTHERAMT", tag_number)] |}.

Definition ofx_imagedata : ofx_cont :=
  {| serialize := object;
     sub := [];
     tags := [("IMAGETYPE", tag_string); ("IMAGEREF", tag_string);
           ("IMAGEREFTYPE", tag_string); ("IMAGEDELAY", tag_string);
           ("DTIMAGEAVAIL", tag_string); ("IMAGETTL", tag_string);
           ("CHECKSUP", tag_string)] |}.

Definition ofx_stmttrn : ofx_cont :=
  {| serialize := object;
     sub := [("LOANPMTINFO", ofx_loanpmtinfo); ("PAYEE", ofx_payee);
          ("BANKACCTTO", ofx_bankacctto);
          ("CCACCTTO", ofx_ccacct_fromorto); ("IMAGEDATA", ofx_imagedata);
          ("CURRENCY", ofx_currency); ("ORIGCURRENCY", ofx_currency)];
     tags := [("TRNTYPE", tag_string); ("DTPOSTED", tag_datetime);
           ("DTUSER", tag_datetime); ("DTAVAIL", tag_datetime);
           ("TRNAMT", tag_number); ("FITID", tag_string);
           ("CORRECTFITID", tag_string); ("CORRECTACTION", tag_string);
           ("SRVRTID", tag_string); ("CHECKNUM", tag_string);
           ("REFNUM", tag_string); ("SIC", tag_string);
           ("PAYEEID", tag_string); ("NAME", tag_string);
           ("EXTDNAME", tag_string); ("MEMO", tag_string);
           ("INV401KSOURCE", tag_string)] |}.

Definition ofx_secid : ofx_cont :=
  {| serialize := object;
     sub := [];
     tags := [("UNIQUEID", tag_string); ("UNIQUEIDTYPE", tag_string)] |}.

Definition ofx_invtran : ofx_cont :=
  {| serialize := object;
     sub := [];
     tags := [("FITID", tag_string); ("SRVRTID", tag_string);
           ("DTTRADE", tag_datetime); ("DTSETTLE", tag_datetime);
           ("REVERSALFITID", tag_string); ("MEMO", tag_string)] |}.

Definition ofx_invbuy : ofx_cont :=
  {| serialize := object;
     sub := [("INVTRAN", ofx_invtran); ("SECID", ofx_secid)];
     tags := [("UNITS", tag_number); ("UNITPRICE", tag_number);
           ("TOTAL", tag_number); ("SUBACCTSEC", tag_string);
           ("SUBACCTFUND", tag_string)] |}.

Definition ofx_invsell : ofx_cont :=
  {| serialize := object;
     sub := [("INVTRAN", ofx_invtran); ("SECID", ofx_secid);
          ("CURRENCY", ofx_currency); ("ORIGCURRENCY", ofx_currency)];
     tags := [("UNITS", tag_number); ("UNITPRICE", tag_number);
           ("MARKDOWN", tag_number); ("COMMISSION", tag_number);
           ("TAXES", tag_number); ("FEES", tag_number);
           ("LOAD", tag_number); ("WITHHOLDING", tag_number);
           ("TAXEXEMPT", tag_boolean); ("TOTAL", tag_number);
           ("GAIN", tag_number); ("SUBACCTSEC", tag_string);
           ("SUBACCTFUND", tag_string); ("LOANID", tag_string);
           ("STATEWITHHOLDING", tag_number); ("PENALTY", tag_number);
           ("INV401KSOURCE", tag_string)] |}.

Definition ofx_invstmttrnrs_invstmtrs_invtranlist_invbanktran : ofx_cont :=
  {| serialize := object;
     sub := [("STMTTRN", ofx_stmttrn)];
     tags := [("SUBACCTFUND", tag_string)] |}.

Definition ofx_selldebt : ofx_cont :=
  {| serialize := object;
     sub := [("INVSELL", ofx_invsell)];
     tags := [("SELLREASON", tag_string); ("ACCRDINT", tag_number)] |}.

Definition ofx_sellmf : ofx_cont :=
  {| serialize := object;
     sub := [("INVSELL", ofx_invsell)];
     tags := [("SELLTYPE", tag_string); ("AVGCOSTBASIS", tag_number);
           ("RELFITID", tag_string)] |}.

Definition ofx_sellopt : ofx_cont :=
  {| serialize := object;
     sub := [("INVSELL", ofx_invsell)];
     tags := [("OPTSELLTYPE", tag_string); ("SHPERCTRCT", tag_number);
           ("RELFITID", tag_string); ("RELTYPE", tag_string);
           ("SECURED", tag_string)] |}.

Definition ofx_sellother : ofx_cont :=
  {| serialize := object;
     sub := [("INVSELL", ofx_invsell)];
     tags := [] |}.

Definition ofx_sellstock : ofx_cont :=
  {| serialize := object;
     sub := [("INVSELL", ofx_invsell)];
     tags := [("SELLTYPE", tag_string)] |}.

Definition ofx_buydebt : ofx_cont :=
  {| serialize := object;
     sub := [("INVBUY", ofx_invbuy)];
     tags := [("ACCRDINT", tag_string)] |}.

Definition ofx_buymf : ofx_cont :=
  {| serialize := object;
     sub := [("INVBUY", ofx_invbuy)];
     tags := [("BUYTYPE", tag_string); ("RELFITID", tag_string)] |}.

Definition ofx_buyopt : ofx_cont :=
  {| serialize := object;
     sub := [("INVBUY", ofx_invbuy)];
     tags := [("OPTBUYTYPE", tag_string); ("SHPERCTRCT", tag_number)] |}.

Definition ofx_buyother : ofx_cont :=
  {| serialize := object;
     sub := [("INVBUY", ofx_invbuy)];
     tags := [] |}.

Definition ofx_buystock : ofx_cont :=
  {| serialize := object;
     sub := [("INVBUY", ofx_invbuy)];
     tags := [("BUYTYPE", tag_string)] |}.

Definition ofx_closureopt : ofx_cont :=
  {| serialize := object;
     sub := [("INVTRAN", ofx_invtran); ("SECID", ofx_secid)];
     tags := [("OPTACTION", tag_string); ("UNITS", tag_number);
           ("SHPERCTRCT", tag_number); ("SUBACCTSEC", tag_string);
           ("RELFITID", tag_string); ("GAIN", tag_number)] |}.

Definition ofx_income : ofx_cont :=
  {| serialize := object;
     sub := [("INVTRAN", ofx_invtran); ("SECID", ofx_secid);
          ("CURRENCY", ofx_currency); ("ORIGCURRENCY", ofx_currency)];
     tags := [("INCOMETYPE", tag_string); ("TOTAL", tag_number);
           ("SUBACCTSEC", tag_string); ("SUBACCTFUND", tag_string);
           ("TAXEXEMPT", tag_boolean); ("WITHHOLDING", tag_number);
           ("INV401KSOURCE", tag_string)] |}.

Definition ofx_invexpense : ofx_cont :=
  {| serialize := object;
     sub := [("INVTRAN", ofx_invtran); ("SECID", ofx_secid);
          ("CURRENCY", ofx_currency); ("ORIGCURRENCY", ofx_currency)];
     tags := [("TOTAL", tag_number); ("SUBACCTSEC", tag_string);
           ("SUBACCTFUND", tag_string); ("INV401KSOURCE", tag_string)] |}.

Definition ofx_jrnlfund : ofx_cont :=
  {| serialize := object;
     sub := [("INVTRAN", ofx_invtran)];
     tags := [("SUBACCTTO", tag_string); ("SUBACCTFROM", tag_string);
           ("TOTAL", tag_number)] |}.

Definition ofx_jrnlsec : ofx_cont :=
  {| serialize := object;
     sub := [("INVTRAN", ofx_invtran); ("SECID", ofx_secid)];
     tags := [("SUBACCTTO", tag_string); ("SUBACCTFROM", tag_string);
           ("UNITS", tag_number)] |}.

Definition ofx_margininterest : ofx_cont :=
  {| serialize := object;
     sub := [("INVTRAN", ofx_invtran); ("CURRENCY", ofx_currency);
          ("ORIGCURRENCY", ofx_currency)];
     tags := [("TOTAL", tag_number); ("SUBACCTFUND", tag_string)] |}.

Definition ofx_reinvest : ofx_cont :=
  {| serialize := object;
     sub := [("INVTRAN", ofx_invtran); ("SECID", ofx_secid);
          ("CURRENCY", ofx_currency); ("ORIGCURRENCY", ofx_currency)];
     tags := [("INCOMETYPE", tag_string); ("TOTAL", tag_number);
           ("SUBACCTSEC", tag_string); ("UNITS", tag_number);
           ("UNITPRICE", tag_number); ("COMMISSION", tag_number);
           ("TAXES", tag_number); ("FEES", tag_number);
           ("LOAD", tag_number); ("TAXEXEMPT", tag_boolean);
           ("INV401KSOURCE", tag_string)] |}.

Definition ofx_retofcap : ofx_cont :=
  {| serialize := object;
     sub := [("INVTRAN", ofx_invtran); ("SECID", ofx_secid);
          ("CURRENCY", ofx_currency); ("ORIGCURRENCY", ofx_currency)];
     tags := [("SUBACCTSEC", tag_string); ("SUBACCTFUND", tag_string);
           ("UNITS", tag_number); ("INV401KSOURCE", tag_string)] |}.

Definition ofx_split : ofx_cont :=
  {| serialize := object;
     sub := [("INVTRAN", ofx_invtran); ("SECID", ofx_secid);
          ("CURRENCY", ofx_currency); ("ORIGCURRENCY", ofx_currency)];
     tags := [("SUBACCTSEC", tag_string); ("OLDUNITS", tag_number);
           ("NEWUNITS", tag_number); ("NUMERATOR", tag_number);
           ("DENOMINATOR", tag_number); ("FRACCASH", tag_number);
           ("SUBACCTFUND", tag_string); ("INV401KSOURCE", tag_string)] |}.

Definition ofx_transfer : ofx_cont :=
  {| serialize := object;
     sub := [("INVTRAN", ofx_invtran); ("SECID", ofx_secid);
          ("INVACCTFROM", ofx_invacctfrom)];
     tags := [("SUBACCTSEC", tag_string); ("UNITS", tag_number);
           ("TFERACTION", tag_string); ("POSTYPE", tag_string);
           ("AVGCOSTBASIS", tag_number); ("UNITPRICE", tag_number);
           ("DTPURCHASE", tag_datetime); ("INV401KSOURCE", tag_string)] |}.

Definition ofx_invstmttrnrs_invstmtrs_invtranlist : ofx_cont :=
  {| serialize := object;
     sub := [("INVBANKTRAN", ofx_invstmttrnrs_invstmtrs_invtranlist_invbanktran);
          ("BUYDEBT", ofx_buydebt); ("BUYMF", ofx_buymf);
          ("BUYOPT", ofx_buyopt); ("BUYOTHER", ofx_buyother);
          ("BUYSTOCK", ofx_buystock); ("CLOSUREOPT", ofx_closureopt);
          ("INCOME", ofx_income); ("INVEXPENSE", ofx_invexpense);
          ("JRNLFUND", ofx_jrnlfund); ("JRNLSEC", ofx_jrnlsec);
          ("MARGININTEREST", ofx_margininterest);
          ("REINVEST", ofx_reinvest); ("RETOFCAP", ofx_retofcap);
          ("SELLDEBT", ofx_selldebt); ("SELLMF", ofx_sellmf);
          ("SELLOPT", ofx_sellopt); ("SELLOTHER", ofx_sellother);
          ("SELLSTOCK", ofx_sellstock); ("SPLIT", ofx_split);
          ("TRANSFER", ofx_transfer)];
     tags := [("DTSTART", tag_datetime); ("DTEND", tag_datetime)] |}.

Definition ofx_invpos : ofx_cont :=
  {| serialize := object;
     sub := [("SECID", ofx_secid); ("CURRENCY", ofx_currency)];
     tags := [("HELDINACCT", tag_string); ("POSTYPE", tag_string);
           ("UNITS", tag_number); ("UNITPRICE", tag_number);
           ("MKTVAL", tag_number); ("AVGCOSTBASIS", tag_number);
           ("DTPRICEASOF", tag_datetime); ("MEMO", tag_string);
           ("INV401KSOURCE", tag_string)] |}.

Definition ofx_posdebt : ofx_cont :=
  {| serialize := object;
     sub := [("INVPOS", ofx_invpos)];
     tags := [] |}.

Definition ofx_posmf : ofx_cont :=
  {| serialize := object;
     sub := [("INVPOS", ofx_invpos)];
     tags := [("UNITSSTREET", tag_number); ("UNITSUSER", tag_number);
           ("REINVDIV", tag_boolean); ("REINVCG", tag_boolean)] |}.

Definition ofx_posopt : ofx_cont :=
  {| serialize := object;
     sub := [("INVPOS", ofx_invpos)];
     tags := [("SECURED", tag_string)] |}.

Definition ofx_posother : ofx_cont :=
  {| serialize := object;
     sub := [("INVPOS", ofx_invpos)];
     tags := [] |}.

Definition ofx_posstock : ofx_cont :=
  {| serialize := object;
     sub := [("INVPOS", ofx_invpos)];
     tags := [("UNITSSTREET", tag_number); ("UNITSUSER", tag_number);
           ("REINVDIV", tag_boolean)] |}.

Definition ofx_invstmttrnrs_invstmtrs_invposlist : ofx_cont :=
  {| serialize := object;
     sub := [("POSMF", ofx_posmf); ("POSSTOCK", ofx_posstock);
          ("POSDEBT", ofx_posdebt); ("POSOPT", ofx_posopt);
          ("POSOTHER", ofx_posother)];
     tags := [] |}.

Definition ofx_invstmttrnrs_invstmtrs_invbal : ofx_cont :=
  {| serialize := object;
     sub := [];
     tags := [("AVAILCASH", tag_number); ("MARGINBALANCE", tag_number);
           ("SHORTBALANCE", tag_number)] |}.

Definition ofx_invstmttrnrs_invstmtrs : ofx_cont :=
  {| serialize := object;
     sub := [("INVACCTFROM", ofx_invacctfrom);
          ("INVTRANLIST", ofx_invstmttrnrs_invstmtrs_invtranlist);
          ("INVPOSLIST", ofx_invstmttrnrs_invstmtrs_invposlist);
          ("INVBAL", ofx_invstmttrnrs_invstmtrs_invbal)];
     tags := [("DTASOF", tag_datetime); ("CURDEF", tag_string);
           ("MKTGINFO", tag_string)] |}.

Definition ofx_invstmtmsgsrsv1_invstmttrnrs : ofx_cont :=
  {| serialize := object_with_name_in_array;
     sub := [("STATUS", ofx_status);
          ("INVSTMTRS", ofx_invstmttrnrs_invstmtrs)];
     tags := [("TRNUID", tag_string); ("CLTCOOKIE", tag_string)] |}.

Definition ofx_invstmtmsgsrsv1 : ofx_cont :=
  {| serialize := array;
     sub := [("INVSTMTTRNRS", ofx_invstmtmsgsrsv1_invstmttrnrs)];
     tags := [] |}.

Definition ofx_secinfo : ofx_cont :=
  {| serialize := object;
     sub := [("SECID", ofx_secid); ("CURRENCY", ofx_currency)];
     tags := [("SECNAME", tag_string); ("TICKER", tag_string);
           ("FIID", tag_string); ("RATING", tag_string);
           ("UNITPRICE", tag_number); ("DTASOF", tag_datetime);
           ("MEMO", tag_string)] |}.

Definition ofx_seclistmsgsrsv1_seclist_debtinfo : ofx_cont :=
  {| serialize := object;
     sub := [("SECINFO", ofx_secinfo)];
     tags := [("PARVALUE", tag_number); ("DEBTTYPE", tag_string);
           ("DEBTCLASS", tag_string); ("COUPONRT", tag_number);
           ("DTCOUPON", tag_datetime); ("COUPONFREQ", tag_datetime);
           ("CALLPRICE", tag_number); ("YIELDTOCALL", tag_number);
           ("DTCALL", tag_datetime); ("CALLTYPE", tag_string);
           ("YIELDTOMAT", tag_string); ("DTMAT", tag_datetime);
           ("ASSETCLASS", tag_string); ("FIASSETCLASS", tag_string)] |}.

Definition ofx_mfassetclass_portion : ofx_cont :=
  {| serialize := object;
     sub := [];
     tags := [("ASSETCLASS", tag_string); ("PERCENT", tag_number)] |}.

Definition ofx_mfassetclass : ofx_cont :=
  {| serialize := object;
     sub := [("PORTION", ofx_mfassetclass_portion)];
     tags := [] |}.

Definition ofx_fimfassetclass_portion : ofx_cont :=
  {| serialize := object;
     sub := [];
     tags := [("FIASSETCLASS", tag_string); ("PERCENT", tag_number)] |}.

Definition ofx_fimfassetclass : ofx_cont :=
  {| serialize := object;
     sub := [("FIPORTION", ofx_fimfassetclass_portion)];
     tags := [] |}.

Definition ofx_seclistmsgsrsv1_seclist_mfinfo : ofx_cont :=
  {| serialize := object;
     sub := [("SECINFO", ofx_secinfo); ("MFASSETCLASS", ofx_mfassetclass);
          ("FIMFASSETCLASS", ofx_fimfassetclass)];
     tags := [("MFTYPE", tag_string); ("YIELD", tag_number);
           ("DTYIELDASOF", tag_datetime)] |}.

Definition ofx_seclistmsgsrsv1_seclist : ofx_cont :=
  {| serialize := object_with_name_in_array;
     sub := [("DEBTINFO", ofx_seclistmsgsrsv1_seclist_debtinfo);
          ("MFINFO", ofx_seclistmsgsrsv1_seclist_mfinfo)];
     tags := [] |}.

Definition ofx_seclistmsgsrsv1 : ofx_cont :=
  {| serialize := array;
     sub := [("SECLIST", ofx_seclistmsgsrsv1_seclist)];
     tags := [] |}.

Definition ofx_main : ofx_cont :=
  {| serialize := nothing;
     sub := [("SIGNONMSGSRSV1", ofx_signonmsgsrsv1);
          ("SIGNUPMSGSRSV1", ofx_signupmsgsrsv1);
          ("INVSTMTMSGSRSV1", ofx_invstmtmsgsrsv1);
          ("SECLISTMSGSRSV1", ofx_seclistmsgsrsv1)];
     tags := [] |}.

(** The program: [main] with the table [ofx_main] at the root. *)
Definition ofx2json (input : string) : exec outcome := main ofx_main input.

(** The schema of the close-resolution example: a root whose child [A] has a
    child [B] with the string leaf [X]. *)
Definition example_B : ofx_cont :=
  {| serialize := object; sub := []; tags := [("X", tag_string)] |}.

Definition example_A : ofx_cont :=
  {| serialize := object; sub := [("B", example_B)]; tags := [] |}.

Definition example_root : ofx_cont :=
  {| serialize := nothing; sub := [("A", example_A)]; tags := [] |}.

(** * The vocabulary of the properties *)

(** ** Texts *)

Fixpoint all_space (s : string) : bool :=
  match s with
  | EmptyString => true
  | String c r => isspace c && all_space r
  end.

(** The number of white-space characters [s] starts with. *)
Fixpoint lead_ws (s : string) : nat :=
  match s with
  | String c r => if isspace c then S (lead_ws r) else 0
  | EmptyString => 0
  end.

(** The first character of [s] that is not white space, with what follows. *)
Fixpoint first_nonspace (s : string) : option (ascii * string) :=
  match s with
  | EmptyString => None
  | String c r => if isspace c then first_nonspace r else Some (c, r)
  end.

Definition is_yes (c : ascii) : bool := chr_eqb c "Y" || chr_eqb c "y".

Definition is_no (c : ascii) : bool := chr_eqb c "N" || chr_eqb c "n".

Fixpoint all_digits (s : string) : bool :=
  match s with
  | EmptyString => true
  | String c r => isdigit c && all_digits r
  end.

Definition starts_with_digit (s : string) : bool :=
  match s with
  | EmptyString => false
  | String c _ => isdigit c
  end.

(** The number a run of digits denotes, read after the digits of [acc]. *)
Fixpoint dec_value (ds : string) (acc : Z) : Z :=
  match ds with
  | EmptyString => acc
  | String c r => dec_value r (acc * 10 + digit_val c)
  end.

(** ** Outcomes *)

(** The bound on the passes of a loop was not used up. *)
Definition finishes {A : Type} (r : exec A) : Prop :=
  match r with
  | OutOfFuel => False
  | _ => True
  end.

Definition returns {A : Type} (r : exec A) : Prop := exists a, r = Ret a.

(** ** Contexts *)

(** A container with other pending tags. *)
Definition set_tags (this : ofx_container) (l : list (string * string))
    : ofx_container :=
  mk_ofx_container (name_ this) (cont_ this) (val_ this) l.

(** The context [main] starts [process_ofx] with. *)
Definition fresh_ctx : process_ctx := mk_process_ctx [JObject []] [] 0 [].

(** The context at the entry of the loop of [process_ofx]: the root container
    alone on the stack. *)
Definition loop_start (root_cont : ofx_cont) (pctx : process_ctx) : process_ctx :=
  let '(root, pctx) := new_ofx_container "OFX" root_cont pctx in
  push_container pctx root.

(** What [process_ofx] does after a scan that succeeded. *)
Definition after_scan (pctx : process_ctx) : exec (bool * process_ctx) :=
  match ostack_ pctx with
  | [] => Ret (true, log pctx ProcessingSucceeded)
  | [os_top] =>
      if snd (fst (handle_close os_top (name_ os_top)))
      then Ret (true, log (pop_container pctx) ProcessingSucceeded)
      else Ret (false, pop_container pctx)
  | _ :: _ :: _ => Ret (false, log pctx StackNotEmpty)
  end.

Definition stack_names (pctx : process_ctx) : list string :=
  map name_ (ostack_ pctx).

(** What the loop of [process_ofx] gives in a run of [main] on [input], a
    text that starts with [<OFX>]: the result of [iterate_elements], the
    names on the stack and the diagnostics. *)
Definition scan (root_cont : ofx_cont) (input : string)
    : exec (bool * list string * list diag) :=
  match iterate_elements (S (size input)) input 5 handle_element
          (loop_start root_cont fresh_ctx) with
  | Ret (b, _, pctx) => Ret (b, stack_names pctx, cerr_ pctx)
  | Aborted => Aborted
  | OutOfFuel => OutOfFuel
  end.

(** The contexts the handler is called with in a run of [main]: the context
    at the entry of the loop, and what the handler returns from one of them. *)
Inductive reachable (root_cont : ofx_cont) : process_ctx -> Prop :=
| reach_start : reachable root_cont (loop_start root_cont fresh_ctx)
| reach_step (pctx : process_ctx) (e : string) (a : attrs) (t : string)
    (b : bool) (pctx' : process_ctx) :
    reachable root_cont pctx ->
    handle_element pctx e a t = Ret (b, pctx') ->
    reachable root_cont pctx'.

(** The bottom of the stack, when there is one, is the root container. *)
Fixpoint bottom_is_root (root_cont : ofx_cont) (s : list ofx_container) : Prop :=
  match s with
  | [] => True
  | f :: s' =>
      match s' with
      | [] => name_ f = "OFX" /\ cont_ f = root_cont
      | _ :: _ => bottom_is_root root_cont s'
      end
  end.

(** ** Schemas whose containers fit their values *)

Definition is_object (v : json) : bool :=
  match v with JObject _ => true | _ => false end.

Definition is_array (v : json) : bool :=
  match v with JArray _ => true | _ => false end.

Definition same_kind (v v' : json) : Prop :=
  is_object v = is_object v' /\ is_array v = is_array v'.

(** Whether a container serialized as [ser] has an array for its value. *)
Definition holds_array (ser : serialize_as) : bool :=
  match ser with array => true | _ => false end.

(** Whether a container serialized as [cser] can be folded into the value of
    one serialized as [pser]. *)
Definition child_ok (pser cser : serialize_as) : bool :=
  match cser with
  | nothing => false
  | object | array => negb (holds_array pser)
  | object_in_array | object_with_name_in_array => holds_array pser
  end.

Definition no_tags (tags : list (string * tag_fmt)) : bool :=
  match tags with [] => true | _ :: _ => false end.

(** A schema in which an array container has no leaves and holds only
    containers that go into an array, and every other container holds only
    containers that go into an object. *)
Fixpoint wf_cont (c : ofx_cont) : bool :=
  match c with
  | mk_ofx_cont ser sub tags =>
      (negb (holds_array ser) || no_tags tags)
      && forallb (fun p => match p with
                           | (_, c') => child_ok ser (serialize c') && wf_cont c'
                           end) sub
  end.

(** The value of a container is of the kind its schema gives it. *)
Definition kind_ok (h : heap) (f : ofx_container) : Prop :=
  if holds_array (serialize (cont_ f))
  then is_array (load h (val_ f)) = true
  else is_object (load h (val_ f)) = true.

(** The stack, from the front: each container has a value of its kind at an
    address above those of the containers below it, a schema of the form
    above, and can be folded into the container right below it. *)
Fixpoint stack_ok (h : heap) (s : list ofx_container) : Prop :=
  match s with
  | [] => True
  | f :: s' =>
      val_ f < List.length h /\ kind_ok h f /\ wf_cont (cont_ f) = true /\
      (forall g, In g s' -> val_ g < val_ f) /\
      match s' with
      | [] => True
      | p :: _ => child_ok (serialize (cont_ p)) (serialize (cont_ f)) = true
      end /\
      stack_ok h s'
  end.

Definition ctx_ok (pctx : process_ctx) : Prop :=
  stack_ok (heap_ pctx) (ostack_ pctx).

(** ** Inputs and contexts of the examples *)

Definition twenty_nines : string := "99999999999999999999".

Definition est_stamp : string := "20210115120000[-5:EST]".

(** A document whose sign-on block is complete and which then breaks off in
    a tag with no name. *)
Definition broken_after_signon : string :=
  "<OFX><SIGNONMSGSRSV1><SONRS><LANGUAGE>ENG</SONRS></SIGNONMSGSRSV1><>".

(** A document with a close tag that nothing answers to. *)
Definition mismatched_close : string :=
  "<OFX><SIGNONMSGSRSV1><SONRS><LANGUAGE>ENG</BAD></OFX>".

(** A text with a NUL character in it that is no timestamp, and a document
    that holds it in a datetime leaf. *)
Definition nul_stamp : string := "2021" ++ String Ascii.zero "junk".

Definition nul_stamp_document : string :=
  "<OFX><SIGNONMSGSRSV1><SONRS><DTSERVER>" ++ nul_stamp
  ++ "</SONRS></SIGNONMSGSRSV1></OFX>".

(** A container for the schema [example_B] with two pending tags. *)
Definition example_frame_B : ofx_container :=
  mk_ofx_container "B" example_B 2 [("X", "hi"); ("Y", "ho")].

(** The context of a run on the program's schema after the events
    <SIGNONMSGSRSV1>, <SONRS> and <LANGUAGE>ENG. *)
Definition sonrs_frame : ofx_container :=
  mk_ofx_container "SONRS" ofx_signon_sonrs 2 [("LANGUAGE", "ENG")].

Definition sonrs_below : list ofx_container :=
  [mk_ofx_container "SIGNONMSGSRSV1" ofx_signonmsgsrsv1 1 [];
   mk_ofx_container "OFX" ofx_main 0 []].

Definition sonrs_ctx : process_ctx :=
  mk_process_ctx
    [JObject []; JObject []; JObject [("language", JString "ENG")]] [] 0
    (sonrs_frame :: sonrs_below).

(** ** Further vocabulary *)

Definition is_upper (c : ascii) : bool :=
  let n := nat_of_ascii c in (65 <=? n) && (n <=? 90).

(** Every character of [s] passes the test [p]. *)
Fixpoint all_chars (p : ascii -> bool) (s : string) : bool :=
  match s with
  | EmptyString => true
  | String c r => p c && all_chars p r
  end.

Definition starts_with_space (s : string) : bool :=
  match s with
  | EmptyString => false
  | String c _ => isspace c
  end.

Fixpoint ends_with_space (s : string) : bool :=
  match s with
  | EmptyString => false
  | String c EmptyString => isspace c
  | String _ r => ends_with_space r
  end.

Definition is_angle (c : ascii) : bool := chr_eqb c "<" || chr_eqb c ">".

Definition keys {V : Type} (m : list (string * V)) : list string := map fst m.

Definition not_name_end (c : ascii) : bool := negb (is_name_end c).

Definition not_angle (c : ascii) : bool := negb (is_angle c).

Definition starts_with (p : ascii -> bool) (s : string) : bool :=
  match s with
  | EmptyString => false
  | String c _ => p c
  end.

(** The standard escaping of the five characters that [xml_entities] names. *)
Definition xml_escape_char (c : ascii) : string :=
  if chr_eqb c dquote then "&quot;"
  else if chr_eqb c "&" then "&amp;"
  else if chr_eqb c "'" then "&apos;"
  else if chr_eqb c "<" then "&lt;"
  else if chr_eqb c ">" then "&gt;"
  else String c EmptyString.

Fixpoint xml_escape (s : string) : string :=
  match s with
  | EmptyString => EmptyString
  | String c r => xml_escape_char c ++ xml_escape r
  end.

Definition not_amp (c : ascii) : bool := negb (chr_eqb c "&").

Definition in_range (lo hi z : Z) : bool := ((lo <=? z) && (z <=? hi))%Z.

(** The number a text of digits denotes. *)
Definition number_of (ds : string) : Z := dec_value ds 0.

(** Digits with at most one decimal point among them; [isf] tells that a
    point came before. *)
Fixpoint number_body (s : string) (isf : bool) : bool :=
  match s with
  | EmptyString => true
  | String c r =>
      if chr_eqb c "." then negb isf && number_body r true
      else isdigit c && number_body r isf
  end.

Definition is_sign (c : ascii) : bool := chr_eqb c "-" || chr_eqb c "+".

Definition no_upper (s : string) : bool :=
  all_chars (fun c => negb (is_upper c)) s.

(** No member name in [v], at any depth, has an upper-case letter. *)
Fixpoint keys_lower (v : json) : bool :=
  match v with
  | JArray items => forallb keys_lower items
  | JObject members =>
      forallb (fun m => match m with
                        | (k, x) => no_upper k && keys_lower x
                        end) members
  | _ => true
  end.

Definition heap_lower (h : heap) : Prop :=
  forall a, keys_lower (load h a) = true.

(** The document is the first value of the memory and holds an object. *)
Definition doc_ok (pctx : process_ctx) : Prop :=
  doc_ pctx = 0 /\ is_object (load (heap_ pctx) 0) = true.

(** Results of the readers with their cursor moved forward by [k]. *)
Definition shift_read (k : nat) (r : bool * nat * string) : bool * nat * string :=
  let '(ok, pos, txt) := r in (ok, k + pos, txt).

Definition shift_attrs (k : nat) (r : exec (option (nat * attrs)))
    : exec (option (nat * attrs)) :=
  match r with
  | Ret (Some (pos, a)) => Ret (Some (k + pos, a))
  | _ => r
  end.

Definition shift_token (k : nat) (r : exec token) : exec token :=
  match r with
  | Ret (TokBreak pos) => Ret (TokBreak (k + pos))
  | Ret (TokError pos) => Ret (TokError (k + pos))
  | Ret (TokElement pos el) => Ret (TokElement (k + pos) el)
  | _ => r
  end.

Definition shift_scan {St : Type} (k : nat) (r : exec (bool * nat * St))
    : exec (bool * nat * St) :=
  match r with
  | Ret (b, pos, st) => Ret (b, k + pos, st)
  | _ => r
  end.

Definition not_dquote (c : ascii) : bool := negb (chr_eqb c dquote).

(** The value a leaf of format [fmt] gets from its text; [None] where the
    decoder of the format refuses the text. *)
Definition leaf_value (fmt : tag_fmt) (text : string) : option json :=
  match fmt with
  | tag_string => Some (JString text)
  | tag_number =>
      match parse_number text with Some v => Some (JNumber v) | None => None end
  | tag_boolean =>
      match parse_bool text with Some v => Some (JBool v) | None => None end
  | tag_datetime =>
      match parse_datetime text with
      | Some d => Some (JString (format_datetime d))
      | None => Some (JString text)
      end
  end.

(** [s] without the white space it starts and ends with: what [read_text]
    makes of the text of an element. *)
Definition trim (s : string) : string := rtrim (drop (lead_ws s) s).

(** The document with the one leaf LANGUAGE, whose text is [value], in the
    sign-on response; the leaf is not closed, as in the SGML form of OFX. *)
Definition signon_document (value : string) : string :=
  "<OFX><SIGNONMSGSRSV1><SONRS><LANGUAGE>" ++ value
  ++ "</SONRS></SIGNONMSGSRSV1></OFX>".

(** The document [main] writes for it when the leaf has the text [text]. *)
Definition signon_json (text : string) : json :=
  JObject [("signonmsgsrsv1",
            JObject [("sonrs", JObject [("language", JString text)])])].

(** Whether [%0<w>d] writes [z] as the [w] digits that denote it. *)
Definition fmt_ok (w : nat) (z : Z) : bool :=
  let s := fmt_int false w z in
  (size s =? w) && all_digits s && (number_of s =? z)%Z.

Definition not_bracket (c : ascii) : bool := negb (chr_eqb c "]").

(** The offset, in minutes, that a sign and a number of hours denote. *)
Definition zone_minutes (sign : string) (hours : Z) : Z :=
  if String.eqb sign "-" then (- (hours * 60))%Z else (hours * 60)%Z.

(** The characters a C string can hold: [c_str()] ends at the first NUL. *)
Definition not_nul (c : ascii) : bool := negb (chr_eqb c Ascii.zero).

(** The passes of the loop of [iterate_elements]: from the cursor [pos] and
    the handler's state [st] the loop comes, after some passes that went on,
    to the cursor [pos'] and the state [st'].  A pass goes on when an element
    other than /OFX was read and the handler returned [true] on it, and on
    its close event when the tag closes itself. *)
Inductive loop_reaches {St : Type} (h : handler St) (str : string)
    : nat -> St -> nat -> St -> Prop :=
| reaches_here (pos : nat) (st : St) : loop_reaches h str pos st pos st
| reaches_pass (pos : nat) (st : St) (pos1 : nat) (el : element)
    (text : string) (st1 st2 : St) (pos' : nat) (st' : St) :
    pos < size str ->
    read_element str pos = Ret (TokElement pos1 el) ->
    String.eqb (el_name el) "/OFX" = false ->
    try_xml_decode (el_text el) = Ret text ->
    h st (el_name el) (el_attrs el) text = Ret (true, st1) ->
    (simple_tag el = true /\
     h st1 ("/" ++ el_name el) (el_attrs el) EmptyString = Ret (true, st2)) \/
    (simple_tag el = false /\ st2 = st1) ->
    loop_reaches h str pos1 st2 pos' st' ->
    loop_reaches h str pos st pos' st'.

(** * Properties *)

(** ** Strings and cursors *)

Arguments drop : simpl nomatch.
Arguments parse_digits : simpl never.
Arguments skip_ws : simpl never.

Lemma drop_nil (n : nat) : drop n EmptyString = EmptyString.
Proof. destruct n; reflexivity. Qed.

Lemma size_drop (n : nat) (s : string) : size (drop n s) = size s - n.
Proof.
  revert s; induction n as [|n IH]; intros [|c r]; simpl; auto.
Qed.

Lemma drop_drop (n m : nat) (s : string) : drop m (drop n s) = drop (n + m) s.
Proof.
  revert s; induction n as [|n IH]; intros s; simpl; auto.
  destruct s as [|c r]; [apply drop_nil | apply IH].
Qed.

Lemma drop_S (pos : nat) (s : string) (c : ascii) (r : string) :
  drop pos s = String c r -> drop (S pos) s = r.
Proof.
  intros H. replace (S pos) with (pos + 1) by lia.
  rewrite <- drop_drop, H. reflexivity.
Qed.

Lemma drop_empty_iff (pos : nat) (s : string) :
  drop pos s = EmptyString <-> size s <= pos.
Proof.
  split; intros H.
  - pose proof (size_drop pos s) as E. rewrite H in E. simpl in E. lia.
  - pose proof (size_drop pos s) as E.
    destruct (drop pos s); [reflexivity | simpl in E; lia].
Qed.

Lemma size_app (a b : string) : size (a ++ b) = size a + size b.
Proof. induction a as [|c a IH]; simpl; [reflexivity | f_equal; exact IH]. Qed.

Lemma drop_app_size (a b : string) (n : nat) :
  drop (size a + n) (a ++ b) = drop n b.
Proof. induction a as [|c a IH]; simpl; auto. Qed.

Lemma drop_app_exact (a b : string) : drop (size a) (a ++ b) = b.
Proof.
  replace (size a) with (size a + 0) by lia. apply drop_app_size.
Qed.

Lemma char_at_drop (pos : nat) (s : string) (c : ascii) (r : string) :
  drop pos s = String c r -> char_at s pos = c.
Proof. unfold char_at. intros ->. reflexivity. Qed.

Lemma size_leb_drop (pos : nat) (s : string) :
  (size s <=? pos) = match drop pos s with EmptyString => true | _ => false end.
Proof.
  destruct (drop pos s) eqn:E.
  - apply Nat.leb_le, drop_empty_iff, E.
  - apply Nat.leb_gt. apply Nat.nle_gt. intros H.
    apply drop_empty_iff in H. congruence.
Qed.

Lemma chr_eqb_eq (a b : ascii) : chr_eqb a b = true <-> a = b.
Proof. apply Ascii.eqb_eq. Qed.

(** ** White space *)

Lemma skip_ws_from_lead (s : string) (p : nat) :
  skip_ws_from s p = p + lead_ws s.
Proof.
  revert p; induction s as [|c r IH]; intros p; simpl; [lia|].
  destruct (isspace c); [rewrite IH|]; lia.
Qed.

Lemma skip_ws_lead (str : string) (pos : nat) :
  skip_ws str pos = pos + lead_ws (drop pos str).
Proof. apply skip_ws_from_lead. Qed.

Lemma skip_ws_ge (str : string) (pos : nat) : pos <= skip_ws str pos.
Proof. rewrite skip_ws_lead. lia. Qed.

Lemma first_nonspace_drop (s : string) :
  first_nonspace s =
  match drop (lead_ws s) s with
  | EmptyString => None
  | String c r => Some (c, r)
  end.
Proof.
  induction s as [|c r IH]; simpl; [reflexivity|].
  destruct (isspace c) eqn:E; simpl; [exact IH | reflexivity].
Qed.

Lemma all_space_drop (s : string) :
  all_space s = match drop (lead_ws s) s with EmptyString => true | _ => false end.
Proof.
  induction s as [|c r IH]; simpl; [reflexivity|].
  destruct (isspace c); simpl; [exact IH | reflexivity].
Qed.

Lemma lead_ws_app (ws rest : string) :
  all_space ws = true -> lead_ws (ws ++ rest) = size ws + lead_ws rest.
Proof.
  induction ws as [|c r IH]; simpl; [reflexivity|].
  intros H. apply andb_true_iff in H as [Hc Hr]. rewrite Hc, IH; auto.
Qed.

Lemma lead_ws_all_space (ws : string) :
  all_space ws = true -> lead_ws ws = size ws.
Proof.
  induction ws as [|c r IH]; simpl; [reflexivity|].
  intros H. apply andb_true_iff in H as [Hc Hr]. rewrite Hc, IH; auto.
Qed.

(** ** parse_bool *)

(** [parse_bool] read off the first character that is not white space. *)
Lemma parse_bool_first_nonspace (text : string) :
  parse_bool text =
  match first_nonspace text with
  | None => None
  | Some (c, rest) =>
      if is_yes c then (if all_space rest then Some true else None)
      else if is_no c then (if all_space rest then Some false else None)
      else None
  end.
Proof.
  unfold parse_bool. rewrite skip_ws_lead. simpl drop. simpl Nat.add.
  rewrite first_nonspace_drop, size_leb_drop.
  destruct (drop (lead_ws text) text) as [|c r] eqn:E; [reflexivity|].
  rewrite (char_at_drop _ _ _ _ E). fold (is_yes c). fold (is_no c).
  assert (T : (size text <=? skip_ws text (S (lead_ws text))) = all_space r).
  { rewrite skip_ws_lead, (drop_S _ _ _ _ E), size_leb_drop.
    rewrite <- drop_drop, (drop_S _ _ _ _ E). symmetry. apply all_space_drop. }
  destruct (is_yes c); [rewrite T; reflexivity|].
  destruct (is_no c); [rewrite T; reflexivity | reflexivity].
Qed.

Lemma is_yes_no_disjoint (c : ascii) : is_yes c = true -> is_no c = false.
Proof.
  unfold is_yes, is_no. intros H. apply orb_true_iff in H.
  destruct H as [H|H]; apply chr_eqb_eq in H; subst; reflexivity.
Qed.

(** C8: [parse_bool] gives true exactly when the first character that is not
    white space is Y or y and only white space follows it, false exactly when
    it is N or n and only white space follows, and fails in every other case;
    so "y" is true, "N  " is false and "yes" fails. *)
Theorem parse_bool_spec :
  (forall text : string,
     (parse_bool text = Some true <->
      exists c rest, first_nonspace text = Some (c, rest) /\
        (c = "Y"%char \/ c = "y"%char) /\ all_space rest = true) /\
     (parse_bool text = Some false <->
      exists c rest, first_nonspace text = Some (c, rest) /\
        (c = "N"%char \/ c = "n"%char) /\ all_space rest = true) /\
     (parse_bool text = None <->
      ~ exists c rest, first_nonspace text = Some (c, rest) /\
        (c = "Y"%char \/ c = "y"%char \/ c = "N"%char \/ c = "n"%char) /\
        all_space rest = true)) /\
  parse_bool "y" = Some true /\
  parse_bool "N  " = Some false /\
  parse_bool "yes" = None.
Proof.
  split; [|repeat split; reflexivity].
  intros text. rewrite parse_bool_first_nonspace.
  assert (Y : forall c, is_yes c = true <-> c = "Y"%char \/ c = "y"%char).
  { intros c. unfold is_yes. rewrite orb_true_iff, !chr_eqb_eq. tauto. }
  assert (N : forall c, is_no c = true <-> c = "N"%char \/ c = "n"%char).
  { intros c. unfold is_no. rewrite orb_true_iff, !chr_eqb_eq. tauto. }
  destruct (first_nonspace text) as [[c rest]|].
  2:{ repeat split; try discriminate.
      - intros (c & r & H & _); discriminate.
      - intros (c & r & H & _); discriminate.
      - intros _ (c & r & H & _); discriminate. }
  destruct (is_yes c) eqn:Ey.
  - pose proof (is_yes_no_disjoint c Ey) as En.
    destruct (all_space rest) eqn:Er; repeat split; try discriminate.
    + intros _. exists c, rest. repeat split; auto. apply Y, Ey.
    + intros (c' & r' & H & Hc & _). inversion H; subst c'.
      apply N in Hc. congruence.
    + intros H. exfalso. apply H. exists c, rest. apply Y in Ey. intuition.
    + intros (c' & r' & H & _ & Hr). inversion H; subst. congruence.
    + intros (c' & r' & H & _ & Hr). inversion H; subst. congruence.
    + intros _ (c' & r' & H & _ & Hr). inversion H; subst. congruence.
  - destruct (is_no c) eqn:En.
    + destruct (all_space rest) eqn:Er; repeat split; try discriminate.
      * intros (c' & r' & H & Hc & _). inversion H; subst c'.
        apply Y in Hc. congruence.
      * intros _. exists c, rest. repeat split; auto. apply N, En.
      * intros H. exfalso. apply H. exists c, rest. apply N in En. intuition.
      * intros (c' & r' & H & _ & Hr). inversion H; subst. congruence.
      * intros (c' & r' & H & _ & Hr). inversion H; subst. congruence.
      * intros _ (c' & r' & H & _ & Hr). inversion H; subst. congruence.
    + repeat split; try discriminate.
      * intros (c' & r' & H & Hc & _). inversion H; subst c'.
        apply Y in Hc. congruence.
      * intros (c' & r' & H & Hc & _). inversion H; subst c'.
        apply N in Hc. congruence.
      * intros _ (c' & r' & H & Hc & _). inversion H; subst c'.
        destruct Hc as [Hc|[Hc|Hc]].
        -- assert (is_yes c = true) by (apply Y; auto). congruence.
        -- assert (is_yes c = true) by (apply Y; auto). congruence.
        -- assert (is_no c = true) by (apply N; auto). congruence.
Qed.

(** ** parse_number *)

Lemma isspace_not_number_char (c : ascii) :
  isspace c = true -> chr_eqb c "." = false /\ is_09 c = false.
Proof.
  intros H. split.
  - destruct (chr_eqb c ".") eqn:E; [|reflexivity].
    apply chr_eqb_eq in E. subst c. discriminate H.
  - unfold isspace in H. unfold is_09.
    destruct (Nat.leb_spec 48 (nat_of_ascii c));
      destruct (Nat.leb_spec (nat_of_ascii c) 57); simpl; try reflexivity.
    apply orb_true_iff in H. destruct H as [H|H].
    + apply andb_true_iff in H as [_ H]. apply Nat.leb_le in H. lia.
    + apply Nat.eqb_eq in H. lia.
Qed.

(** The digit loop stops at once on white space and at the end of the text. *)
Lemma parse_number_loop_space (ws : string) (pos : nat) (r f : float)
    (isf : bool) :
  all_space ws = true -> parse_number_loop ws pos r f isf = Some (pos, r, f).
Proof.
  destruct ws as [|c ws]; simpl; [reflexivity|].
  intros H. apply andb_true_iff in H as [Hc _].
  destruct (isspace_not_number_char c Hc) as [-> ->]. reflexivity.
Qed.

(** The text after the optional sign: a lone decimal point and white space. *)
Lemma parse_number_point_tail (text ws2 : string) (pos : nat) (f : float) :
  drop pos text = String "." ws2 -> all_space ws2 = true ->
  match parse_number_loop (String "." ws2) pos 0%float f false with
  | None => None
  | Some (pos, r, f) =>
      if skip_ws text pos <? size text then None else Some (PrimFloat.mul r f)
  end = Some (PrimFloat.mul 0%float f).
Proof.
  intros E Hw. simpl.
  rewrite parse_number_loop_space by exact Hw.
  rewrite skip_ws_lead. rewrite (drop_S _ _ _ _ E).
  rewrite lead_ws_all_space by exact Hw.
  assert (L : size text = S pos + size ws2).
  { pose proof (size_drop pos text) as D. rewrite E in D. simpl in D.
    destruct (Nat.le_gt_cases (size text) pos); lia. }
  rewrite L, Nat.ltb_irrefl. reflexivity.
Qed.

(** C10: a text that holds no digit but a decimal point, with an optional
    sign before it and white space around, is accepted by [parse_number];
    the value is zero (negative zero after a minus sign). *)
Theorem parse_number_lone_point (ws1 sign ws2 : string) :
  all_space ws1 = true -> all_space ws2 = true ->
  sign = "" \/ sign = "+" \/ sign = "-" ->
  exists v : float,
    parse_number (ws1 ++ sign ++ "." ++ ws2) = Some v /\
    PrimFloat.eqb v 0%float = true /\
    v = if String.eqb sign "-" then (-0)%float else 0%float.
Proof.
  intros H1 H2 Hs.
  set (text := ws1 ++ sign ++ "." ++ ws2).
  assert (D : drop (size ws1) text = sign ++ "." ++ ws2)
    by apply drop_app_exact.
  assert (P : skip_ws text 0 = size ws1).
  { rewrite skip_ws_lead. simpl drop. unfold text.
    rewrite lead_ws_app by exact H1.
    destruct Hs as [->|[->| ->]]; simpl; lia. }
  unfold parse_number. rewrite P, size_leb_drop, D.
  destruct Hs as [->|[->| ->]]; simpl in D; simpl String.append.
  - rewrite (char_at_drop _ _ _ _ D).
    cbv [chr_eqb Ascii.eqb Bool.eqb orb andb negb].
    rewrite D.
    rewrite (parse_number_point_tail text ws2 (size ws1) 1%float D H2).
    eexists; repeat split; reflexivity.
  - rewrite (char_at_drop _ _ _ _ D).
    cbv [chr_eqb Ascii.eqb Bool.eqb orb andb negb].
    rewrite skip_ws_lead, D. simpl lead_ws. rewrite Nat.add_0_r.
    pose proof (drop_S _ _ _ _ D) as D'.
    rewrite size_leb_drop, D'.
    rewrite (parse_number_point_tail text ws2 (S (size ws1)) 1%float D' H2).
    eexists; repeat split; reflexivity.
  - rewrite (char_at_drop _ _ _ _ D).
    cbv [chr_eqb Ascii.eqb Bool.eqb orb andb negb].
    rewrite skip_ws_lead, D. simpl lead_ws. rewrite Nat.add_0_r.
    pose proof (drop_S _ _ _ _ D) as D'.
    rewrite size_leb_drop, D'.
    rewrite (parse_number_point_tail text ws2 (S (size ws1)) (-1)%float D' H2).
    eexists; repeat split; reflexivity.
Qed.

Lemma parse_number_lone_point_witness :
  exists v : float,
    parse_number (" " ++ "-" ++ "." ++ "  ") = Some v /\
    PrimFloat.eqb v 0%float = true /\
    v = if String.eqb "-" "-" then (-0)%float else 0%float.
Proof.
  apply (parse_number_lone_point " " "-" "  ");
    [reflexivity | reflexivity | right; right; reflexivity].
Defined.

(** C2, as the spec has it, fails: the text of twenty nines is accepted. *)
Lemma parse_number_twenty_nines_accepted : parse_number twenty_nines <> None.
Proof. vm_compute. discriminate. Qed.

(** C2, amended: [parse_number] accepts the text of twenty nines.  Its
    accumulator is a double, which the multiply-add step never decreases on
    this input, so the guard does not fire and the value returned is the
    double 100000000000000016384 (1e20 up to the rounding of the steps). *)
Theorem parse_number_twenty_nines :
  parse_number twenty_nines = Some 100000000000000016384%float /\
  parse_number_loop twenty_nines 0 0%float 1%float false
  = Some (20, 100000000000000016384%float, 1%float).
Proof. split; vm_compute; reflexivity. Qed.

(** Nor does the guard fire when the double overflows: four hundred nines
    give infinity. *)
Lemma parse_number_overflow_to_infinity :
  parse_number (String.concat "" (repeat "9" 400)) = Some infinity.
Proof. vm_compute. reflexivity. Qed.

(** The other two examples of the number decoder. *)
Lemma parse_number_examples :
  parse_number "  -12.50 " = Some (-12.5)%float /\ parse_number "12.5.3" = None.
Proof. split; vm_compute; reflexivity. Qed.

(** ** parse_digits and parse_datetime *)

Lemma wrap_int_range (z : Z) :
  (-2147483648 <= wrap_int z < 2147483648)%Z.
Proof.
  unfold wrap_int.
  pose proof (Z.mod_pos_bound (z + 2147483648) 4294967296 eq_refl). lia.
Qed.

Lemma wrap_int_small (z : Z) :
  (-2147483648 <= z < 2147483648)%Z -> wrap_int z = z.
Proof. intros H. unfold wrap_int. rewrite Z.mod_small; lia. Qed.

Lemma isdigit_digit_val (c : ascii) :
  isdigit c = true -> (0 <= digit_val c <= 9)%Z.
Proof.
  unfold isdigit, digit_val. intros H.
  apply andb_true_iff in H as [H1 H2].
  apply Nat.leb_le in H1, H2. lia.
Qed.

(** The guard of [parse_digits] keeps the value of an [int] from going down:
    a successful scan ends at or above the value it started from. *)
Lemma parse_digits_loop_ge (bounded : bool) (win : string) :
  forall (i : nat) (val : Z) (n : nat) (v : Z),
    parse_digits_loop wrap_int bounded win i val = (n, v) ->
    n <> 0 -> (val <= v)%Z.
Proof.
  induction win as [|ch win IH]; simpl; intros i val n v H Hn.
  - inversion H; lia.
  - destruct (isdigit ch).
    + destruct (Z.ltb_spec (wrap_int (wrap_int (val * 10) + digit_val ch)) val).
      * inversion H; congruence.
      * apply IH in H; [lia | exact Hn].
    + destruct (bounded || (i =? 0)); inversion H; subst; [congruence | lia].
Qed.

Lemma parse_digits_nonneg (text : string) (pos : nat) (len : option nat)
    (n : nat) (v : Z) :
  parse_digits wrap_int text pos len = (n, v) -> n <> 0 -> (0 <= v)%Z.
Proof.
  unfold parse_digits. intros H Hn. destruct len as [l|].
  - destruct (size text <? pos + l); [inversion H; congruence|].
    apply parse_digits_loop_ge in H; auto.
  - apply parse_digits_loop_ge in H; auto.
Qed.

(** Case analysis on the tests and pairs a decoder result went through. *)
Ltac break_in H :=
  repeat match type of H with
    | context [if ?b then _ else _] => destruct b eqn:?
    | context [match ?x with _ => _ end] => destruct x eqn:?
    end; try discriminate H.

(** A bracketed timezone that is accepted is a whole number of hours, at most
    twelve either way. *)
Lemma parse_tzoff_bound (text : string) (i : nat) (tz : Z) :
  parse_tzoff text i = Some tz ->
  (-720 <= tz <= 720)%Z /\ (tz mod 60 = 0)%Z.
Proof.
  unfold parse_tzoff. intros H.
  destruct (negb (chr_eqb (char_at text i) "[")); [discriminate|].
  destruct (size text <=? skip_ws text (S i)); [discriminate|].
  match type of H with
  | context [parse_digits wrap_int text ?j None] =>
      destruct (parse_digits wrap_int text j None) as [digs v] eqn:E
  end.
  destruct (_ && (size text <=? _)); [discriminate|].
  destruct (digs =? 0) eqn:Ed; [discriminate|]. simpl in H.
  destruct (Z.ltb_spec 12 v); [discriminate|].
  apply Nat.eqb_neq in Ed. pose proof (parse_digits_nonneg _ _ _ _ _ E Ed).
  assert (W : wrap_int (v * 60) = (v * 60)%Z) by (apply wrap_int_small; lia).
  rewrite W in H.
  assert (W' : wrap_int (- (v * 60)) = (- (v * 60))%Z)
    by (apply wrap_int_small; lia).
  rewrite W' in H.
  assert (R : forall b : bool,
             let t := if b then (- (v * 60))%Z else (v * 60)%Z in
             (-720 <= t <= 720)%Z /\ (t mod 60 = 0)%Z).
  { intros [|]; simpl; split; try lia.
    - rewrite <- Z.mul_opp_l. apply Z.mod_mul. lia.
    - apply Z.mod_mul. lia. }
  break_in H; inversion H; subst tz;
    first [exact (R true) | exact (R false)].
Qed.

Lemma parse_datetime_tz_bound (text : string) (d : datetime) :
  parse_datetime text = Some d ->
  (-720 <= dt_tzoff_min d <= 720)%Z /\ (dt_tzoff_min d mod 60 = 0)%Z.
Proof.
  unfold parse_datetime. intros H.
  assert (Z0 : (-720 <= 0 <= 720)%Z /\ (0 mod 60 = 0)%Z) by (split; [lia | reflexivity]).
  repeat match type of H with
    | context [parse_tzoff ?t ?i] =>
        destruct (parse_tzoff t i) eqn:?
    | context [if ?b then _ else _] => destruct b eqn:?
    | context [match ?x with _ => _ end] => destruct x eqn:?
    end; try discriminate H; inversion H; subst d; simpl; try exact Z0;
    eapply parse_tzoff_bound; eassumption.
Qed.

Lemma dec_value_ge (ds : string) :
  forall acc : Z, all_digits ds = true -> (0 <= acc)%Z ->
    (acc <= dec_value ds acc)%Z.
Proof.
  induction ds as [|c r IH]; simpl; intros acc H Ha; [lia|].
  apply andb_true_iff in H as [Hc Hr].
  pose proof (isdigit_digit_val c Hc).
  specialize (IH (acc * 10 + digit_val c)%Z Hr). lia.
Qed.

(** A run of digits that denotes more than twelve never leaves [parse_digits]
    with a value of twelve or less, not even when the [int] wraps around:
    the scan fails, or its value is above twelve. *)
Lemma parse_digits_loop_above_12 (ds rest : string) :
  forall (i : nat) (val : Z),
    all_digits ds = true -> starts_with_digit rest = false ->
    (0 <= val < 2147483648)%Z -> (12 < dec_value ds val)%Z ->
    fst (parse_digits_loop wrap_int false (ds ++ rest) i val) = 0 \/
    (12 < snd (parse_digits_loop wrap_int false (ds ++ rest) i val))%Z.
Proof.
  induction ds as [|c r IH]; intros i val Hd Hr Hv Hbig.
  - simpl in *. destruct rest as [|c r]; simpl; [right; exact Hbig|].
    simpl in Hr. rewrite Hr. destruct (i =? 0); simpl; auto.
  - simpl in Hd. apply andb_true_iff in Hd as [Hc Hd].
    pose proof (isdigit_digit_val c Hc) as Hdv.
    simpl. rewrite Hc.
    set (val' := wrap_int (wrap_int (val * 10) + digit_val c)).
    destruct (Z.ltb_spec val' val) as [Hlt|Hge]; [left; reflexivity|].
    pose proof (wrap_int_range (wrap_int (val * 10) + digit_val c)) as Hrng.
    fold val' in Hrng.
    apply IH; auto; [lia|].
    destruct (Z.lt_ge_cases (val * 10 + digit_val c) 2147483648) as [Hs|Hl].
    + assert (E : val' = (val * 10 + digit_val c)%Z).
      { unfold val'. rewrite (wrap_int_small (val * 10)) by lia.
        apply wrap_int_small. lia. }
      rewrite E. exact Hbig.
    + pose proof (dec_value_ge r val' Hd). lia.
Qed.

Lemma isdigit_not_sign (c : ascii) :
  isdigit c = true -> chr_eqb c "-" = false /\ chr_eqb c "+" = false
                      /\ isspace c = false.
Proof.
  intros H. repeat split.
  - destruct (chr_eqb c "-") eqn:E; [|reflexivity].
    apply chr_eqb_eq in E. subst c. discriminate H.
  - destruct (chr_eqb c "+") eqn:E; [|reflexivity].
    apply chr_eqb_eq in E. subst c. discriminate H.
  - unfold isdigit in H. apply andb_true_iff in H as [H1 H2].
    apply Nat.leb_le in H1, H2. unfold isspace.
    destruct (Nat.leb_spec (nat_of_ascii c) 13); [lia|].
    rewrite andb_false_r. simpl. apply Nat.eqb_neq. lia.
Qed.

(** The bracketed timezone with an hour above twelve, seen from its opening
    bracket at [i]. *)
Lemma parse_tzoff_above_12 (text ws1 sgn ds rest : string) (i : nat) :
  drop i text = "[" ++ ws1 ++ sgn ++ ds ++ rest ->
  all_space ws1 = true ->
  sgn = "" \/ sgn = "+" \/ sgn = "-" ->
  all_digits ds = true -> starts_with_digit rest = false ->
  (12 < dec_value ds 0)%Z ->
  parse_tzoff text i = None.
Proof.
  intros D Hw Hs Hd Hr Hbig.
  assert (Hne : exists c ds', ds = String c ds' /\ isdigit c = true).
  { destruct ds as [|c ds']; [simpl in Hbig; lia|].
    simpl in Hd. apply andb_true_iff in Hd as [Hc _]. eauto. }
  destruct Hne as (c & ds' & Eds & Hc).
  destruct (isdigit_not_sign c Hc) as (Cm & Cp & Csp).
  simpl in D. pose proof (drop_S _ _ _ _ D) as D1.
  assert (Lw : lead_ws (ws1 ++ sgn ++ ds ++ rest) = size ws1).
  { rewrite lead_ws_app by exact Hw. subst ds.
    destruct Hs as [->|[->| ->]]; simpl; rewrite ?Csp; lia. }
  assert (D2 : drop (S i + size ws1) text = sgn ++ ds ++ rest).
  { rewrite <- drop_drop, D1. apply drop_app_exact. }
  assert (Big : forall j, drop j text = ds ++ rest ->
            let '(digs, v) := parse_digits wrap_int text j None in
            (digs =? 0) || (12 <? v)%Z = true).
  { intros j Dj. unfold parse_digits. rewrite Dj.
    pose proof (parse_digits_loop_above_12 ds rest 0 0%Z Hd Hr
                  ltac:(lia) Hbig) as B.
    destruct (parse_digits_loop wrap_int false (ds ++ rest) 0 0) as [digs v].
    simpl in B. destruct B as [->|B]; [reflexivity|].
    apply orb_true_iff. right. apply Z.ltb_lt, B. }
  unfold parse_tzoff.
  rewrite (char_at_drop _ _ _ _ D). simpl negb. cbv iota.
  rewrite skip_ws_lead, D1, Lw, size_leb_drop, D2.
  set (j := S i + size ws1) in *. clearbody j.
  destruct Hs as [->|[->| ->]].
  - pose proof D2 as D2c. simpl in D2c. rewrite Eds in D2c. simpl in D2c.
    simpl String.append. rewrite Eds. simpl String.append. cbv iota.
    rewrite (char_at_drop _ _ _ _ D2c), Cm, Cp. simpl.
    specialize (Big j D2).
    destruct (parse_digits wrap_int text j None).
    rewrite Big. reflexivity.
  - simpl in D2. simpl String.append. cbv iota.
    rewrite (char_at_drop _ _ _ _ D2). simpl.
    pose proof (drop_S _ _ _ _ D2) as D3.
    rewrite size_leb_drop, D3, Eds. simpl String.append. cbv iota.
    specialize (Big _ D3).
    destruct (parse_digits wrap_int text (S j) None).
    rewrite Big. reflexivity.
  - simpl in D2. simpl String.append. cbv iota.
    rewrite (char_at_drop _ _ _ _ D2). simpl.
    pose proof (drop_S _ _ _ _ D2) as D3.
    rewrite size_leb_drop, D3, Eds. simpl String.append. cbv iota.
    specialize (Big _ D3).
    destruct (parse_digits wrap_int text (S j) None).
    rewrite Big. reflexivity.
Qed.

(** A timestamp whose bracketed timezone has an hour above twelve is refused,
    whatever the fourteen characters before the bracket are. *)
Lemma parse_datetime_hour_above_12 (pre ws0 ws1 sgn ds rest : string) :
  size pre = 14 ->
  all_space ws0 = true -> all_space ws1 = true ->
  sgn = "" \/ sgn = "+" \/ sgn = "-" ->
  all_digits ds = true -> starts_with_digit rest = false ->
  (12 < dec_value ds 0)%Z ->
  parse_datetime (pre ++ ws0 ++ "[" ++ ws1 ++ sgn ++ ds ++ rest) = None.
Proof.
  intros Hpre Hw0 Hw1 Hs Hd Hr Hbig.
  set (tail := "[" ++ ws1 ++ sgn ++ ds ++ rest).
  set (text := pre ++ ws0 ++ tail).
  assert (D14 : drop 14 text = ws0 ++ tail)
    by (rewrite <- Hpre; apply drop_app_exact).
  assert (Dt : drop (14 + size ws0) text = tail)
    by (rewrite <- drop_drop, D14; apply drop_app_exact).
  assert (L : 14 + size ws0 < size text).
  { unfold text. rewrite !size_app, Hpre. unfold tail. simpl. lia. }
  assert (F1 : chr_eqb (char_at text 14) "." = false).
  { unfold char_at. rewrite D14. destruct ws0 as [|c w]; [reflexivity|].
    simpl in Hw0. apply andb_true_iff in Hw0 as [Hc _].
    apply (isspace_not_number_char c Hc). }
  assert (F2 : skip_ws text 14 = 14 + size ws0).
  { rewrite skip_ws_lead, D14, lead_ws_app by exact Hw0.
    unfold tail. simpl. lia. }
  assert (F3 : (14 + size ws0 <? size text) = true) by (apply Nat.ltb_lt, L).
  assert (F4 : parse_tzoff text (14 + size ws0) = None)
    by (apply (parse_tzoff_above_12 text ws1 sgn ds rest); auto).
  assert (F5 : (14 <? size text) = true) by (apply Nat.ltb_lt; lia).
  assert (F6 : (8 <? size text) = true) by (apply Nat.ltb_lt; lia).
  unfold parse_datetime. cbv zeta.
  rewrite F1. cbv beta iota. rewrite F2, F3, F4, F5, F6.
  repeat match goal with
    | |- None = None => reflexivity
    | |- match ?x with _ => _ end = None => destruct x
    end.
Qed.

(** The same with a fraction of seconds before the bracket. *)
Lemma parse_datetime_frac_hour_above_12 (pre msec ws0 ws1 sgn ds rest : string) :
  size pre = 14 -> size msec = 3 ->
  all_space ws0 = true -> all_space ws1 = true ->
  sgn = "" \/ sgn = "+" \/ sgn = "-" ->
  all_digits ds = true -> starts_with_digit rest = false ->
  (12 < dec_value ds 0)%Z ->
  parse_datetime (pre ++ "." ++ msec ++ ws0 ++ "[" ++ ws1 ++ sgn ++ ds ++ rest)
  = None.
Proof.
  intros Hpre Hms Hw0 Hw1 Hs Hd Hr Hbig.
  set (tail := "[" ++ ws1 ++ sgn ++ ds ++ rest).
  set (text := pre ++ "." ++ msec ++ ws0 ++ tail).
  assert (D14 : drop 14 text = "." ++ msec ++ ws0 ++ tail)
    by (rewrite <- Hpre; apply drop_app_exact).
  assert (D18 : drop 18 text = ws0 ++ tail).
  { change 18 with (14 + (1 + 3)). rewrite <- drop_drop, D14. simpl.
    rewrite <- Hms. apply drop_app_exact. }
  assert (Dt : drop (18 + size ws0) text = tail)
    by (rewrite <- drop_drop, D18; apply drop_app_exact).
  assert (L : 18 + size ws0 < size text).
  { unfold text. rewrite !size_app, Hpre, Hms. unfold tail. simpl. lia. }
  assert (F1 : chr_eqb (char_at text 14) "." = true)
    by (unfold char_at; rewrite D14; reflexivity).
  assert (F2 : skip_ws text 18 = 18 + size ws0).
  { rewrite skip_ws_lead, D18, lead_ws_app by exact Hw0.
    unfold tail. simpl. lia. }
  assert (F3 : (18 + size ws0 <? size text) = true) by (apply Nat.ltb_lt, L).
  assert (F4 : parse_tzoff text (18 + size ws0) = None)
    by (apply (parse_tzoff_above_12 text ws1 sgn ds rest); auto).
  assert (F5 : (14 <? size text) = true) by (apply Nat.ltb_lt; lia).
  assert (F6 : (8 <? size text) = true) by (apply Nat.ltb_lt; lia).
  unfold parse_datetime. cbv zeta.
  rewrite F1. cbv beta iota. rewrite F5, F6.
  destruct (parse_digits wrap_uint text 15 (Some 3)) as [n msecs].
  destruct (n =? 0); cbv beta iota; change (15 + 3) with 18;
    rewrite ?F2, ?F3, ?F4;
    repeat match goal with
      | |- None = None => reflexivity
      | |- match ?x with _ => _ end = None => destruct x
      end.
Qed.

(** C7, as the spec has it, fails: the zone of minus five hours is not
    written with minutes. *)
Lemma datetime_est_not_rendered_with_minutes :
  option_map format_datetime (parse_datetime est_stamp)
  <> Some "2021-01-15T12:00:00-05:00".
Proof. vm_compute. discriminate. Qed.

(** C7, amended: "20210115120000[-5:EST]" decodes to 2021-01-15 12:00:00 with
    an offset of -300 minutes and [add_datetime] stores it as
    "2021-01-15T12:00:00-05" (a zone of whole hours is written without
    minutes); "20210115" decodes to midnight with offset 0 and is stored with
    a trailing Z; and a bracketed timezone whose hour is above twelve, with
    either sign, after the seconds or after a fraction of seconds, makes the
    decoding fail, so that an offset that is decoded is a whole number of
    hours between -12 and 12. *)
Theorem datetime_examples_and_zone_bound :
  parse_datetime est_stamp
  = Some (mk_datetime (mk_tm (2021 - 1900) (1 - 1) 15 12 0 0) None (-300)) /\
  add_datetime [JObject []] 0 "DTSERVER" est_stamp
  = Ret [JObject [("dtserver", JString "2021-01-15T12:00:00-05")]] /\
  parse_datetime "20210115"
  = Some (mk_datetime (mk_tm (2021 - 1900) (1 - 1) 15 0 0 0) None 0) /\
  add_datetime [JObject []] 0 "DTSERVER" "20210115"
  = Ret [JObject [("dtserver", JString "2021-01-15T00:00:00Z")]] /\
  (forall pre ws0 ws1 sgn ds rest : string,
     size pre = 14 ->
     all_space ws0 = true -> all_space ws1 = true ->
     sgn = "" \/ sgn = "+" \/ sgn = "-" ->
     all_digits ds = true -> starts_with_digit rest = false ->
     (12 < dec_value ds 0)%Z ->
     parse_datetime (pre ++ ws0 ++ "[" ++ ws1 ++ sgn ++ ds ++ rest) = None) /\
  (forall pre msec ws0 ws1 sgn ds rest : string,
     size pre = 14 -> size msec = 3 ->
     all_space ws0 = true -> all_space ws1 = true ->
     sgn = "" \/ sgn = "+" \/ sgn = "-" ->
     all_digits ds = true -> starts_with_digit rest = false ->
     (12 < dec_value ds 0)%Z ->
     parse_datetime
       (pre ++ "." ++ msec ++ ws0 ++ "[" ++ ws1 ++ sgn ++ ds ++ rest) = None) /\
  (forall (text : string) (d : datetime),
     parse_datetime text = Some d ->
     (-720 <= dt_tzoff_min d <= 720)%Z /\ (dt_tzoff_min d mod 60 = 0)%Z).
Proof.
  split; [vm_compute; reflexivity|].
  split; [vm_compute; reflexivity|].
  split; [vm_compute; reflexivity|].
  split; [vm_compute; reflexivity|].
  split; [exact parse_datetime_hour_above_12|].
  split; [exact parse_datetime_frac_hour_above_12|].
  exact parse_datetime_tz_bound.
Qed.

Lemma datetime_examples_and_zone_bound_witness :
  parse_datetime ("20210115120000" ++ "" ++ "[" ++ "" ++ "-" ++ "13" ++ ":EST]")
  = None /\
  parse_datetime
    ("20210115120000" ++ "." ++ "500" ++ " " ++ "[" ++ " " ++ "+" ++ "14" ++ "]")
  = None /\
  ((-720 <= dt_tzoff_min (mk_datetime (mk_tm 121 0 15 0 0 0) None 0) <= 720)%Z /\
   (dt_tzoff_min (mk_datetime (mk_tm 121 0 15 0 0 0) None 0) mod 60 = 0)%Z).
Proof.
  destruct datetime_examples_and_zone_bound as (_ & _ & _ & _ & Hz & Hf & Hb).
  split; [|split].
  - apply Hz; try reflexivity.
    right; right; reflexivity.
  - apply Hf; try reflexivity.
    right; left; reflexivity.
  - apply (Hb "20210115"). reflexivity.
Defined.

(** ** The container stack *)

Lemma scan_back_absent (close_tag : string) (rtags : list (string * string)) :
  (forall t, In t rtags -> fst t <> close_tag) ->
  scan_back close_tag rtags = (false, []).
Proof.
  induction rtags as [|t r IH]; simpl; intros H; [reflexivity|].
  destruct (String.eqb_spec (fst t) close_tag) as [E|_].
  - exfalso. apply (H t); auto.
  - apply IH. intros u Hu. apply H. auto.
Qed.

Lemma scan_back_found (close_tag x : string) (l2r l1r : list (string * string)) :
  (forall t, In t l2r -> fst t <> close_tag) ->
  scan_back close_tag (l2r ++ (close_tag, x) :: l1r) = (true, l1r).
Proof.
  induction l2r as [|t r IH]; simpl; intros H.
  - rewrite String.eqb_refl. reflexivity.
  - destruct (String.eqb_spec (fst t) close_tag) as [E|_].
    + exfalso. apply (H t); auto.
    + apply IH. intros u Hu. apply H. auto.
Qed.

(** The pending tags [handle_close] leaves are the first ones of those it
    found: it only pops. *)
Lemma scan_back_suffix (close_tag : string) (rtags : list (string * string)) :
  exists popped, rtags = (popped ++ snd (scan_back close_tag rtags))%list.
Proof.
  induction rtags as [|t r IH]; simpl.
  - exists []. reflexivity.
  - destruct (String.eqb (fst t) close_tag); simpl.
    + exists [t]. reflexivity.
    + destruct IH as [p Hp]. exists (t :: p). simpl. f_equal. exact Hp.
Qed.

Lemma handle_close_pops (this : ofx_container) (close_tag : string) :
  exists popped,
    tags_ this = (tags_ (snd (handle_close this close_tag)) ++ popped)%list.
Proof.
  unfold handle_close.
  destruct (scan_back_suffix close_tag (rev (tags_ this))) as [p Hp].
  destruct (scan_back close_tag (rev (tags_ this))) as [found rtags].
  simpl in Hp. exists (rev p).
  assert (E : tags_ this = (rev rtags ++ rev p)%list).
  { rewrite <- rev_app_distr, <- Hp, rev_involutive. reflexivity. }
  destruct rtags; [destruct (String.eqb close_tag (name_ this))|]; exact E.
Qed.

Lemma handle_close_found (this : ofx_container) (close_tag x : string)
    (l1 l2 : list (string * string)) :
  tags_ this = (l1 ++ (close_tag, x) :: l2)%list ->
  (forall t, In t l2 -> fst t <> close_tag) ->
  handle_close this close_tag
  = (true,
     match l1 with [] => String.eqb close_tag (name_ this) | _ => false end,
     set_tags this l1).
Proof.
  intros E H. unfold handle_close. rewrite E, rev_app_distr. simpl.
  rewrite <- app_assoc. simpl.
  rewrite scan_back_found
    by (intros t Ht; apply H; apply in_rev; exact Ht).
  rewrite rev_involutive. unfold set_tags.
  destruct l1 as [|a l1]; simpl.
  - destruct (String.eqb close_tag (name_ this)); reflexivity.
  - destruct (rev l1 ++ [a])%list eqn:R; [|reflexivity].
    apply app_eq_nil in R as [_ R]. discriminate.
Qed.

Lemma handle_close_absent (this : ofx_container) (close_tag : string) :
  (forall t, In t (tags_ this) -> fst t <> close_tag) ->
  handle_close this close_tag
  = (String.eqb close_tag (name_ this), String.eqb close_tag (name_ this),
     set_tags this []).
Proof.
  intros H. unfold handle_close.
  rewrite scan_back_absent
    by (intros t Ht; apply H; apply in_rev; exact Ht).
  simpl. unfold set_tags.
  destruct (String.eqb close_tag (name_ this)); reflexivity.
Qed.

Lemma char_at_slash (s : string) : chr_eqb (char_at ("/" ++ s) 0) "/" = true.
Proof. reflexivity. Qed.

(** A close event that neither a pending tag nor the open container answers
    to makes the handler fail, with the container still on the stack. *)
Lemma handle_element_mismatch (pctx : process_ctx) (X : ofx_container)
    (below : list ofx_container) (C : string) (a : attrs) (text : string) :
  ostack_ pctx = X :: below ->
  (forall t, In t (tags_ X) -> fst t <> C) ->
  C <> name_ X ->
  handle_element pctx ("/" ++ C) a text
  = Ret (false, log (with_ostack pctx (set_tags X [] :: below))
                  (MismatchFor ("/" ++ C) (name_ X))).
Proof.
  intros Hs Ht Hn. unfold handle_element.
  rewrite char_at_slash. simpl negb. cbv iota. rewrite Hs.
  change (substr1 ("/" ++ C)) with C.
  rewrite (handle_close_absent X C Ht).
  apply String.eqb_neq in Hn. rewrite Hn. reflexivity.
Qed.

(** C3: [handle_close] scans the pending tags of the open container from the
    last one backward and removes what it passes; when none of them is the
    closed tag and the closed tag is not the container's own name, the close
    is a mismatch: the handler fails and the container stays open.  With the
    schema root, A, B and the leaf X, the input <A><B><X>hi</X></A> ends the
    scan in a mismatch of /A against B, with B still on the stack. *)
Theorem close_resolution :
  (forall (this : ofx_container) (C x : string) (l1 l2 : list (string * string)),
     tags_ this = (l1 ++ (C, x) :: l2)%list ->
     (forall t, In t l2 -> fst t <> C) ->
     handle_close this C
     = (true, match l1 with [] => String.eqb C (name_ this) | _ => false end,
        set_tags this l1)) /\
  (forall (this : ofx_container) (C : string),
     (forall t, In t (tags_ this) -> fst t <> C) ->
     C <> name_ this ->
     handle_close this C = (false, false, set_tags this [])) /\
  (forall (pctx : process_ctx) (X : ofx_container) (below : list ofx_container)
          (C : string) (a : attrs) (text : string),
     ostack_ pctx = X :: below ->
     (forall t, In t (tags_ X) -> fst t <> C) ->
     C <> name_ X ->
     handle_element pctx ("/" ++ C) a text
     = Ret (false, log (with_ostack pctx (set_tags X [] :: below))
                     (MismatchFor ("/" ++ C) (name_ X)))) /\
  scan example_root "<OFX><A><B><X>hi</X></A>"
  = Ret (false, ["B"; "A"; "OFX"], [MismatchFor "/A" "B"]).
Proof.
  split; [exact handle_close_found|].
  split.
  { intros this C H Hn. rewrite (handle_close_absent this C H).
    apply String.eqb_neq in Hn. rewrite Hn. reflexivity. }
  split; [exact handle_element_mismatch|].
  vm_compute. reflexivity.
Qed.

Lemma close_resolution_witness :
  handle_close example_frame_B "X"
  = (true, false, set_tags example_frame_B []) /\
  handle_close example_frame_B "A" = (false, false, set_tags example_frame_B []) /\
  handle_element (mk_process_ctx [JObject []; JObject []; JObject []] [] 0
                    [example_frame_B]) ("/" ++ "A") [] ""
  = Ret (false,
         log (with_ostack
                (mk_process_ctx [JObject []; JObject []; JObject []] [] 0
                   [example_frame_B])
                (set_tags example_frame_B [] :: []))
           (MismatchFor ("/" ++ "A") (name_ example_frame_B))).
Proof.
  destruct close_resolution as (Hf & Ha & He & _).
  split; [|split].
  - apply (Hf example_frame_B "X" "hi" [] [("Y", "ho")]); [reflexivity|].
    intros t [<-|[]]. discriminate.
  - apply Ha; [|discriminate].
    intros t [<-|[<-|[]]]; discriminate.
  - apply He; [reflexivity | | discriminate].
    intros t [<-|[<-|[]]]; discriminate.
Defined.

(** ** handle_tag *)

(** Whenever [handle_tag] returns for a tag that is not a child container of
    the front container, the tag and its text are appended to that
    container's pending tags and the result is [true]; otherwise the process
    has ended in [abort()] or in a failed assertion of rapidjson. *)
Lemma handle_tag_pending (pctx : process_ctx) (this : ofx_container)
    (below : list ofx_container) (element : string) (a : attrs) (text : string) :
  ostack_ pctx = this :: below ->
  map_find element (sub (cont_ this)) = None ->
  match handle_tag pctx element a text with
  | Ret (b, pctx') =>
      b = true /\
      ostack_ pctx'
      = set_tags this (tags_ this ++ [(element, text)])%list :: below
  | Aborted =>
      exists fmt, map_find element (tags (cont_ this)) = Some fmt /\
        ((fmt = tag_number /\ parse_number text = None) \/
         (fmt = tag_boolean /\ parse_bool text = None) \/
         (forall ms, load (heap_ pctx) (val_ this) <> JObject ms))
  | OutOfFuel => False
  end.
Proof.
  intros Hs Hsub. unfold handle_tag. rewrite Hs, Hsub.
  destruct (map_find element (tags (cont_ this))) as [fmt|] eqn:Et.
  2:{ simpl. split; reflexivity. }
  assert (Obj : forall v,
            match AddMember (heap_ pctx) (val_ this) (str_lower element) v with
            | Ret _ => True
            | Aborted => forall ms, load (heap_ pctx) (val_ this) <> JObject ms
            | OutOfFuel => False
            end).
  { intros v. unfold AddMember.
    destruct (load (heap_ pctx) (val_ this)); simpl; auto; discriminate. }
  destruct fmt.
  - unfold add_string. specialize (Obj (JString (c_str text))).
    destruct (AddMember _ _ _ _); simpl; eauto 6.
  - unfold add_number. destruct (parse_number text) as [v|].
    + specialize (Obj (JNumber v)).
      destruct (AddMember _ _ _ _); simpl; eauto 6.
    + eauto 6.
  - unfold add_bool. destruct (parse_bool text) as [v|].
    + specialize (Obj (JBool v)).
      destruct (AddMember _ _ _ _); simpl; eauto 6.
    + eauto 7.
  - unfold add_datetime, add_string. destruct (parse_datetime text) as [d|].
    + specialize (Obj (JString (c_str (format_datetime d)))).
      destruct (AddMember _ _ _ _); simpl; eauto 6.
    + specialize (Obj (JString (c_str text))).
      destruct (AddMember _ _ _ _); simpl; eauto 6.
Qed.

(** What a C string keeps of a text: all of it when it holds no NUL, and
    otherwise what stands before the first one. *)
Lemma c_str_id (s : string) : all_chars not_nul s = true -> c_str s = s.
Proof.
  induction s as [|c r IH]; simpl; [reflexivity|].
  intros H. apply andb_true_iff in H as [Hc Hr].
  unfold not_nul in Hc. apply negb_true_iff in Hc. rewrite Hc, (IH Hr).
  reflexivity.
Qed.

Lemma c_str_prefix (s : string) :
  all_chars not_nul (c_str s) = true /\
  (c_str s = s \/ exists rest, s = c_str s ++ String Ascii.zero rest).
Proof.
  induction s as [|c r (IH1 & IH2)]; simpl; [split; [reflexivity | auto]|].
  destruct (chr_eqb c Ascii.zero) eqn:E.
  - split; [reflexivity|]. right. exists r.
    apply chr_eqb_eq in E. subst c. reflexivity.
  - simpl. unfold not_nul at 1. rewrite E. split; [exact IH1|].
    destruct IH2 as [IH2|(rest & IH2)].
    + left. rewrite IH2. reflexivity.
    + right. exists rest. simpl. f_equal. exact IH2.
Qed.

(** A datetime leaf whose text does not decode is added, as the C string of
    the text, to the object of the front container. *)
Lemma handle_tag_datetime_failure (pctx : process_ctx) (this : ofx_container)
    (below : list ofx_container) (element : string) (a : attrs) (text : string)
    (ms : list (string * json)) :
  ostack_ pctx = this :: below ->
  map_find element (sub (cont_ this)) = None ->
  map_find element (tags (cont_ this)) = Some tag_datetime ->
  parse_datetime text = None ->
  load (heap_ pctx) (val_ this) = JObject ms ->
  handle_tag pctx element a text
  = Ret (true,
         mk_process_ctx
           (store (heap_ pctx) (val_ this)
              (JObject (ms ++ [(str_lower element, JString (c_str text))])%list))
           (cerr_ pctx) (doc_ pctx)
           (set_tags this (tags_ this ++ [(element, text)])%list :: below)).
Proof.
  intros Hs Hsub Ht Hp Hl.
  unfold handle_tag. rewrite Hs, Hsub, Ht.
  unfold add_datetime, add_string, AddMember. rewrite Hp, Hl. reflexivity.
Qed.

(** ** The cursor only moves forward *)

Arguments scan_entity : simpl never.
Arguments read_name : simpl never.
Arguments read_attrval : simpl never.
Arguments read_text : simpl never.
Arguments try_xml_decode : simpl never.
Arguments char_at : simpl never.

Lemma size_push_back (s : string) (c : ascii) : size (push_back s c) = S (size s).
Proof. unfold push_back. rewrite size_app. simpl. lia. Qed.

Lemma nonempty_size (s : string) : nonempty s = true -> 0 < size s.
Proof. destruct s; simpl; [discriminate | lia]. Qed.

(** [read_name] appends one character for each step of its cursor. *)
Lemma read_name_from_advance (rest : string) :
  forall (pos : nat) (txt : string) (ok : bool) (pos' : nat) (txt' : string),
    read_name_from rest pos txt = (ok, pos', txt') ->
    pos <= pos' /\ size txt' = size txt + (pos' - pos) /\ ok = nonempty txt'.
Proof.
  induction rest as [|ch rest IH]; simpl; intros pos txt ok pos' txt' H.
  - inversion H; subst. repeat split; lia.
  - destruct (is_name_end ch).
    + inversion H; subst. repeat split; lia.
    + apply IH in H. rewrite size_push_back in H. repeat split; lia || apply H.
Qed.

(** A name read into an empty text moves the cursor when it succeeds. *)
Lemma read_name_advance (str : string) (pos pos' : nat) (txt' : string) :
  read_name str pos EmptyString = (true, pos', txt') -> pos < pos'.
Proof.
  unfold read_name. intros H.
  apply read_name_from_advance in H as (H1 & H2 & H3).
  symmetry in H3. apply nonempty_size in H3. simpl in H2. lia.
Qed.

Lemma read_name_ge (str : string) (pos : nat) (txt : string) (ok : bool)
    (pos' : nat) (txt' : string) :
  read_name str pos txt = (ok, pos', txt') -> pos <= pos'.
Proof.
  unfold read_name. intros H. apply read_name_from_advance in H. apply H.
Qed.

Lemma read_attrval_from_ge (quoted : bool) (rest : string) :
  forall (pos : nat) (txt : string) (ok : bool) (pos' : nat) (txt' : string),
    read_attrval_from quoted rest pos txt = (ok, pos', txt') -> pos <= pos'.
Proof.
  induction rest as [|ch rest IH]; simpl; intros pos txt ok pos' txt' H.
  - inversion H; lia.
  - destruct (negb quoted && is_name_end ch); [inversion H; lia|].
    destruct (quoted && chr_eqb ch dquote); [inversion H; lia|].
    apply IH in H. lia.
Qed.

Lemma read_attrval_ge (str : string) (pos : nat) (txt : string) (quoted ok : bool)
    (pos' : nat) (txt' : string) :
  read_attrval str pos txt quoted = (ok, pos', txt') -> pos <= pos'.
Proof. unfold read_attrval. apply read_attrval_from_ge. Qed.

Lemma read_text_from_ge (rest : string) :
  forall (pos : nat) (txt : string) (ok : bool) (pos' : nat) (txt' : string),
    read_text_from rest pos txt = (ok, pos', txt') -> pos <= pos'.
Proof.
  induction rest as [|ch rest IH]; simpl; intros pos txt ok pos' txt' H.
  - inversion H; lia.
  - destruct (chr_eqb ch "<" || chr_eqb ch ">"); [inversion H; lia|].
    apply IH in H. lia.
Qed.

Lemma read_text_ge (str : string) (pos : nat) (txt : string) (ok : bool)
    (pos' : nat) (txt' : string) :
  read_text str pos txt = (ok, pos', txt') -> pos <= pos'.
Proof.
  unfold read_text. intros H. apply read_text_from_ge in H.
  pose proof (skip_ws_ge str pos). lia.
Qed.

(** ** The loops end within the fuel they are given *)

Lemma try_xml_decode_loop_returns (fuel : nat) :
  forall (txt : string) (pos : nat) (ret : string),
    size txt - pos < fuel -> returns (try_xml_decode_loop fuel txt pos ret).
Proof.
  induction fuel as [|fuel IH]; intros txt pos ret H; [lia|].
  simpl. destruct (Nat.ltb_spec pos (size txt)) as [Hlt|Hge].
  - destruct (if chr_eqb (char_at txt pos) "&"
              then scan_entity 5 (drop (S pos) txt) EmptyString
              else (false, EmptyString)) as [found_end entity].
    destruct (if found_end && nonempty entity then xml_entities entity
              else None); apply IH; lia.
  - eexists; reflexivity.
Qed.

Lemma try_xml_decode_returns (txt : string) : returns (try_xml_decode txt).
Proof. apply try_xml_decode_loop_returns. lia. Qed.

(** Every pass of the attribute loop moves the cursor, so the loop ends
    within [size str - pos + 1] passes, and with the cursor not before where
    it started. *)
Lemma read_attrs_returns (fuel : nat) :
  forall (str : string) (pos : nat) (el_attrs : attrs),
    size str - pos < fuel ->
    exists r, read_attrs fuel str pos el_attrs = Ret r /\
      match r with Some (pos', _) => pos <= pos' | None => True end.
Proof.
  induction fuel as [|fuel IH]; intros str pos el_attrs H; [lia|].
  simpl.
  destruct (chr_eqb (char_at str pos) ">" || chr_eqb (char_at str pos) "/").
  { eexists; split; [reflexivity | simpl; lia]. }
  destruct (read_name str pos EmptyString) as [[ok p1] at_name] eqn:En.
  destruct ok; simpl; [|eexists; split; [reflexivity | exact I]].
  apply read_name_advance in En.
  pose proof (skip_ws_ge str p1) as G1.
  destruct (size str <=? skip_ws str p1);
    [eexists; split; [reflexivity | exact I]|].
  match goal with
  | |- context [match ?v with Some _ => _ | None => Ret None end] =>
      assert (V : match v with Some (p2, _) => pos < p2 | None => True end)
  end.
  { destruct (chr_eqb (char_at str (skip_ws str p1)) "="); [|lia].
    pose proof (skip_ws_ge str (S (skip_ws str p1))) as G2.
    destruct (size str <=? skip_ws str (S (skip_ws str p1))); [exact I|].
    match goal with
    | |- context [read_attrval str ?p ?t ?q] =>
        destruct (read_attrval str p t q) as [[ok p3] at_val] eqn:Ev
    end.
    apply read_attrval_ge in Ev.
    destruct ok; simpl; [|exact I].
    destruct (chr_eqb (char_at str (skip_ws str (S (skip_ws str p1)))) dquote);
      simpl.
    - destruct (negb (chr_eqb (char_at str p3) dquote)); [exact I | lia].
    - lia. }
  match goal with
  | |- context [match ?v with Some _ => _ | None => Ret None end] =>
      destruct v as [[p2 at_val]|]
  end; [|eexists; split; [reflexivity | exact I]].
  pose proof (skip_ws_ge str p2) as G3.
  destruct (try_xml_decode_returns at_val) as [decoded ->].
  destruct (Nat.ltb_spec (skip_ws str p2) (size str)) as [Hlt|Hge].
  - destruct (IH str (skip_ws str p2) (map_insert at_name decoded el_attrs))
      as (r & Er & Hr); [lia|].
    exists r. split; [exact Er|]. destruct r as [[p' ?]|]; [lia | exact I].
  - eexists; split; [reflexivity | simpl; lia].
Qed.

(** One pass of the loop body of [iterate_elements] always comes back, and an
    element it has read ends after the cursor it started from. *)
Lemma read_open_tag_returns (str : string) (pos : nat) (name : string) :
  exists t, read_open_tag str pos name = Ret t /\
    match t with TokElement pos' _ => pos < pos' | _ => True end.
Proof.
  unfold read_open_tag.
  pose proof (skip_ws_ge str pos) as G0.
  assert (A : exists r,
             (if pos <? skip_ws str pos
              then read_attrs (S (size str)) str (skip_ws str pos) []
              else Ret (Some (skip_ws str pos, []))) = Ret r /\
             match r with Some (pos', _) => pos <= pos' | None => True end).
  { destruct (pos <? skip_ws str pos).
    - destruct (read_attrs_returns (S (size str)) str (skip_ws str pos) [])
        as (r & Er & Hr); [lia|].
      exists r. split; [exact Er|]. destruct r as [[p ?]|]; [lia | exact I].
    - eexists; split; [reflexivity | simpl; lia]. }
  destruct A as (r & -> & Hr).
  destruct r as [[p el_attrs]|]; [|eexists; split; [reflexivity | exact I]].
  destruct (size str <=? p); [eexists; split; [reflexivity | exact I]|].
  set (simple := (1 <? size str) && chr_eqb (char_at str p) "/").
  set (p1 := if simple then S p else p).
  assert (G1 : p <= p1) by (unfold p1; destruct simple; lia).
  pose proof (skip_ws_ge str p1) as G2.
  destruct ((size str <=? skip_ws str p1)
            || negb (chr_eqb (char_at str (skip_ws str p1)) ">"));
    [eexists; split; [reflexivity | exact I]|].
  destruct simple.
  - eexists; split; [reflexivity | simpl; lia].
  - destruct (read_text str (S (skip_ws str p1)) EmptyString)
      as [[ok p2] el_text] eqn:Et.
    apply read_text_ge in Et.
    destruct ok; simpl; eexists; split; try reflexivity; simpl; lia.
Qed.

Lemma read_element_returns (str : string) (pos : nat) :
  exists t, read_element str pos = Ret t /\
    match t with TokElement pos' _ => pos < pos' | _ => True end.
Proof.
  unfold read_element.
  pose proof (skip_ws_ge str pos) as G0.
  destruct (size str <=? skip_ws str pos);
    [eexists; split; [reflexivity | exact I]|].
  destruct (negb (chr_eqb (char_at str (skip_ws str pos)) "<"));
    [eexists; split; [reflexivity | exact I]|].
  pose proof (skip_ws_ge str (S (skip_ws str pos))) as G1.
  set (p1 := skip_ws str (S (skip_ws str pos))) in *.
  destruct (size str <=? p1); [eexists; split; [reflexivity | exact I]|].
  set (closing := chr_eqb (char_at str p1) "/").
  set (p2 := if closing then skip_ws str (S p1) else p1).
  assert (G2 : p1 <= p2).
  { unfold p2. destruct closing; [|lia].
    pose proof (skip_ws_ge str (S p1)). lia. }
  destruct (closing && (size str <=? p2));
    [eexists; split; [reflexivity | exact I]|].
  destruct (read_name str p2 (if closing then "/" else EmptyString))
    as [[ok p3] name] eqn:En.
  apply read_name_ge in En.
  destruct ok; simpl; [|eexists; split; [reflexivity | exact I]].
  destruct (negb (chr_eqb (char_at name 0) "/")).
  - destruct (read_open_tag_returns str p3 name) as (t & Et & Ht).
    exists t. split; [exact Et|]. destruct t; auto. lia.
  - pose proof (skip_ws_ge str p3) as G3.
    destruct ((size str <=? skip_ws str p3)
              || negb (chr_eqb (char_at str (skip_ws str p3)) ">"));
      eexists; split; try reflexivity; simpl; lia.
Qed.

Lemma returns_finishes {A : Type} (r : exec A) : returns r -> finishes r.
Proof. intros [a ->]. exact I. Qed.

Ltac break_goal :=
  repeat match goal with
    | |- context [match ?x with _ => _ end] =>
        lazymatch x with
        | context [match _ with _ => _ end] => fail
        | _ => destruct x
        end
    end.

Lemma done_finishes (pctx : process_ctx) : finishes (done pctx).
Proof.
  unfold done, AddMember, PushBack, finishes. break_goal; exact I.
Qed.

Lemma handle_tag_finishes (pctx : process_ctx) (element : string) (a : attrs)
    (text : string) : finishes (handle_tag pctx element a text).
Proof.
  unfold handle_tag, add_datetime, add_string, add_number, add_bool, AddMember,
    finishes.
  break_goal; exact I.
Qed.

Lemma handle_element_finishes (pctx : process_ctx) (element : string)
    (a : attrs) (text : string) : finishes (handle_element pctx element a text).
Proof.
  unfold handle_element.
  destruct (negb (chr_eqb (char_at element 0) "/"));
    [apply handle_tag_finishes|].
  destruct (ostack_ pctx) as [|os_top below]; [exact I|].
  destruct (handle_close os_top (substr1 element)) as [[ok cd] top'].
  destruct ok; simpl; [|exact I].
  destruct cd; [|exact I].
  pose proof (done_finishes (with_ostack pctx (top' :: below))) as F.
  destruct (done (with_ostack pctx (top' :: below))); auto; exact I.
Qed.

Section Loop.

Context {St : Type} (h : handler St).

(** The loop of [iterate_elements] ends within the passes it is given, as
    long as the handler comes back: each pass that goes on has moved the
    cursor. *)
Lemma iterate_elements_finishes :
  (forall st e a t, finishes (h st e a t)) ->
  forall (fuel : nat) (str : string) (pos : nat) (st : St),
    size str - pos < fuel -> finishes (iterate_elements fuel str pos h st).
Proof.
  intros Hh. induction fuel as [|fuel IH]; intros str pos st H; [lia|].
  simpl. destruct (Nat.ltb_spec pos (size str)) as [Hlt|Hge]; [|exact I].
  destruct (read_element_returns str pos) as (t & -> & Ht).
  destruct t as [p|p|p el]; try exact I.
  destruct (String.eqb (el_name el) "/OFX"); [exact I|].
  destruct (try_xml_decode_returns (el_text el)) as [text ->].
  pose proof (Hh st (el_name el) (el_attrs el) text) as F1.
  destruct (h st (el_name el) (el_attrs el) text) as [[b st1]| |];
    try exact I; [|exact F1].
  destruct b; [|exact I].
  destruct (simple_tag el).
  - pose proof (Hh st1 (String "/" (el_name el)) (el_attrs el) EmptyString) as F2.
    destruct (h st1 (String "/" (el_name el)) (el_attrs el) EmptyString)
      as [[b st2]| |]; try exact I; [|exact F2].
    destruct b; [|exact I]. apply IH. lia.
  - apply IH. lia.
Qed.

(** More passes than the loop needs change nothing. *)
Lemma iterate_elements_fuel (fuel : nat) :
  forall (fuel' : nat) (str : string) (pos : nat) (st : St),
    finishes (iterate_elements fuel str pos h st) -> fuel <= fuel' ->
    iterate_elements fuel' str pos h st = iterate_elements fuel str pos h st.
Proof.
  induction fuel as [|fuel IH]; intros fuel' str pos st F Hle;
    [destruct F|].
  destruct fuel' as [|fuel']; [lia|].
  simpl in *. destruct (pos <? size str); [|reflexivity].
  destruct (read_element str pos) as [t| |]; try reflexivity.
  destruct t as [p|p|p el]; try reflexivity.
  destruct (String.eqb (el_name el) "/OFX"); [reflexivity|].
  destruct (try_xml_decode (el_text el)) as [text| |]; try reflexivity.
  destruct (h st (el_name el) (el_attrs el) text) as [[b st1]| |];
    try reflexivity.
  destruct b; [|reflexivity].
  destruct (simple_tag el).
  - destruct (h st1 (String "/" (el_name el)) (el_attrs el) EmptyString)
      as [[b st2]| |]; try reflexivity.
    destruct b; [|reflexivity]. apply IH; [exact F | lia].
  - apply IH; [exact F | lia].
Qed.

(** What the handler keeps, the loop keeps. *)
Lemma iterate_elements_invariant (P : St -> Prop) :
  (forall st e a t b st', P st -> h st e a t = Ret (b, st') -> P st') ->
  forall (fuel : nat) (str : string) (pos : nat) (st : St) (b : bool)
         (pos' : nat) (st' : St),
    P st -> iterate_elements fuel str pos h st = Ret (b, pos', st') -> P st'.
Proof.
  intros Hh. induction fuel as [|fuel IH]; intros str pos st b pos' st' HP H;
    [discriminate|].
  simpl in H. destruct (pos <? size str); [|inversion H; subst; exact HP].
  destruct (read_element str pos) as [t| |]; try discriminate.
  destruct t as [p|p|p el]; try (inversion H; subst; exact HP).
  destruct (String.eqb (el_name el) "/OFX"); [inversion H; subst; exact HP|].
  destruct (try_xml_decode (el_text el)) as [text| |]; try discriminate.
  destruct (h st (el_name el) (el_attrs el) text) as [[b1 st1]| |] eqn:E1;
    try discriminate.
  pose proof (Hh _ _ _ _ _ _ HP E1) as HP1.
  destruct b1; [|inversion H; subst; exact HP1].
  destruct (simple_tag el).
  - destruct (h st1 (String "/" (el_name el)) (el_attrs el) EmptyString)
      as [[b2 st2]| |] eqn:E2; try discriminate.
    pose proof (Hh _ _ _ _ _ _ HP1 E2) as HP2.
    destruct b2; [|inversion H; subst; exact HP2].
    apply (IH _ _ _ _ _ _ HP2 H).
  - apply (IH _ _ _ _ _ _ HP1 H).
Qed.

(** The close tag of the document root ends the scan with success; the
    handler is not called for it. *)
Lemma iterate_elements_root_close (fuel : nat) (str : string) (pos pos' : nat)
    (el : element) (st : St) :
  pos < size str ->
  read_element str pos = Ret (TokElement pos' el) ->
  el_name el = "/OFX" ->
  iterate_elements (S fuel) str pos h st = Ret (true, pos', st).
Proof.
  intros Hlt Hr Hn. simpl.
  apply Nat.ltb_lt in Hlt. rewrite Hlt, Hr, Hn. reflexivity.
Qed.

End Loop.

(** ** The driver *)

Lemma process_ofx_unfold (root_cont : ofx_cont) (pctx : process_ctx)
    (input : string) (pos : nat) :
  process_ofx root_cont pctx input pos =
  match iterate_elements (S (size input)) input pos handle_element
          (loop_start root_cont pctx) with
  | Ret (false, _, pctx') => Ret (true, log pctx' ProcessingFailed)
  | Ret (true, _, pctx') => after_scan pctx'
  | Aborted => Aborted
  | OutOfFuel => OutOfFuel
  end.
Proof.
  unfold process_ofx, loop_start.
  destruct (new_ofx_container "OFX" root_cont pctx) as [root p0].
  destruct (iterate_elements _ _ _ _ _) as [[[b p] pctx']| |]; try reflexivity.
  destruct b; [|reflexivity].
  unfold after_scan. destruct (ostack_ pctx') as [|t [|u s]] eqn:E.
  - simpl. rewrite E. reflexivity.
  - destruct (handle_close t (name_ t)) as [[ok cd] t']. simpl.
    destruct cd; simpl; [rewrite E|]; reflexivity.
  - simpl. rewrite E. reflexivity.
Qed.

Lemma bottom_is_root_top (root_cont : ofx_cont) (f f' : ofx_container)
    (s : list ofx_container) :
  name_ f' = name_ f -> cont_ f' = cont_ f ->
  bottom_is_root root_cont (f :: s) -> bottom_is_root root_cont (f' :: s).
Proof. intros Hn Hc. destruct s; simpl; [rewrite Hn, Hc|]; auto. Qed.

Lemma bottom_is_root_pop (root_cont : ofx_cont) (f : ofx_container)
    (s : list ofx_container) :
  bottom_is_root root_cont (f :: s) -> bottom_is_root root_cont s.
Proof. destruct s; simpl; auto. Qed.

Lemma new_ofx_container_ostack (name : string) (cont : ofx_cont)
    (pctx : process_ctx) :
  ostack_ (snd (new_ofx_container name cont pctx)) = ostack_ pctx /\
  name_ (fst (new_ofx_container name cont pctx)) = name /\
  cont_ (fst (new_ofx_container name cont pctx)) = cont.
Proof.
  unfold new_ofx_container. destruct (serialize cont); simpl; auto.
Qed.

Lemma handle_close_same (this : ofx_container) (close_tag : string) :
  name_ (snd (handle_close this close_tag)) = name_ this /\
  cont_ (snd (handle_close this close_tag)) = cont_ this.
Proof.
  unfold handle_close.
  destruct (scan_back close_tag (rev (tags_ this))) as [found rtags].
  destruct rtags; [destruct (String.eqb close_tag (name_ this))|]; simpl; auto.
Qed.

Lemma done_ostack (pctx pctx' : process_ctx) :
  done pctx = Ret pctx' -> ostack_ pctx' = ostack_ pctx.
Proof.
  unfold done, AddMember, PushBack. intros H.
  destruct (ostack_ pctx) as [|this [|pcontainer s]] eqn:E;
    try discriminate; [inversion H; subst; exact E|].
  break_in H; inversion H; subst; simpl; exact E.
Qed.

Lemma handle_tag_bottom (root_cont : ofx_cont) (pctx : process_ctx)
    (e : string) (a : attrs) (t : string) (b : bool) (pctx' : process_ctx) :
  bottom_is_root root_cont (ostack_ pctx) ->
  handle_tag pctx e a t = Ret (b, pctx') ->
  bottom_is_root root_cont (ostack_ pctx').
Proof.
  intros HB H. unfold handle_tag in H.
  destruct (ostack_ pctx) as [|this below] eqn:Es; [discriminate|].
  destruct (map_find e (sub (cont_ this))) as [c|].
  - destruct (new_ofx_container_ostack e c pctx) as (Ho & _ & _).
    destruct (new_ofx_container e c pctx) as [n p1]. simpl in Ho.
    inversion H; subst. simpl. rewrite Ho, Es. exact HB.
  - match type of H with
    | match ?x with _ => _ end = _ => destruct x as [p1| |]
    end; try discriminate.
    inversion H; subst. simpl.
    apply (bottom_is_root_top root_cont this); auto.
Qed.

Lemma handle_element_bottom (root_cont : ofx_cont) (pctx : process_ctx)
    (e : string) (a : attrs) (t : string) (b : bool) (pctx' : process_ctx) :
  bottom_is_root root_cont (ostack_ pctx) ->
  handle_element pctx e a t = Ret (b, pctx') ->
  bottom_is_root root_cont (ostack_ pctx').
Proof.
  intros HB H. unfold handle_element in H.
  destruct (negb (chr_eqb (char_at e 0) "/"));
    [apply (handle_tag_bottom _ _ _ _ _ _ _ HB H)|].
  destruct (ostack_ pctx) as [|os_top below] eqn:Es.
  { inversion H; subst. simpl. rewrite Es. exact I. }
  destruct (handle_close_same os_top (substr1 e)) as [Hn Hc].
  destruct (handle_close os_top (substr1 e)) as [[ok cd] top']. simpl in Hn, Hc.
  assert (HB' : bottom_is_root root_cont (top' :: below))
    by (apply (bottom_is_root_top root_cont os_top); auto).
  destruct ok; simpl in H; [|inversion H; subst; exact HB'].
  destruct cd; [|inversion H; subst; exact HB'].
  destruct (done (with_ostack pctx (top' :: below))) as [p1| |] eqn:Ed;
    try discriminate.
  apply done_ostack in Ed. inversion H; subst. simpl. rewrite Ed. simpl.
  apply (bottom_is_root_pop root_cont top'), HB'.
Qed.

Lemma loop_start_bottom (root_cont : ofx_cont) (pctx : process_ctx) :
  ostack_ pctx = [] ->
  bottom_is_root root_cont (ostack_ (loop_start root_cont pctx)).
Proof.
  intros E. unfold loop_start.
  destruct (new_ofx_container_ostack "OFX" root_cont pctx) as (Ho & Hn & Hc).
  destruct (new_ofx_container "OFX" root_cont pctx) as [root p0].
  simpl in *. rewrite Ho, E. auto.
Qed.

(** C4: a close event named /OFX ends the whole scan with success, whatever
    the handler's state is, and the handler is not given the event.  After a
    scan that succeeded [process_ofx] closes the one container that is left,
    which is the root, by its own name; containers left above the root make
    it fail with "Stack not empty!".  So a document that ends in </OFX> with
    A and B still open is refused, and what follows </OFX> is never read. *)
Theorem root_close_ends_scan :
  (forall (St : Type) (h : handler St) (fuel : nat) (str : string)
          (pos pos' : nat) (el : element) (st : St),
     pos < size str ->
     read_element str pos = Ret (TokElement pos' el) ->
     el_name el = "/OFX" ->
     iterate_elements (S fuel) str pos h st = Ret (true, pos', st)) /\
  (forall (root_cont : ofx_cont) (pctx : process_ctx) (input : string)
          (pos p : nat) (pctx' : process_ctx),
     ostack_ pctx = [] ->
     iterate_elements (S (size input)) input pos handle_element
       (loop_start root_cont pctx) = Ret (true, p, pctx') ->
     match ostack_ pctx' with
     | [] =>
         process_ofx root_cont pctx input pos
         = Ret (true, log pctx' ProcessingSucceeded)
     | [os_top] =>
         name_ os_top = "OFX" /\ cont_ os_top = root_cont /\
         process_ofx root_cont pctx input pos
         = if snd (fst (handle_close os_top "OFX"))
           then Ret (true, log (pop_container pctx') ProcessingSucceeded)
           else Ret (false, pop_container pctx')
     | _ :: _ :: _ =>
         process_ofx root_cont pctx input pos
         = Ret (false, log pctx' StackNotEmpty)
     end) /\
  scan example_root "<OFX><A><B></OFX><A><B><X>"
  = Ret (true, ["B"; "A"; "OFX"], []) /\
  main example_root "<OFX><A><B></OFX>"
  = Ret (mk_outcome 0 None [StackNotEmpty]) /\
  main example_root "<OFX><A><B><X>hi</B></A></OFX>"
  = Ret (mk_outcome 0
           (Some (JObject [("a", JObject [("b", JObject [("x", JString "hi")])])]))
           [ProcessingSucceeded]).
Proof.
  split; [intros St h; apply iterate_elements_root_close|].
  split; [|repeat split; vm_compute; reflexivity].
  intros root_cont pctx input pos p pctx' E H.
  pose proof (iterate_elements_invariant handle_element
                (fun c => bottom_is_root root_cont (ostack_ c))
                (handle_element_bottom root_cont)
                _ _ _ _ _ _ _ (loop_start_bottom root_cont pctx E) H) as HB.
  rewrite process_ofx_unfold, H. unfold after_scan. cbv beta in HB.
  destruct (ostack_ pctx') as [|t [|u s]]; try reflexivity.
  simpl in HB. destruct HB as [Hn Hc]. rewrite Hn. auto.
Qed.

Lemma root_close_ends_scan_witness :
  iterate_elements (S 0) "<OFX><A></OFX><B>" 8 handle_element
    (loop_start example_root fresh_ctx)
  = Ret (true, 14, loop_start example_root fresh_ctx) /\
  process_ofx example_root fresh_ctx "<OFX><A></OFX>" 5
  = Ret (false,
         log (mk_process_ctx [JObject []; JObject []] [] 0
                [mk_ofx_container "A" example_A 1 [];
                 mk_ofx_container "OFX" example_root 0 []])
           StackNotEmpty).
Proof.
  destruct root_close_ends_scan as (Ht & Hd & _).
  split.
  - apply (Ht process_ctx handle_element 0 "<OFX><A></OFX><B>" 8 14
             (mk_element "/OFX" [] "" false));
      [vm_compute; lia | reflexivity | reflexivity].
  - apply (Hd example_root fresh_ctx "<OFX><A></OFX>" 5 14
             (mk_process_ctx [JObject []; JObject []] [] 0
                [mk_ofx_container "A" example_A 1 [];
                 mk_ofx_container "OFX" example_root 0 []]));
      reflexivity.
Defined.

Lemma after_scan_returns (pctx : process_ctx) : returns (after_scan pctx).
Proof.
  unfold after_scan. destruct (ostack_ pctx) as [|t [|u s]];
    try (eexists; reflexivity).
  destruct (snd (fst (handle_close t (name_ t)))); eexists; reflexivity.
Qed.

Lemma process_ofx_finishes (root_cont : ofx_cont) (pctx : process_ctx)
    (input : string) (pos : nat) :
  finishes (process_ofx root_cont pctx input pos).
Proof.
  rewrite process_ofx_unfold.
  pose proof (iterate_elements_finishes handle_element handle_element_finishes
                (S (size input)) input pos (loop_start root_cont pctx)
                ltac:(lia)) as F.
  destruct (iterate_elements _ _ _ _ _) as [[[b p] pctx']| |];
    try exact I; [|exact F].
  destruct b; [|exact I].
  apply returns_finishes, after_scan_returns.
Qed.

Lemma main_finishes (root_cont : ofx_cont) (input : string) :
  finishes (main root_cont input).
Proof.
  unfold main. destruct (index 0 "<OFX>" input) as [pos|]; [|exact I].
  pose proof (process_ofx_finishes root_cont
                (mk_process_ctx [JObject []] [] 0 []) input (pos + 5)) as F.
  destruct (process_ofx _ _ _ _) as [[b pctx]| |]; try exact I; [|exact F].
  destruct b; exact I.
Qed.

(** C9: on every input the program comes to an end, with its output, a
    failure or an abort: the passes the model gives its loops are never used
    up, and giving more changes nothing.  Each pass of the tokenizer loop
    that reads an element leaves the cursor after where it started, the
    attribute loop and the entity decoder come back, [skip_ws] never moves
    the cursor back, and [handle_close] only pops pending tags.  (The loops
    of the decoders walk the unread text one character a step.) *)
Theorem parsing_terminates :
  (forall (root_cont : ofx_cont) (input : string),
     finishes (main root_cont input)) /\
  (forall (root_cont : ofx_cont) (pctx : process_ctx) (input : string)
          (pos fuel : nat),
     S (size input) <= fuel ->
     iterate_elements fuel input pos handle_element (loop_start root_cont pctx)
     = iterate_elements (S (size input)) input pos handle_element
         (loop_start root_cont pctx)) /\
  (forall (str : string) (pos : nat),
     exists t, read_element str pos = Ret t /\
       match t with TokElement pos' _ => pos < pos' | _ => True end) /\
  (forall (str : string) (pos : nat) (el_attrs : attrs),
     exists r, read_attrs (S (size str)) str pos el_attrs = Ret r /\
       match r with Some (pos', _) => pos <= pos' | None => True end) /\
  (forall txt : string, returns (try_xml_decode txt)) /\
  (forall (str : string) (pos : nat), pos <= skip_ws str pos) /\
  (forall (this : ofx_container) (close_tag : string),
     exists popped,
       tags_ this = (tags_ (snd (handle_close this close_tag)) ++ popped)%list).
Proof.
  split; [exact main_finishes|].
  split.
  { intros root_cont pctx input pos fuel Hle.
    apply iterate_elements_fuel; [|exact Hle].
    apply iterate_elements_finishes; [exact handle_element_finishes | lia]. }
  split; [exact read_element_returns|].
  split; [intros str pos a; apply read_attrs_returns; lia|].
  split; [exact try_xml_decode_returns|].
  split; [exact skip_ws_ge | exact handle_close_pops].
Qed.

Lemma parsing_terminates_witness :
  iterate_elements 100 "<OFX><A><B><X>hi</B></A></OFX>" 5 handle_element
    (loop_start example_root fresh_ctx)
  = iterate_elements (S (size "<OFX><A><B><X>hi</B></A></OFX>"))
      "<OFX><A><B><X>hi</B></A></OFX>" 5 handle_element
      (loop_start example_root fresh_ctx).
Proof.
  destruct parsing_terminates as (_ & Hf & _).
  apply (Hf example_root fresh_ctx "<OFX><A><B><X>hi</B></A></OFX>" 5 100).
  vm_compute. lia.
Defined.

(** ** A failed scan *)

(** When the loop fails, [process_ofx] logs "Processing failed." and returns
    [true]. *)
Lemma process_ofx_scan_failed (root_cont : ofx_cont) (pctx : process_ctx)
    (input : string) (pos p : nat) (pctx' : process_ctx) :
  iterate_elements (S (size input)) input pos handle_element
    (loop_start root_cont pctx) = Ret (false, p, pctx') ->
  process_ofx root_cont pctx input pos = Ret (true, log pctx' ProcessingFailed).
Proof. intros H. rewrite process_ofx_unfold, H. reflexivity. Qed.

(** C1 (what the program does where the claim fails): after a scan that
    failed, by a malformed tag or by a close mismatch, [process_ofx] returns
    [true], and [main] writes the document built so far and exits with 0. *)
Theorem failed_scan_still_writes_output :
  (forall (root_cont : ofx_cont) (pctx : process_ctx) (input : string)
          (pos : nat),
     match iterate_elements (S (size input)) input pos handle_element
             (loop_start root_cont pctx) with
     | Ret (false, _, pctx') =>
         process_ofx root_cont pctx input pos
         = Ret (true, log pctx' ProcessingFailed)
     | _ => True
     end) /\
  scan ofx_main broken_after_signon
  = Ret (false, ["OFX"], []) /\
  ofx2json broken_after_signon
  = Ret (mk_outcome 0
           (Some (JObject [("signonmsgsrsv1",
              JObject [("sonrs", JObject [("language", JString "ENG")])])]))
           [ProcessingFailed]) /\
  scan ofx_main mismatched_close
  = Ret (false, ["SONRS"; "SIGNONMSGSRSV1"; "OFX"],
         [MismatchFor "/BAD" "SONRS"]) /\
  ofx2json mismatched_close
  = Ret (mk_outcome 0 (Some (JObject []))
           [MismatchFor "/BAD" "SONRS"; ProcessingFailed]).
Proof.
  split.
  { intros root_cont pctx input pos.
    destruct (iterate_elements _ _ _ _ _) as [[[b p] pctx']| |] eqn:E; auto.
    destruct b; auto. apply (process_ofx_scan_failed _ _ _ _ _ _ E). }
  repeat split; vm_compute; reflexivity.
Qed.

(** ** The values on the stack

    With a schema in which an array container has no leaves and holds only
    containers that go into an array, and every other container holds only
    containers that go into an object, each open container keeps a value of
    its kind at an address of its own; [AddMember] and [PushBack] then never
    meet a value of the wrong kind. *)

(** The schema of the program is of that form. *)
Lemma wf_ofx_main : wf_cont ofx_main = true.
Proof. vm_compute. reflexivity. Qed.

Lemma wf_cont_sub (c c' : ofx_cont) (key : string) :
  wf_cont c = true -> map_find key (sub c) = Some c' ->
  child_ok (serialize c) (serialize c') = true /\ wf_cont c' = true.
Proof.
  destruct c as [ser sub tags]. simpl. intros H.
  apply andb_true_iff in H as [_ H]. revert H.
  induction sub as [|[k x] sub IH]; simpl; intros H Hf; [discriminate|].
  apply andb_true_iff in H as [Hx H].
  destruct (String.eqb k key).
  - inversion Hf; subst. apply andb_true_iff in Hx. exact Hx.
  - apply IH; assumption.
Qed.

Lemma wf_cont_tags (c : ofx_cont) (key : string) (fmt : tag_fmt) :
  wf_cont c = true -> map_find key (tags c) = Some fmt ->
  holds_array (serialize c) = false.
Proof.
  destruct c as [ser sub tags]. simpl. intros H Hf.
  apply andb_true_iff in H as [H _].
  destruct (holds_array ser); [|reflexivity].
  simpl in H. destruct tags; [discriminate Hf | discriminate H].
Qed.

Lemma length_store (h : heap) (a : nat) (v : json) :
  List.length (store h a v) = List.length h.
Proof.
  revert a; induction h as [|x h IH]; intros [|a]; simpl; auto.
Qed.

Lemma load_store_same (h : heap) (a : nat) (v : json) :
  a < List.length h -> load (store h a v) a = v.
Proof.
  unfold load. revert a; induction h as [|x h IH]; intros [|a]; simpl;
    intros H; try lia; auto with arith.
Qed.

Lemma load_store_other (h : heap) (a b : nat) (v : json) :
  a <> b -> load (store h a v) b = load h b.
Proof.
  unfold load. revert a b; induction h as [|x h IH]; intros [|a] [|b] H; simpl;
    auto; try lia.
Qed.

Lemma load_alloc_old (h : heap) (v : json) (a : nat) :
  a < List.length h -> load (h ++ [v])%list a = load h a.
Proof. intros H. unfold load. apply app_nth1. exact H. Qed.

Lemma load_alloc_new (h : heap) (v : json) :
  load (h ++ [v])%list (List.length h) = v.
Proof. unfold load. rewrite app_nth2, Nat.sub_diag by lia. reflexivity. Qed.

(** A change of the store that does not shrink it and keeps the kind of the
    value of every container on the stack keeps the stack in order. *)
Lemma stack_ok_heap (h h' : heap) (s : list ofx_container) :
  List.length h <= List.length h' ->
  (forall g, In g s -> same_kind (load h' (val_ g)) (load h (val_ g))) ->
  stack_ok h s -> stack_ok h' s.
Proof.
  intros Hl. induction s as [|f s IH]; simpl; [auto|].
  intros Hs (Hv & Hk & Hw & Ho & Hc & Hr).
  split; [lia|]. split.
  { unfold kind_ok in *. destruct (Hs f) as [E1 E2]; [auto|].
    rewrite E1, E2. exact Hk. }
  repeat split; auto.
Qed.

Lemma stack_ok_bound (h : heap) (s : list ofx_container) :
  stack_ok h s -> forall g, In g s -> val_ g < List.length h.
Proof.
  induction s as [|f s IH]; simpl; [intros _ g []|].
  intros (Hv & _ & _ & _ & _ & Hr) g [<-|Hg]; auto.
Qed.

Lemma store_same_kind (h : heap) (a : nat) (v : json) :
  a < List.length h -> same_kind v (load h a) ->
  forall b, same_kind (load (store h a v) b) (load h b).
Proof.
  intros Ha Hk b. destruct (Nat.eq_dec a b) as [<-|Hn].
  - rewrite load_store_same by exact Ha. exact Hk.
  - rewrite load_store_other by exact Hn. split; reflexivity.
Qed.

Lemma AddMember_ret (h h' : heap) (a : nat) (name : string) (v : json) :
  AddMember h a name v = Ret h' ->
  exists ms, load h a = JObject ms /\
    h' = store h a (JObject (ms ++ [(name, v)])%list).
Proof.
  unfold AddMember. destruct (load h a); try discriminate.
  intros H. inversion H. eauto.
Qed.

Lemma PushBack_ret (h h' : heap) (a : nat) (v : json) :
  PushBack h a v = Ret h' ->
  exists l, load h a = JArray l /\ h' = store h a (JArray (l ++ [v])%list).
Proof.
  unfold PushBack. destruct (load h a); try discriminate.
  intros H. inversion H. eauto.
Qed.

Lemma stack_ok_set_tags (h : heap) (f : ofx_container)
    (l : list (string * string)) (s : list ofx_container) :
  stack_ok h (f :: s) -> stack_ok h (set_tags f l :: s).
Proof. simpl. unfold kind_ok. simpl. auto. Qed.

(** A value that gets one more member or item keeps the stack in order. *)
Lemma stack_ok_AddMember (h h' : heap) (a : nat) (name : string) (v : json)
    (s : list ofx_container) :
  a < List.length h -> AddMember h a name v = Ret h' ->
  stack_ok h s -> stack_ok h' s.
Proof.
  intros Ha H. apply AddMember_ret in H as (ms & El & ->).
  apply stack_ok_heap; [rewrite length_store; lia|].
  intros g _. apply store_same_kind; [exact Ha|].
  rewrite El. split; reflexivity.
Qed.

Lemma stack_ok_PushBack (h h' : heap) (a : nat) (v : json)
    (s : list ofx_container) :
  a < List.length h -> PushBack h a v = Ret h' ->
  stack_ok h s -> stack_ok h' s.
Proof.
  intros Ha H. apply PushBack_ret in H as (l & El & ->).
  apply stack_ok_heap; [rewrite length_store; lia|].
  intros g _. apply store_same_kind; [exact Ha|].
  rewrite El. split; reflexivity.
Qed.

(** In a stack in order the front container of a leaf holds an object. *)
Lemma leaf_value_object (pctx : process_ctx) (this : ofx_container)
    (below : list ofx_container) (e : string) (fmt : tag_fmt) :
  ctx_ok pctx -> ostack_ pctx = this :: below ->
  map_find e (tags (cont_ this)) = Some fmt ->
  exists ms, load (heap_ pctx) (val_ this) = JObject ms.
Proof.
  unfold ctx_ok. intros H Es Et. rewrite Es in H.
  destruct H as (_ & Hk & Hw & _).
  unfold kind_ok in Hk. rewrite (wf_cont_tags _ _ _ Hw Et) in Hk.
  destruct (load (heap_ pctx) (val_ this)); try discriminate. eauto.
Qed.

Lemma new_ofx_container_ok (pctx : process_ctx) (this : ofx_container)
    (below : list ofx_container) (e : string) (c : ofx_cont) :
  ctx_ok pctx -> ostack_ pctx = this :: below ->
  map_find e (sub (cont_ this)) = Some c ->
  ctx_ok (push_container (snd (new_ofx_container e c pctx))
            (fst (new_ofx_container e c pctx))).
Proof.
  unfold ctx_ok. intros H Es Ef.
  pose proof H as H0. rewrite Es in H0. destruct H0 as (_ & _ & Hw & _).
  destruct (wf_cont_sub _ _ _ Hw Ef) as [Hc Hwc].
  assert (B : forall g, In g (ostack_ pctx) ->
              val_ g < List.length (heap_ pctx))
    by (apply stack_ok_bound; exact H).
  assert (Old : forall v, stack_ok (heap_ pctx ++ [v])%list (ostack_ pctx)).
  { intros v. apply (stack_ok_heap (heap_ pctx)); [rewrite length_app; lia| |exact H].
    intros g Hg. rewrite load_alloc_old by (apply B; exact Hg).
    split; reflexivity. }
  unfold new_ofx_container.
  destruct (serialize c) eqn:Ec; simpl in Hc; try discriminate; simpl;
    rewrite Es in *; simpl;
    (split; [rewrite length_app; simpl; lia|]);
    (split; [unfold kind_ok; simpl; rewrite Ec, load_alloc_new; reflexivity|]);
    (split; [exact Hwc|]);
    (split; [intros g Hg; apply B; exact Hg|]);
    (split; [rewrite Ec; exact Hc | apply Old]).
Qed.

(** What adding a leaf to the front container can do to the store. *)
Lemma leaf_added (pctx : process_ctx) (this : ofx_container) (e t : string)
    (fmt : tag_fmt) :
  match
    match fmt with
    | tag_string => add_string (heap_ pctx) (val_ this) e t
    | tag_number => add_number (heap_ pctx) (val_ this) e t
    | tag_boolean => add_bool (heap_ pctx) (val_ this) e t
    | tag_datetime => add_datetime (heap_ pctx) (val_ this) e t
    end
  with
  | Ret h => exists v, AddMember (heap_ pctx) (val_ this) (str_lower e) v = Ret h
  | Aborted =>
      (fmt = tag_number /\ parse_number t = None) \/
      (fmt = tag_boolean /\ parse_bool t = None) \/
      (forall ms, load (heap_ pctx) (val_ this) <> JObject ms)
  | OutOfFuel => False
  end.
Proof.
  assert (A : forall v,
            match AddMember (heap_ pctx) (val_ this) (str_lower e) v with
            | Ret h => exists v', AddMember (heap_ pctx) (val_ this)
                                    (str_lower e) v' = Ret h
            | Aborted => forall ms, load (heap_ pctx) (val_ this) <> JObject ms
            | OutOfFuel => False
            end).
  { intros v. destruct (AddMember _ _ _ v) eqn:E; eauto.
    - unfold AddMember in E. intros ms Hl. rewrite Hl in E. discriminate.
    - unfold AddMember in E. destruct (load _ _); discriminate. }
  destruct fmt; unfold add_datetime, add_string, add_number, add_bool.
  - specialize (A (JString (c_str t))). destruct (AddMember _ _ _ _); auto.
  - destruct (parse_number t) as [v|]; [|auto].
    specialize (A (JNumber v)). destruct (AddMember _ _ _ _); auto.
  - destruct (parse_bool t) as [v|]; [|auto].
    specialize (A (JBool v)). destruct (AddMember _ _ _ _); auto.
  - destruct (parse_datetime t) as [d|].
    + specialize (A (JString (c_str (format_datetime d)))).
      destruct (AddMember _ _ _ _); auto.
    + specialize (A (JString (c_str t))). destruct (AddMember _ _ _ _); auto.
Qed.

Lemma handle_tag_ok (pctx : process_ctx) (e : string) (a : attrs) (t : string)
    (b : bool) (pctx' : process_ctx) :
  ctx_ok pctx -> handle_tag pctx e a t = Ret (b, pctx') -> ctx_ok pctx'.
Proof.
  intros Hok H. unfold handle_tag in H.
  destruct (ostack_ pctx) as [|this below] eqn:Es; [discriminate|].
  destruct (map_find e (sub (cont_ this))) as [c|] eqn:Ef.
  - pose proof (new_ofx_container_ok pctx this below e c Hok Es Ef) as N.
    destruct (new_ofx_container e c pctx) as [n p1]. simpl in N.
    inversion H; subst. exact N.
  - assert (Hb : val_ this < List.length (heap_ pctx)).
    { apply (stack_ok_bound _ _ Hok). rewrite Es. left. reflexivity. }
    unfold ctx_ok in Hok. rewrite Es in Hok.
    destruct (map_find e (tags (cont_ this))) as [fmt|].
    + pose proof (leaf_added pctx this e t fmt) as L.
      destruct fmt;
        match type of H with
        | match match ?x with _ => _ end with _ => _ end = _ =>
            destruct x as [h1| |]
        end; try discriminate; destruct L as [v L];
        inversion H; subst; unfold ctx_ok; simpl;
        apply (stack_ok_set_tags _ this);
        apply (stack_ok_AddMember _ _ _ _ _ _ Hb L Hok).
    + inversion H; subst. unfold ctx_ok. simpl.
      apply (stack_ok_set_tags _ this). exact Hok.
Qed.

(** With the stack in order an open event ends the process only through
    [abort()]: a number or boolean leaf that does not decode. *)
Lemma handle_tag_abort (pctx : process_ctx) (e : string) (a : attrs) (t : string) :
  ctx_ok pctx -> handle_tag pctx e a t = Aborted ->
  ostack_ pctx = [] \/
  exists this below fmt,
    ostack_ pctx = this :: below /\
    map_find e (tags (cont_ this)) = Some fmt /\
    ((fmt = tag_number /\ parse_number t = None) \/
     (fmt = tag_boolean /\ parse_bool t = None)).
Proof.
  intros Hok H. unfold handle_tag in H.
  destruct (ostack_ pctx) as [|this below] eqn:Es; [left; reflexivity|].
  right. exists this, below.
  destruct (map_find e (sub (cont_ this))) as [c|].
  { destruct (new_ofx_container e c pctx); discriminate. }
  destruct (map_find e (tags (cont_ this))) as [fmt|] eqn:Et; [|discriminate].
  exists fmt. split; [reflexivity|]. split; [reflexivity|].
  destruct (leaf_value_object pctx this below e fmt Hok Es Et) as [ms Hl].
  pose proof (leaf_added pctx this e t fmt) as L.
  destruct fmt;
    match type of H with
    | match match ?x with _ => _ end with _ => _ end = _ =>
        destruct x as [h1| |]
    end; try discriminate; try contradiction;
    destruct L as [L|[L|L]]; auto; exfalso; apply (L ms Hl).
Qed.

(** With the stack in order [done] folds the front container into the one
    below it and leaves the rest of the stack in order. *)
Lemma done_ok (pctx : process_ctx) (this : ofx_container)
    (below : list ofx_container) :
  ctx_ok pctx -> ostack_ pctx = this :: below ->
  exists pctx', done pctx = Ret pctx' /\ ostack_ pctx' = this :: below /\
    stack_ok (heap_ pctx') below.
Proof.
  unfold ctx_ok. intros Hok Es. rewrite Es in Hok. unfold done. rewrite Es.
  destruct below as [|p rest].
  { exists pctx. repeat split; auto. }
  destruct Hok as (Hv & Hk & Hw & Ho & Hc & Hr).
  assert (Hlt : val_ p < val_ this) by (apply Ho; left; reflexivity).
  set (h := heap_ pctx) in *.
  set (h0 := store h (val_ this) JNull).
  assert (L0 : load h0 (val_ p) = load h (val_ p))
    by (apply load_store_other; lia).
  assert (R0 : stack_ok h0 (p :: rest)).
  { apply (stack_ok_heap h); [unfold h0; rewrite length_store; lia| |exact Hr].
    intros g Hg. unfold h0. rewrite load_store_other; [split; reflexivity|].
    destruct Hg as [<-|Hg]; [lia|].
    assert (val_ g < val_ this) by (apply Ho; right; exact Hg). lia. }
  assert (Hp : val_ p < List.length h0)
    by (unfold h0; rewrite length_store; lia).
  destruct Hr as (_ & Hkp & _). unfold kind_ok in Hkp.
  assert (Obj : holds_array (serialize (cont_ p)) = false ->
                forall name v, exists h2,
                  AddMember h0 (val_ p) name v = Ret h2).
  { intros E name v. rewrite E in Hkp. unfold AddMember. rewrite L0.
    destruct (load h (val_ p)); try discriminate. eauto. }
  assert (Arr : holds_array (serialize (cont_ p)) = true ->
                forall v, exists h2, PushBack h0 (val_ p) v = Ret h2).
  { intros E v. rewrite E in Hkp. unfold PushBack. rewrite L0.
    destruct (load h (val_ p)); try discriminate. eauto. }
  destruct (serialize (cont_ this)); simpl in Hc; try discriminate.
  - apply negb_true_iff in Hc.
    destruct (Obj Hc (str_lower (name_ this)) (load h (val_ this))) as [h2 E].
    fold h0. rewrite E. eexists. split; [reflexivity|].
    split; [exact Es|]. simpl.
    apply (stack_ok_AddMember _ _ _ _ _ _ Hp E R0).
  - destruct (Arr Hc (load h (val_ this))) as [h2 E].
    fold h0. rewrite E. eexists. split; [reflexivity|].
    split; [exact Es|]. simpl.
    apply (stack_ok_PushBack _ _ _ _ _ Hp E R0).
  - destruct (Arr Hc (JObject [(str_lower (name_ this), load h (val_ this))]))
      as [h2 E].
    fold h0. rewrite E. eexists. split; [reflexivity|].
    split; [exact Es|]. simpl.
    apply (stack_ok_PushBack _ _ _ _ _ Hp E R0).
  - apply negb_true_iff in Hc.
    destruct (Obj Hc (str_lower (name_ this)) (load h (val_ this))) as [h2 E].
    fold h0. rewrite E. eexists. split; [reflexivity|].
    split; [exact Es|]. simpl.
    apply (stack_ok_AddMember _ _ _ _ _ _ Hp E R0).
Qed.

Lemma handle_close_set_tags (this : ofx_container) (close_tag : string) :
  exists l, snd (handle_close this close_tag) = set_tags this l.
Proof.
  unfold handle_close.
  destruct (scan_back close_tag (rev (tags_ this))) as [found rtags].
  exists (rev rtags).
  destruct rtags; [destruct (String.eqb close_tag (name_ this))|]; reflexivity.
Qed.

Lemma handle_element_ok (pctx : process_ctx) (e : string) (a : attrs)
    (t : string) (b : bool) (pctx' : process_ctx) :
  ctx_ok pctx -> handle_element pctx e a t = Ret (b, pctx') -> ctx_ok pctx'.
Proof.
  intros Hok H. unfold handle_element in H.
  destruct (negb (chr_eqb (char_at e 0) "/"));
    [apply (handle_tag_ok _ _ _ _ _ _ Hok H)|].
  destruct (ostack_ pctx) as [|os_top below] eqn:Es.
  { inversion H; subst. unfold ctx_ok. simpl. rewrite Es. exact I. }
  destruct (handle_close_set_tags os_top (substr1 e)) as [l El].
  destruct (handle_close os_top (substr1 e)) as [[ok cd] top']. simpl in El.
  subst top'.
  assert (Hok' : ctx_ok (with_ostack pctx (set_tags os_top l :: below))).
  { unfold ctx_ok in *. simpl. rewrite Es in Hok.
    apply (stack_ok_set_tags _ os_top). exact Hok. }
  destruct ok; simpl in H; [|inversion H; subst; exact Hok'].
  destruct cd; [|inversion H; subst; exact Hok'].
  destruct (done_ok _ (set_tags os_top l) below Hok' eq_refl)
    as (p1 & Ed & Eo & Hr).
  rewrite Ed in H. inversion H; subst. unfold ctx_ok. simpl. rewrite Eo.
  exact Hr.
Qed.

(** With the stack in order the handler ends the process only on an open
    event: one that comes after the root container was closed, or a number or
    boolean leaf that does not decode. *)
Lemma handle_element_abort (pctx : process_ctx) (e : string) (a : attrs)
    (t : string) :
  ctx_ok pctx -> handle_element pctx e a t = Aborted ->
  chr_eqb (char_at e 0) "/" = false /\
  (ostack_ pctx = [] \/
   exists this below fmt,
     ostack_ pctx = this :: below /\
     map_find e (tags (cont_ this)) = Some fmt /\
     ((fmt = tag_number /\ parse_number t = None) \/
      (fmt = tag_boolean /\ parse_bool t = None))).
Proof.
  intros Hok H. unfold handle_element in H.
  destruct (chr_eqb (char_at e 0) "/"); simpl in H.
  - exfalso. destruct (ostack_ pctx) as [|os_top below] eqn:Es; [discriminate|].
    destruct (handle_close_set_tags os_top (substr1 e)) as [l El].
    destruct (handle_close os_top (substr1 e)) as [[ok cd] top']. simpl in El.
    subst top'.
    destruct ok; simpl in H; [|discriminate].
    destruct cd; [|discriminate].
    assert (Hok' : ctx_ok (with_ostack pctx (set_tags os_top l :: below))).
    { unfold ctx_ok in *. simpl. rewrite Es in Hok.
      apply (stack_ok_set_tags _ os_top). exact Hok. }
    destruct (done_ok _ (set_tags os_top l) below Hok' eq_refl)
      as (p1 & Ed & _).
    rewrite Ed in H. discriminate.
  - split; [reflexivity|]. apply (handle_tag_abort _ _ _ _ Hok H).
Qed.

Lemma loop_start_ok (root_cont : ofx_cont) :
  wf_cont root_cont = true -> ctx_ok (loop_start root_cont fresh_ctx).
Proof.
  intros Hw. unfold ctx_ok, loop_start, new_ofx_container, fresh_ctx.
  destruct (serialize root_cont) eqn:E; simpl; unfold kind_ok; simpl;
    rewrite E; simpl; repeat split; auto; try lia; intros g [].
Qed.

Lemma reachable_ok (root_cont : ofx_cont) (pctx : process_ctx) :
  wf_cont root_cont = true -> reachable root_cont pctx -> ctx_ok pctx.
Proof.
  intros Hw R. induction R as [|pctx e a t b pctx' _ IH H].
  - apply loop_start_ok, Hw.
  - apply (handle_element_ok _ _ _ _ _ _ IH H).
Qed.

Lemma scan_reachable (root_cont : ofx_cont) (fuel : nat) (input : string)
    (pos : nat) (b : bool) (p : nat) (pctx' : process_ctx) :
  iterate_elements fuel input pos handle_element
    (loop_start root_cont fresh_ctx) = Ret (b, p, pctx') ->
  reachable root_cont pctx'.
Proof.
  apply (iterate_elements_invariant handle_element (reachable root_cont)).
  - intros st e a t b' st' R H. apply (reach_step _ _ _ _ _ _ _ R H).
  - apply reach_start.
Qed.

(** ** Open events in a run of the program *)

Lemma sonrs_ctx_reachable : reachable ofx_main sonrs_ctx.
Proof.
  apply (reach_step ofx_main
           (mk_process_ctx [JObject []; JObject []; JObject []] [] 0
              (set_tags sonrs_frame [] :: sonrs_below))
           "LANGUAGE" [] "ENG" true); [|vm_compute; reflexivity].
  apply (reach_step ofx_main
           (mk_process_ctx [JObject []; JObject []] [] 0 sonrs_below)
           "SONRS" [] "" true); [|vm_compute; reflexivity].
  apply (reach_step ofx_main (loop_start ofx_main fresh_ctx)
           "SIGNONMSGSRSV1" [] "" true); [|vm_compute; reflexivity].
  apply reach_start.
Qed.

(** C6: an open event for a tag that is not a child container of the front
    container leaves, whenever [handle_tag] returns, the pair of the tag and
    its text appended to that container's pending tags, be the tag a declared
    leaf or not, and the result is [true].  Otherwise the process has ended,
    and there is no state: in [abort()] on a number or boolean leaf whose
    text does not decode, or in rapidjson's assertion on a value that is not
    an object.  In a run of the program on a schema whose containers fit
    their values (its own schema is one) the assertion never fails. *)
Theorem handle_tag_records_pending :
  (forall (pctx : process_ctx) (this : ofx_container)
          (below : list ofx_container) (element : string) (a : attrs)
          (text : string),
     ostack_ pctx = this :: below ->
     map_find element (sub (cont_ this)) = None ->
     match handle_tag pctx element a text with
     | Ret (b, pctx') =>
         b = true /\
         ostack_ pctx'
         = set_tags this (tags_ this ++ [(element, text)])%list :: below
     | Aborted =>
         exists fmt, map_find element (tags (cont_ this)) = Some fmt /\
           ((fmt = tag_number /\ parse_number text = None) \/
            (fmt = tag_boolean /\ parse_bool text = None) \/
            (forall ms, load (heap_ pctx) (val_ this) <> JObject ms))
     | OutOfFuel => False
     end) /\
  (forall (root_cont : ofx_cont) (pctx : process_ctx) (this : ofx_container)
          (below : list ofx_container) (element : string) (fmt : tag_fmt),
     wf_cont root_cont = true -> reachable root_cont pctx ->
     ostack_ pctx = this :: below ->
     map_find element (tags (cont_ this)) = Some fmt ->
     exists ms, load (heap_ pctx) (val_ this) = JObject ms) /\
  wf_cont ofx_main = true.
Proof.
  split; [exact handle_tag_pending|].
  split; [|exact wf_ofx_main].
  intros root_cont pctx this below element fmt Hw R Hs Ht.
  apply (leaf_value_object pctx this below element fmt); auto.
  apply (reachable_ok root_cont); assumption.
Qed.

Lemma handle_tag_records_pending_witness :
  match handle_tag sonrs_ctx "MEMO" [] "some text" with
  | Ret (b, pctx') =>
      b = true /\
      ostack_ pctx'
      = set_tags sonrs_frame
          (tags_ sonrs_frame ++ [("MEMO", "some text")])%list :: sonrs_below
  | Aborted =>
      exists fmt, map_find "MEMO" (tags (cont_ sonrs_frame)) = Some fmt /\
        ((fmt = tag_number /\ parse_number "some text" = None) \/
         (fmt = tag_boolean /\ parse_bool "some text" = None) \/
         (forall ms, load (heap_ sonrs_ctx) (val_ sonrs_frame) <> JObject ms))
  | OutOfFuel => False
  end /\
  exists ms, load (heap_ sonrs_ctx) (val_ sonrs_frame) = JObject ms.
Proof.
  destruct handle_tag_records_pending as (Hp & Ho & _).
  split.
  - apply (Hp sonrs_ctx sonrs_frame sonrs_below "MEMO" [] "some text");
      reflexivity.
  - apply (Ho ofx_main sonrs_ctx sonrs_frame sonrs_below "LANGUAGE" tag_string);
      [exact wf_ofx_main | exact sonrs_ctx_reachable | reflexivity
      | reflexivity].
Defined.

(** The claim of C5 as the specification has it fails on a text with a NUL
    character in it: the text "2021", NUL, "junk" is no timestamp, and what
    the leaf gets is the string "2021", not the text; the run on the document
    that holds it succeeds with that string. *)
Lemma datetime_failure_text_cut_at_nul :
  parse_datetime nul_stamp = None /\
  handle_tag sonrs_ctx "DTSERVER" [] nul_stamp
  = Ret (true,
         mk_process_ctx
           [JObject []; JObject [];
            JObject [("language", JString "ENG"); ("dtserver", JString "2021")]]
           [] 0
           (set_tags sonrs_frame
              (tags_ sonrs_frame ++ [("DTSERVER", nul_stamp)])%list
            :: sonrs_below)) /\
  JString "2021" <> JString nul_stamp /\
  ofx2json nul_stamp_document
  = Ret (mk_outcome 0
           (Some (JObject [("signonmsgsrsv1",
              JObject [("sonrs", JObject [("dtserver", JString "2021")])])]))
           [ProcessingSucceeded]).
Proof.
  split; [vm_compute; reflexivity|].
  split; [vm_compute; reflexivity|].
  split; [discriminate | vm_compute; reflexivity].
Qed.

(** C5, amended: a leaf declared as a datetime whose text does not decode is
    added to the object of the front container as a string member, under the
    tag name in lower case; [handle_tag] returns [true] and the scan goes on.
    The string is the text as a C string: the text as it came when it holds
    no NUL character, and otherwise what stands before its first NUL.  In a
    run of the program on a schema whose containers fit their values (its own
    schema is one) the front container of a leaf always holds an object.  So
    the run on a document with the malformed timestamp "2021-01-15" succeeds
    and carries that text. *)
Theorem datetime_failure_is_string :
  (forall (pctx : process_ctx) (this : ofx_container)
          (below : list ofx_container) (element : string) (a : attrs)
          (text : string) (ms : list (string * json)),
     ostack_ pctx = this :: below ->
     map_find element (sub (cont_ this)) = None ->
     map_find element (tags (cont_ this)) = Some tag_datetime ->
     parse_datetime text = None ->
     load (heap_ pctx) (val_ this) = JObject ms ->
     handle_tag pctx element a text
     = Ret (true,
            mk_process_ctx
              (store (heap_ pctx) (val_ this)
                 (JObject (ms ++ [(str_lower element,
                                   JString (c_str text))])%list))
              (cerr_ pctx) (doc_ pctx)
              (set_tags this (tags_ this ++ [(element, text)])%list
               :: below))) /\
  (forall text : string, all_chars not_nul text = true -> c_str text = text) /\
  (forall text : string,
     all_chars not_nul (c_str text) = true /\
     (c_str text = text \/
      exists rest, text = c_str text ++ String Ascii.zero rest)) /\
  (forall (root_cont : ofx_cont) (pctx : process_ctx) (this : ofx_container)
          (below : list ofx_container) (element : string),
     wf_cont root_cont = true -> reachable root_cont pctx ->
     ostack_ pctx = this :: below ->
     map_find element (tags (cont_ this)) = Some tag_datetime ->
     exists ms, load (heap_ pctx) (val_ this) = JObject ms) /\
  wf_cont ofx_main = true /\
  ofx2json
    "<OFX><SIGNONMSGSRSV1><SONRS><DTSERVER>2021-01-15<LANGUAGE>ENG</SONRS></SIGNONMSGSRSV1></OFX>"
  = Ret (mk_outcome 0
           (Some (JObject [("signonmsgsrsv1",
              JObject [("sonrs",
                JObject [("dtserver", JString "2021-01-15");
                         ("language", JString "ENG")])])]))
           [ProcessingSucceeded]).
Proof.
  split; [exact handle_tag_datetime_failure|].
  split; [exact c_str_id|].
  split; [exact c_str_prefix|].
  split; [|split; [exact wf_ofx_main | vm_compute; reflexivity]].
  intros root_cont pctx this below element Hw R Hs Ht.
  apply (leaf_value_object pctx this below element tag_datetime); auto.
  apply (reachable_ok root_cont); assumption.
Qed.

Lemma datetime_failure_is_string_witness :
  handle_tag sonrs_ctx "DTSERVER" [] "2021-01-15"
  = Ret (true,
         mk_process_ctx
           (store (heap_ sonrs_ctx) (val_ sonrs_frame)
              (JObject ([("language", JString "ENG")]
                        ++ [(str_lower "DTSERVER",
                             JString (c_str "2021-01-15"))])%list))
           (cerr_ sonrs_ctx) (doc_ sonrs_ctx)
           (set_tags sonrs_frame
              (tags_ sonrs_frame ++ [("DTSERVER", "2021-01-15")])%list
            :: sonrs_below)) /\
  c_str "2021-01-15" = "2021-01-15" /\
  exists ms, load (heap_ sonrs_ctx) (val_ sonrs_frame) = JObject ms.
Proof.
  destruct datetime_failure_is_string as (Hd & Hc & _ & Ho & _).
  split; [|split].
  - apply (Hd sonrs_ctx sonrs_frame sonrs_below "DTSERVER" [] "2021-01-15"
             [("language", JString "ENG")]); reflexivity.
  - apply (Hc "2021-01-15"). reflexivity.
  - apply (Ho ofx_main sonrs_ctx sonrs_frame sonrs_below "DTSERVER");
      [exact wf_ofx_main | exact sonrs_ctx_reachable | reflexivity
      | reflexivity].
Defined.

(** In a run of the program on its own schema the handler ends the process
    only on an open event: one that comes after the root container was
    closed, or a number or boolean leaf whose text does not decode.  No
    assertion of rapidjson fails. *)
Lemma abort_only_by_decoders (pctx : process_ctx) (e : string) (a : attrs)
    (t : string) :
  reachable ofx_main pctx -> handle_element pctx e a t = Aborted ->
  chr_eqb (char_at e 0) "/" = false /\
  (ostack_ pctx = [] \/
   exists this below fmt,
     ostack_ pctx = this :: below /\
     map_find e (tags (cont_ this)) = Some fmt /\
     ((fmt = tag_number /\ parse_number t = None) \/
      (fmt = tag_boolean /\ parse_bool t = None))).
Proof.
  intros R. apply handle_element_abort, (reachable_ok ofx_main), R.
  exact wf_ofx_main.
Qed.

(** * Further properties *)

(** ** str_lower and skip_ws *)

Lemma tolower_facts (c : ascii) :
  tolower (tolower c) = tolower c /\ is_upper (tolower c) = false /\
  (is_upper c = false -> tolower c = c).
Proof.
  destruct c as [[] [] [] [] [] [] [] []]; repeat split; try reflexivity;
    intros H; discriminate H.
Qed.

(** X1: [str_lower] keeps the length of a text, leaves no upper-case letter
    in it, changes nothing in a text without upper-case letters, and so gives
    the same when it is applied again. *)
Theorem str_lower_normal (s : string) :
  size (str_lower s) = size s /\
  all_chars (fun c => negb (is_upper c)) (str_lower s) = true /\
  str_lower (str_lower s) = str_lower s /\
  (all_chars (fun c => negb (is_upper c)) s = true -> str_lower s = s).
Proof.
  induction s as [|c r (IH1 & IH2 & IH3 & IH4)]; simpl.
  - repeat split; reflexivity.
  - destruct (tolower_facts c) as (T1 & T2 & T3).
    repeat split.
    + f_equal. exact IH1.
    + rewrite T2, IH2. reflexivity.
    + rewrite T1, IH3. reflexivity.
    + intros H. apply andb_true_iff in H as [Hc Hr].
      apply negb_true_iff in Hc. rewrite (T3 Hc), (IH4 Hr). reflexivity.
Qed.

Lemma str_lower_normal_witness : str_lower "ofx2json" = "ofx2json".
Proof.
  destruct (str_lower_normal "ofx2json") as (_ & _ & _ & H).
  apply H. reflexivity.
Defined.

Lemma take_drop (n : nat) (s : string) : take n s ++ drop n s = s.
Proof.
  revert s; induction n as [|n IH]; intros [|c r]; simpl; auto.
  f_equal. apply IH.
Qed.

Lemma size_take (n : nat) (s : string) : n <= size s -> size (take n s) = n.
Proof.
  revert s; induction n as [|n IH]; intros [|c r]; simpl; intros H;
    auto; try lia. f_equal. apply IH. lia.
Qed.

Lemma lead_ws_spec (s : string) :
  lead_ws s <= size s /\ all_space (take (lead_ws s) s) = true /\
  starts_with_space (drop (lead_ws s) s) = false.
Proof.
  induction s as [|c r (I1 & I2 & I3)]; simpl; [repeat split; auto|].
  destruct (isspace c) eqn:E; simpl.
  - rewrite E. repeat split; auto. lia.
  - rewrite E. repeat split; auto. lia.
Qed.

(** X2: from a cursor inside the buffer [skip_ws] stays inside the buffer,
    passes over white space only, stops at the end or on a character that is
    not white space, and does nothing when it is called again. *)
Theorem skip_ws_stops (str : string) (pos : nat) :
  pos <= size str ->
  pos <= skip_ws str pos <= size str /\
  all_space (take (skip_ws str pos - pos) (drop pos str)) = true /\
  starts_with_space (drop (skip_ws str pos) str) = false /\
  skip_ws str (skip_ws str pos) = skip_ws str pos.
Proof.
  intros H. rewrite skip_ws_lead.
  destruct (lead_ws_spec (drop pos str)) as (L1 & L2 & L3).
  rewrite size_drop in L1.
  replace (pos + lead_ws (drop pos str) - pos) with (lead_ws (drop pos str))
    by lia.
  rewrite drop_drop in L3.
  repeat split; auto; try lia.
  rewrite skip_ws_lead.
  destruct (drop (pos + lead_ws (drop pos str)) str) as [|c r]; simpl in *;
    [lia|]. rewrite L3. lia.
Qed.

Lemma skip_ws_stops_witness :
  5 <= skip_ws "<OFX>  <A>" 5 <= size "<OFX>  <A>" /\
  all_space (take (skip_ws "<OFX>  <A>" 5 - 5) (drop 5 "<OFX>  <A>")) = true /\
  starts_with_space (drop (skip_ws "<OFX>  <A>" 5) "<OFX>  <A>") = false /\
  skip_ws "<OFX>  <A>" (skip_ws "<OFX>  <A>" 5) = skip_ws "<OFX>  <A>" 5.
Proof. apply (skip_ws_stops "<OFX>  <A>" 5). vm_compute. lia. Defined.

(** ** The attribute map *)

Lemma map_find_app_none {V : Type} (key : string) (m m' : list (string * V)) :
  map_find key m = None -> map_find key (m ++ m')%list = map_find key m'.
Proof.
  induction m as [|[k v] m IH]; simpl; [reflexivity|].
  destruct (String.eqb k key); [discriminate | exact IH].
Qed.

Lemma map_find_app_some {V : Type} (key : string) (m m' : list (string * V))
    (v : V) :
  map_find key m = Some v -> map_find key (m ++ m')%list = Some v.
Proof.
  induction m as [|[k x] m IH]; simpl; [discriminate|].
  destruct (String.eqb k key); [auto | exact IH].
Qed.

Lemma map_find_not_in {V : Type} (key : string) (m : list (string * V)) :
  map_find key m = None -> ~ In key (keys m).
Proof.
  induction m as [|[k v] m IH]; simpl; [auto|].
  destruct (String.eqb_spec k key) as [E|N]; [discriminate|].
  intros H [E|Hin]; [contradiction | exact (IH H Hin)].
Qed.

(** X3: [insert] on the attribute map never overwrites: a key that is
    present keeps its value and the map is unchanged, a new key is found
    with the value inserted; other keys are found as before, and the keys
    stay distinct. *)
Theorem map_insert_first_wins (key val : string) (m : attrs) :
  map_find key (map_insert key val m)
  = match map_find key m with Some v => Some v | None => Some val end /\
  (forall k, k <> key -> map_find k (map_insert key val m) = map_find k m) /\
  (forall v, map_find key m = Some v -> map_insert key val m = m) /\
  (NoDup (keys m) -> NoDup (keys (map_insert key val m))).
Proof.
  unfold map_insert.
  destruct (map_find key m) as [v|] eqn:E.
  - rewrite E. repeat split; auto.
  - repeat split.
    + rewrite (map_find_app_none _ _ _ E). simpl.
      rewrite String.eqb_refl. reflexivity.
    + intros k Hk. destruct (map_find k m) as [x|] eqn:Ek.
      * apply map_find_app_some. exact Ek.
      * rewrite (map_find_app_none _ _ _ Ek). simpl.
        apply String.eqb_neq in Hk. rewrite String.eqb_sym, Hk. reflexivity.
    + intros v Hv. discriminate.
    + intros Hn. unfold keys. rewrite map_app. simpl.
      apply NoDup_app; auto.
      * constructor; [intros []|constructor].
      * intros x Hx [<-|[]]. apply (map_find_not_in _ _ E). exact Hx.
Qed.

Lemma map_insert_first_wins_witness :
  map_find "b" (map_insert "x" "2" [("x", "1"); ("b", "c")])
  = map_find "b" [("x", "1"); ("b", "c")] /\
  map_insert "x" "2" [("x", "1"); ("b", "c")] = [("x", "1"); ("b", "c")] /\
  NoDup (keys (map_insert "y" "2" [("x", "1")])).
Proof.
  split; [|split].
  - destruct (map_insert_first_wins "x" "2" [("x", "1"); ("b", "c")])
      as (_ & H & _).
    apply H. discriminate.
  - destruct (map_insert_first_wins "x" "2" [("x", "1"); ("b", "c")])
      as (_ & _ & H & _).
    apply (H "1"). reflexivity.
  - destruct (map_insert_first_wins "y" "2" [("x", "1")]) as (_ & _ & _ & H).
    apply H. constructor; [intros []|constructor].
Defined.

(** ** What the tokenizer's readers return *)

Lemma app_assoc_s (a b c : string) : (a ++ b) ++ c = a ++ (b ++ c).
Proof. induction a as [|x a IH]; simpl; [reflexivity | f_equal; exact IH]. Qed.

Lemma app_nil_r_s (a : string) : a ++ "" = a.
Proof. induction a as [|x a IH]; simpl; [reflexivity | f_equal; exact IH]. Qed.

Lemma push_back_app (txt : string) (c : ascii) (r : string) :
  push_back txt c ++ r = txt ++ String c r.
Proof. unfold push_back. rewrite app_assoc_s. reflexivity. Qed.

Lemma read_name_from_spec (rest : string) :
  forall (pos : nat) (txt : string) (ok : bool) (pos' : nat) (txt' : string),
    read_name_from rest pos txt = (ok, pos', txt') ->
    exists n,
      pos' = pos + n /\ n <= size rest /\ txt' = txt ++ take n rest /\
      all_chars not_name_end (take n rest) = true /\
      match drop n rest with
      | EmptyString => True
      | String c _ => is_name_end c = true
      end /\
      ok = nonempty txt'.
Proof.
  induction rest as [|ch rest IH]; simpl; intros pos txt ok pos' txt' H.
  - inversion H; subst. exists 0. simpl. rewrite app_nil_r_s.
    repeat split; auto.
  - destruct (is_name_end ch) eqn:E.
    + inversion H; subst. exists 0. simpl. rewrite app_nil_r_s.
      repeat split; auto; lia.
    + apply IH in H as (n & H1 & H2 & H3 & H4 & H5 & H6).
      exists (S n). simpl. unfold not_name_end at 1. rewrite E. simpl.
      rewrite push_back_app in H3.
      repeat split; auto; lia.
Qed.

(** X4: [read_name] on an empty text returns the longest run of characters at
    the cursor that holds none of the characters that end a name (white
    space, angle brackets, slash, equals sign, double quote); the cursor is
    left on the first character after it, and the result is [true] exactly
    when the run is not empty. *)
Theorem read_name_longest_run (str : string) (pos : nat) (ok : bool)
    (pos' : nat) (name : string) :
  read_name str pos EmptyString = (ok, pos', name) ->
  pos <= pos' /\
  name = take (pos' - pos) (drop pos str) /\
  size name = pos' - pos /\
  all_chars not_name_end name = true /\
  starts_with not_name_end (drop pos' str) = false /\
  ok = nonempty name.
Proof.
  unfold read_name. intros H.
  apply read_name_from_spec in H as (n & H1 & H2 & H3 & H4 & H5 & H6).
  simpl in H3. subst pos'. replace (pos + n - pos) with n by lia.
  rewrite <- drop_drop.
  repeat split; auto; try lia.
  - rewrite H3. apply size_take. exact H2.
  - rewrite H3. exact H4.
  - destruct (drop n (drop pos str)); simpl; [reflexivity|].
    unfold not_name_end. rewrite H5. reflexivity.
Qed.

Lemma read_name_longest_run_witness :
  1 <= 4 /\
  "OFX" = take (4 - 1) (drop 1 "<OFX attr>") /\
  size "OFX" = 4 - 1 /\
  all_chars not_name_end "OFX" = true /\
  starts_with not_name_end (drop 4 "<OFX attr>") = false /\
  true = nonempty "OFX".
Proof. apply (read_name_longest_run "<OFX attr>" 1 true 4 "OFX"). reflexivity. Defined.

Lemma rtrim_split (s : string) :
  exists ws, s = rtrim s ++ ws /\ all_space ws = true.
Proof.
  induction s as [|c r (ws & E & Hw)]; simpl.
  - exists "". split; reflexivity.
  - destruct (rtrim r) as [|d r'] eqn:Er.
    + simpl in E. subst r. destruct (isspace c) eqn:Ec.
      * exists (String c ws). simpl. rewrite Ec, Hw. split; reflexivity.
      * exists ws. split; [reflexivity | exact Hw].
    + exists ws. simpl. split; [f_equal; exact E | exact Hw].
Qed.

Lemma rtrim_no_trailing_space (s : string) : ends_with_space (rtrim s) = false.
Proof.
  induction s as [|c r IH]; simpl; [reflexivity|].
  destruct (rtrim r) as [|d r'] eqn:Er.
  - destruct (isspace c) eqn:Ec; simpl; [reflexivity | exact Ec].
  - simpl in *. exact IH.
Qed.

Lemma all_chars_app (p : ascii -> bool) (a b : string) :
  all_chars p (a ++ b) = all_chars p a && all_chars p b.
Proof.
  induction a as [|c a IH]; simpl; [reflexivity|].
  rewrite IH, andb_assoc. reflexivity.
Qed.

Lemma read_text_from_spec (rest : string) :
  forall (pos : nat) (txt : string) (ok : bool) (pos' : nat) (txt' : string),
    read_text_from rest pos txt = (ok, pos', txt') ->
    ok = negb (all_chars not_angle rest) /\
    (ok = true ->
     exists n,
       pos' = pos + n /\ n < size rest /\ txt' = rtrim (txt ++ take n rest) /\
       all_chars not_angle (take n rest) = true /\
       starts_with is_angle (drop n rest) = true).
Proof.
  induction rest as [|ch rest IH]; simpl; intros pos txt ok pos' txt' H.
  - inversion H; subst. split; [reflexivity | discriminate].
  - unfold not_angle at 1. fold (is_angle ch) in H.
    destruct (is_angle ch) eqn:E.
    + inversion H; subst. split; [reflexivity|]. intros _.
      exists 0. simpl. rewrite app_nil_r_s, E. repeat split; auto; lia.
    + apply IH in H as (H1 & H2). split; [exact H1|].
      intros Hok. destruct (H2 Hok) as (n & N1 & N2 & N3 & N4 & N5).
      exists (S n). simpl. unfold not_angle at 1. rewrite E. simpl.
      rewrite push_back_app in N3. repeat split; auto; lia.
Qed.

(** X5: [read_text] succeeds exactly when an angle bracket follows in the
    buffer.  The text it then returns is what stands between the white space
    at the cursor and the next angle bracket, without its trailing white
    space: it has no angle bracket in it and neither starts nor ends with
    white space, and the cursor is left on the angle bracket. *)
Theorem read_text_trimmed (str : string) (pos : nat) (ok : bool) (pos' : nat)
    (txt : string) :
  read_text str pos EmptyString = (ok, pos', txt) ->
  ok = negb (all_chars not_angle (drop (skip_ws str pos) str)) /\
  (ok = true ->
   skip_ws str pos <= pos' < size str /\
   starts_with is_angle (drop pos' str) = true /\
   (exists ws,
      take (pos' - skip_ws str pos) (drop (skip_ws str pos) str) = txt ++ ws /\
      all_space ws = true) /\
   all_chars not_angle txt = true /\
   starts_with_space txt = false /\
   ends_with_space txt = false).
Proof.
  unfold read_text. intros H.
  set (p0 := skip_ws str pos) in *.
  apply read_text_from_spec in H as (H1 & H2). split; [exact H1|].
  intros Hok. destruct (H2 Hok) as (n & N1 & N2 & N3 & N4 & N5).
  simpl in N3. rewrite size_drop in N2. subst pos'.
  replace (p0 + n - p0) with n by lia.
  rewrite <- drop_drop.
  destruct (rtrim_split (take n (drop p0 str))) as (ws & E & Hw).
  rewrite <- N3 in E.
  assert (A : all_chars not_angle txt = true).
  { rewrite E, all_chars_app in N4. apply andb_true_iff in N4. apply N4. }
  assert (S0 : starts_with_space (drop p0 str) = false).
  { unfold p0. rewrite skip_ws_lead, <- drop_drop.
    apply (lead_ws_spec (drop pos str)). }
  repeat split; auto; try lia.
  - exists ws. split; assumption.
  - destruct txt as [|c t]; [reflexivity|]. simpl.
    pose proof (take_drop n (drop p0 str)) as T. rewrite E in T.
    simpl in T. rewrite <- T in S0. exact S0.
  - rewrite N3. apply rtrim_no_trailing_space.
Qed.

Lemma read_text_trimmed_witness :
  true = negb (all_chars not_angle (drop (skip_ws "<X>  hi there  </X>" 3)
                                      "<X>  hi there  </X>")) /\
  (true = true ->
   skip_ws "<X>  hi there  </X>" 3 <= 15 < size "<X>  hi there  </X>" /\
   starts_with is_angle (drop 15 "<X>  hi there  </X>") = true /\
   (exists ws,
      take (15 - skip_ws "<X>  hi there  </X>" 3)
        (drop (skip_ws "<X>  hi there  </X>" 3) "<X>  hi there  </X>")
      = "hi there" ++ ws /\
      all_space ws = true) /\
   all_chars not_angle "hi there" = true /\
   starts_with_space "hi there" = false /\
   ends_with_space "hi there" = false).
Proof.
  apply (read_text_trimmed "<X>  hi there  </X>" 3 true 15 "hi there").
  reflexivity.
Defined.

(** ** try_xml_decode *)

Lemma char_at_not_amp (txt : string) (pos : nat) (c : ascii) (r : string) :
  drop pos txt = String c r -> not_amp c = true ->
  chr_eqb (char_at txt pos) "&" = false.
Proof.
  intros D H. rewrite (char_at_drop _ _ _ _ D). apply negb_true_iff, H.
Qed.

Lemma try_xml_decode_loop_plain (fuel : nat) :
  forall (txt : string) (pos : nat) (ret : string),
    size txt - pos < fuel -> all_chars not_amp (drop pos txt) = true ->
    try_xml_decode_loop fuel txt pos ret = Ret (ret ++ drop pos txt).
Proof.
  induction fuel as [|fuel IH]; intros txt pos ret Hf Ha; [lia|].
  simpl. destruct (drop pos txt) as [|c r] eqn:D.
  - apply drop_empty_iff in D. apply Nat.ltb_ge in D. rewrite D.
    rewrite app_nil_r_s. reflexivity.
  - assert (Hlt : pos < size txt).
    { apply Nat.nle_gt. intros Hle. apply drop_empty_iff in Hle. congruence. }
    apply Nat.ltb_lt in Hlt. rewrite Hlt. simpl in Ha.
    apply andb_true_iff in Ha as [Hc Hr].
    rewrite (char_at_not_amp _ _ _ _ D Hc). simpl.
    rewrite (char_at_drop _ _ _ _ D).
    rewrite IH; [rewrite (drop_S _ _ _ _ D), push_back_app; reflexivity| |].
    + apply Nat.ltb_lt in Hlt. lia.
    + rewrite (drop_S _ _ _ _ D). exact Hr.
Qed.

Lemma try_xml_decode_loop_size (fuel : nat) :
  forall (txt : string) (pos : nat) (ret r : string),
    try_xml_decode_loop fuel txt pos ret = Ret r ->
    size r <= size ret + (size txt - pos).
Proof.
  induction fuel as [|fuel IH]; intros txt pos ret r H; [discriminate|].
  simpl in H. destruct (Nat.ltb_spec pos (size txt)) as [Hlt|Hge].
  - destruct (if chr_eqb (char_at txt pos) "&"
              then scan_entity 5 (drop (S pos) txt) EmptyString
              else (false, EmptyString)) as [found_end entity].
    destruct (if found_end && nonempty entity then xml_entities entity
              else None);
      apply IH in H; rewrite size_push_back in H; lia.
  - inversion H; subst. lia.
Qed.

(** X6: [try_xml_decode] returns a text without an ampersand as it is, and
    never returns a text longer than the one it was given. *)
Theorem try_xml_decode_plain_and_short (txt : string) :
  (all_chars not_amp txt = true -> try_xml_decode txt = Ret txt) /\
  (forall r, try_xml_decode txt = Ret r -> size r <= size txt).
Proof.
  unfold try_xml_decode. split.
  - intros H. rewrite try_xml_decode_loop_plain; auto. lia.
  - intros r H. apply try_xml_decode_loop_size in H. simpl in H. lia.
Qed.

Lemma try_xml_decode_plain_and_short_witness :
  try_xml_decode "20210115120000[-5:EST]" = Ret "20210115120000[-5:EST]" /\
  size "a&b" <= size "a&amp;b".
Proof.
  split.
  - apply (try_xml_decode_plain_and_short "20210115120000[-5:EST]").
    reflexivity.
  - apply (try_xml_decode_plain_and_short "a&amp;b"). reflexivity.
Defined.

Lemma size_xml_escape_char (c : ascii) : 0 < size (xml_escape_char c).
Proof.
  unfold xml_escape_char.
  repeat match goal with
    | |- context [if ?b then _ else _] => destruct b
    end; simpl; lia.
Qed.

(** One character of the escaped text is decoded in one pass of the loop. *)
Lemma try_xml_decode_loop_escaped_char (fuel : nat) (pre rest ret : string)
    (c : ascii) :
  exists n,
    n = size (xml_escape_char c) /\
    try_xml_decode_loop (S fuel) (pre ++ xml_escape_char c ++ rest)
      (size pre) ret
    = try_xml_decode_loop fuel (pre ++ xml_escape_char c ++ rest)
        (size pre + n) (push_back ret c).
Proof.
  exists (size (xml_escape_char c)). split; [reflexivity|].
  set (txt := pre ++ xml_escape_char c ++ rest).
  assert (D : drop (size pre) txt = xml_escape_char c ++ rest)
    by apply drop_app_exact.
  assert (Hlt : (size pre <? size txt) = true).
  { apply Nat.ltb_lt. unfold txt. rewrite !size_app.
    pose proof (size_xml_escape_char c). lia. }
  cbn [try_xml_decode_loop]. rewrite Hlt.
  unfold xml_escape_char in *.
  destruct (chr_eqb c dquote) eqn:E1;
    [apply chr_eqb_eq in E1; subst c|
     destruct (chr_eqb c "&") eqn:E2;
     [apply chr_eqb_eq in E2; subst c|
      destruct (chr_eqb c "'") eqn:E3;
      [apply chr_eqb_eq in E3; subst c|
       destruct (chr_eqb c "<") eqn:E4;
       [apply chr_eqb_eq in E4; subst c|
        destruct (chr_eqb c ">") eqn:E5;
        [apply chr_eqb_eq in E5; subst c|]]]]];
    simpl in D; rewrite (char_at_drop _ _ _ _ D);
    try (rewrite (drop_S _ _ _ _ D); reflexivity).
  rewrite E2. cbv iota. cbn [andb]. cbv iota.
  replace (size pre + size (String c "")) with (S (size pre))
    by (simpl; lia).
  reflexivity.
Qed.

Lemma try_xml_decode_loop_escaped (s : string) :
  forall (fuel : nat) (pre ret : string),
    size s < fuel ->
    try_xml_decode_loop fuel (pre ++ xml_escape s) (size pre) ret
    = Ret (ret ++ s).
Proof.
  induction s as [|c s IH]; intros fuel pre ret Hf.
  - destruct fuel as [|fuel]; [lia|]. simpl.
    rewrite app_nil_r_s, Nat.ltb_irrefl, app_nil_r_s. reflexivity.
  - destruct fuel as [|fuel]; [simpl in Hf; lia|].
    cbn [xml_escape].
    destruct (try_xml_decode_loop_escaped_char fuel pre (xml_escape s) ret c)
      as (n & En & ->).
    rewrite <- app_assoc_s.
    replace (size pre + n) with (size (pre ++ xml_escape_char c))
      by (rewrite size_app; lia).
    rewrite IH by (simpl in Hf; lia).
    rewrite push_back_app. reflexivity.
Qed.

Lemma size_xml_escape (s : string) : size s <= size (xml_escape s).
Proof.
  induction s as [|c s IH]; simpl; [lia|].
  rewrite size_app. pose proof (size_xml_escape_char c). lia.
Qed.

(** X7: [try_xml_decode] undoes the standard escaping: a text in which the
    double quote, the ampersand, the apostrophe and the two angle brackets
    are written as their named references decodes to the text itself. *)
Theorem try_xml_decode_escape (s : string) :
  try_xml_decode (xml_escape s) = Ret s.
Proof.
  unfold try_xml_decode.
  change (xml_escape s) with ("" ++ xml_escape s) at 2.
  change 0 with (size "").
  rewrite try_xml_decode_loop_escaped; [reflexivity|].
  pose proof (size_xml_escape s). simpl. lia.
Qed.

(** ** parse_digits reads decimal numbers *)

Lemma take_app_exact (a b : string) : take (size a) (a ++ b) = a.
Proof. induction a as [|c a IH]; simpl; [destruct b|f_equal]; auto. Qed.

Lemma dec_value_acc (ds : string) :
  forall acc : Z,
    dec_value ds acc = (acc * 10 ^ Z.of_nat (size ds) + dec_value ds 0)%Z.
Proof.
  induction ds as [|c r IH]; intros acc.
  - simpl. lia.
  - cbn [dec_value size String.length]. rewrite (IH (acc * 10 + digit_val c)%Z).
    rewrite (IH (0 * 10 + digit_val c)%Z).
    rewrite Nat2Z.inj_succ, Z.pow_succ_r by lia. fold (size r). lia.
Qed.

Lemma dec_value_bound (ds : string) :
  all_digits ds = true ->
  (0 <= dec_value ds 0 < 10 ^ Z.of_nat (size ds))%Z.
Proof.
  induction ds as [|c r IH]; intros H.
  - simpl. lia.
  - simpl in H. apply andb_true_iff in H as [Hc Hr].
    pose proof (isdigit_digit_val c Hc). specialize (IH Hr).
    cbn [dec_value size String.length]. rewrite dec_value_acc.
    rewrite Nat2Z.inj_succ, Z.pow_succ_r by lia. fold (size r). nia.
Qed.

Section Digits.

(** The two integer types [parse_digits] is used at: both keep a value that
    fits in 31 bits. *)
Variable wrap : Z -> Z.
Hypothesis wrap_small : forall z, (0 <= z < 2147483648)%Z -> wrap z = z.

Lemma parse_digits_loop_exact (bounded : bool) (ds : string) :
  forall (i : nat) (val : Z),
    all_digits ds = true -> (0 <= val)%Z ->
    (dec_value ds val < 2147483648)%Z ->
    parse_digits_loop wrap bounded ds i val = (i + size ds, dec_value ds val).
Proof.
  induction ds as [|c r IH]; intros i val Hd Hv Hb; simpl.
  - f_equal. lia.
  - simpl in Hd. apply andb_true_iff in Hd as [Hc Hr]. rewrite Hc.
    pose proof (isdigit_digit_val c Hc) as Hdv. simpl in Hb.
    pose proof (dec_value_ge r (val * 10 + digit_val c)%Z Hr ltac:(lia)).
    rewrite (wrap_small (val * 10)) by lia.
    rewrite (wrap_small (val * 10 + digit_val c)) by lia.
    destruct (Z.ltb_spec (val * 10 + digit_val c) val); [lia|].
    rewrite IH by (auto; lia). f_equal. lia.
Qed.

Lemma parse_digits_loop_run (ds rest : string) (i : nat) (val : Z) :
  all_digits ds = true -> starts_with_digit rest = false ->
  0 < i + size ds -> (0 <= val)%Z -> (dec_value ds val < 2147483648)%Z ->
  parse_digits_loop wrap false (ds ++ rest) i val
  = (i + size ds, dec_value ds val).
Proof.
  revert i val. induction ds as [|c r IH]; intros i val Hd Hr Hi Hv Hb; simpl.
  - simpl in Hi. destruct rest as [|c r]; simpl; [f_equal; lia|].
    simpl in Hr. rewrite Hr.
    destruct (Nat.eqb_spec i 0); [lia|]. simpl. f_equal. lia.
  - simpl in Hd. apply andb_true_iff in Hd as [Hc Hd]. rewrite Hc.
    pose proof (isdigit_digit_val c Hc) as Hdv. simpl in Hb.
    pose proof (dec_value_ge r (val * 10 + digit_val c)%Z Hd ltac:(lia)).
    rewrite (wrap_small (val * 10)) by lia.
    rewrite (wrap_small (val * 10 + digit_val c)) by lia.
    destruct (Z.ltb_spec (val * 10 + digit_val c) val); [lia|].
    rewrite IH by (auto; simpl; lia). f_equal. simpl. lia.
Qed.

Lemma parse_digits_loop_bounded_fail (win : string) :
  forall (i : nat) (val : Z),
    all_digits win = false ->
    fst (parse_digits_loop wrap true win i val) = 0.
Proof.
  induction win as [|c r IH]; intros i val H; simpl in *; [discriminate|].
  destruct (isdigit c); simpl in *; [|reflexivity].
  destruct (_ <? _)%Z; [reflexivity | apply IH, H].
Qed.

Lemma parse_digits_exact_gen :
  (forall (text : string) (pos l : nat),
     pos + l <= size text ->
     all_digits (take l (drop pos text)) = true ->
     (dec_value (take l (drop pos text)) 0 < 2147483648)%Z ->
     parse_digits wrap text pos (Some l)
     = (l, dec_value (take l (drop pos text)) 0)) /\
  (forall (text : string) (pos l : nat),
     size text < pos + l \/ all_digits (take l (drop pos text)) = false ->
     fst (parse_digits wrap text pos (Some l)) = 0) /\
  (forall (text : string) (pos : nat) (ds rest : string),
     drop pos text = ds ++ rest -> ds <> EmptyString ->
     all_digits ds = true -> starts_with_digit rest = false ->
     (dec_value ds 0 < 2147483648)%Z ->
     parse_digits wrap text pos None = (size ds, dec_value ds 0)) /\
  (forall (text : string) (pos : nat),
     starts_with_digit (drop pos text) = false ->
     fst (parse_digits wrap text pos None) = 0).
Proof.
  unfold parse_digits. repeat split.
  - intros text pos l Hl Hd Hb.
    destruct (Nat.ltb_spec (size text) (pos + l)); [lia|].
    rewrite parse_digits_loop_exact by (auto; lia).
    rewrite size_take by (rewrite size_drop; lia). reflexivity.
  - intros text pos l [H|H].
    + apply Nat.ltb_lt in H. rewrite H. reflexivity.
    + destruct (size text <? pos + l); [reflexivity|].
      apply parse_digits_loop_bounded_fail, H.
  - intros text pos ds rest D Hne Hd Hr Hb. rewrite D.
    apply (parse_digits_loop_run ds rest 0 0%Z); auto; try lia.
    destruct ds; [congruence | simpl; lia].
  - intros text pos H. destruct (drop pos text) as [|c r]; simpl in *;
      [reflexivity|]. rewrite H. reflexivity.
Qed.

End Digits.

Lemma wrap_uint_small (z : Z) : (0 <= z < 2147483648)%Z -> wrap_uint z = z.
Proof. intros H. unfold wrap_uint. apply Z.mod_small. lia. Qed.

Lemma wrap_int_small_pos (z : Z) : (0 <= z < 2147483648)%Z -> wrap_int z = z.
Proof. intros H. apply wrap_int_small. lia. Qed.

(** X8: with a length given, [parse_digits] returns that length and the
    decimal value of the window when the window lies in the text and holds
    digits only (and the value fits the integer), and 0 otherwise; with no
    length it returns the length and the value of the run of digits at the
    cursor, and 0 when there is no digit there.  This holds at [int] and at
    [unsigned int]. *)
Theorem parse_digits_exact (wrap : Z -> Z) :
  wrap = wrap_int \/ wrap = wrap_uint ->
  (forall (text : string) (pos l : nat),
     pos + l <= size text ->
     all_digits (take l (drop pos text)) = true ->
     (dec_value (take l (drop pos text)) 0 < 2147483648)%Z ->
     parse_digits wrap text pos (Some l)
     = (l, dec_value (take l (drop pos text)) 0)) /\
  (forall (text : string) (pos l : nat),
     size text < pos + l \/ all_digits (take l (drop pos text)) = false ->
     fst (parse_digits wrap text pos (Some l)) = 0) /\
  (forall (text : string) (pos : nat) (ds rest : string),
     drop pos text = ds ++ rest -> ds <> EmptyString ->
     all_digits ds = true -> starts_with_digit rest = false ->
     (dec_value ds 0 < 2147483648)%Z ->
     parse_digits wrap text pos None = (size ds, dec_value ds 0)) /\
  (forall (text : string) (pos : nat),
     starts_with_digit (drop pos text) = false ->
     fst (parse_digits wrap text pos None) = 0).
Proof.
  intros [->| ->]; apply parse_digits_exact_gen;
    [exact wrap_int_small_pos | exact wrap_uint_small].
Qed.

Lemma parse_digits_exact_witness :
  parse_digits wrap_int "20210115" 4 (Some 2)
  = (2, dec_value (take 2 (drop 4 "20210115")) 0) /\
  fst (parse_digits wrap_int "2021-115" 4 (Some 2)) = 0 /\
  parse_digits wrap_int "[-5:EST]" 2 None = (size "5", dec_value "5" 0) /\
  fst (parse_digits wrap_int "[-:EST]" 2 None) = 0.
Proof.
  destruct (parse_digits_exact wrap_int (or_introl eq_refl))
    as (H1 & H2 & H3 & H4).
  split; [|split; [|split]].
  - apply H1; [vm_compute; lia | reflexivity | reflexivity].
  - apply H2. right. reflexivity.
  - apply (H3 "[-5:EST]" 2 "5" ":EST]");
      [reflexivity | discriminate | reflexivity | reflexivity | reflexivity].
  - apply H4. reflexivity.
Defined.

(** ** parse_datetime on texts of digits *)

Arguments wrap_int : simpl never.

Lemma all_digits_app (a b : string) :
  all_digits (a ++ b) = all_digits a && all_digits b.
Proof.
  induction a as [|c a IH]; simpl; [reflexivity|].
  rewrite IH, andb_assoc. reflexivity.
Qed.

(** A field of at most four digits that follows [pre] in the text. *)
Lemma parse_digits_field (pre fld rest : string) :
  all_digits fld = true -> size fld <= 4 ->
  parse_digits wrap_int (pre ++ fld ++ rest) (size pre) (Some (size fld))
  = (size fld, number_of fld).
Proof.
  intros Hd Hs.
  assert (W : take (size fld) (drop (size pre) (pre ++ fld ++ rest)) = fld)
    by (rewrite drop_app_exact; apply take_app_exact).
  pose proof (dec_value_bound fld Hd) as B.
  assert (P : (10 ^ Z.of_nat (size fld) <= 10 ^ 4)%Z)
    by (apply Z.pow_le_mono_r; lia).
  destruct (parse_digits_exact_gen wrap_int wrap_int_small_pos) as (H & _).
  rewrite H; rewrite ?W; auto.
  - rewrite !size_app. lia.
  - change (10 ^ 4)%Z with 10000%Z in P. lia.
Qed.

Lemma number_of_range (fld : string) (n : nat) :
  all_digits fld = true -> size fld = n -> n <= 4 ->
  (0 <= number_of fld < 10000)%Z.
Proof.
  intros Hd Hs Hn. pose proof (dec_value_bound fld Hd) as B.
  assert (P : (10 ^ Z.of_nat (size fld) <= 10 ^ 4)%Z)
    by (apply Z.pow_le_mono_r; lia).
  change (10 ^ 4)%Z with 10000%Z in P. unfold number_of. lia.
Qed.

Ltac range_cases :=
  unfold in_range;
  repeat match goal with
    | |- context [(?a =? ?b)%Z] => destruct (Z.eqb_spec a b)
    | |- context [(?a <? ?b)%Z] => destruct (Z.ltb_spec a b)
    | |- context [(?a <=? ?b)%Z] => destruct (Z.leb_spec a b)
    end; simpl; try reflexivity; try lia.

(** The date fields: what [parse_datetime] makes of the first eight
    characters when they are digits. *)
Lemma parse_date_fields (y mo d rest : string) :
  size y = 4 -> size mo = 2 -> size d = 2 ->
  all_digits y = true -> all_digits mo = true -> all_digits d = true ->
  let text := y ++ mo ++ d ++ rest in
  parse_digits wrap_int text 0 (Some 4) = (4, number_of y) /\
  parse_digits wrap_int text 4 (Some 2) = (2, number_of mo) /\
  parse_digits wrap_int text 6 (Some 2) = (2, number_of d).
Proof.
  intros Sy Sm Sd Dy Dm Dd text. unfold text. repeat split.
  - pose proof (parse_digits_field "" y (mo ++ d ++ rest) Dy ltac:(lia)) as P.
    simpl in P. rewrite Sy in P. exact P.
  - pose proof (parse_digits_field y mo (d ++ rest) Dm ltac:(lia)) as P.
    rewrite Sy, Sm in P. exact P.
  - pose proof (parse_digits_field (y ++ mo) d rest Dd ltac:(lia)) as P.
    rewrite size_app, Sy, Sm, Sd, app_assoc_s in P. exact P.
Qed.

(** [parse_datetime] on texts of eight and of fourteen digits. *)
Lemma parse_datetime_digits_gen :
  (forall y mo d : string,
     size y = 4 -> size mo = 2 -> size d = 2 ->
     all_digits y = true -> all_digits mo = true -> all_digits d = true ->
     parse_datetime (y ++ mo ++ d)
     = if in_range 1 12 (number_of mo) && in_range 1 31 (number_of d)
       then Some (mk_datetime
                    (mk_tm (number_of y - 1900) (number_of mo - 1)
                       (number_of d) 0 0 0) None 0)
       else None) /\
  (forall y mo d h mi s : string,
     size y = 4 -> size mo = 2 -> size d = 2 ->
     size h = 2 -> size mi = 2 -> size s = 2 ->
     all_digits y = true -> all_digits mo = true -> all_digits d = true ->
     all_digits h = true -> all_digits mi = true -> all_digits s = true ->
     parse_datetime (y ++ mo ++ d ++ h ++ mi ++ s)
     = if in_range 1 12 (number_of mo) && in_range 1 31 (number_of d)
          && (number_of h <=? 23)%Z && (number_of mi <=? 59)%Z
          && (number_of s <=? 60)%Z
       then Some (mk_datetime
                    (mk_tm (number_of y - 1900) (number_of mo - 1)
                       (number_of d) (number_of h) (number_of mi)
                       (number_of s)) None 0)
       else None).
Proof.
  split.
  - intros y mo d Sy Sm Sd Dy Dm Dd.
    destruct (parse_date_fields y mo d "" Sy Sm Sd Dy Dm Dd) as (P0 & P4 & P6).
    rewrite app_nil_r_s in P0, P4, P6.
    pose proof (number_of_range y 4 Dy Sy ltac:(lia)) as Ry.
    pose proof (number_of_range mo 2 Dm Sm ltac:(lia)) as Rm.
    pose proof (number_of_range d 2 Dd Sd ltac:(lia)) as Rd.
    assert (L : size (y ++ mo ++ d) = 8) by (rewrite !size_app; lia).
    unfold parse_datetime. cbv zeta. rewrite L, P0, P4, P6.
    rewrite (wrap_int_small (number_of y - 1900)) by lia.
    cbn [Nat.ltb Nat.leb Nat.eqb orb].
    range_cases; rewrite wrap_int_small by lia; reflexivity.
  - intros y mo d h mi s Sy Sm Sd Sh Si Ss Dy Dm Dd Dh Di Ds.
    destruct (parse_date_fields y mo d (h ++ mi ++ s) Sy Sm Sd Dy Dm Dd)
      as (P0 & P4 & P6).
    set (text := y ++ mo ++ d ++ h ++ mi ++ s) in *.
    assert (P8 : parse_digits wrap_int text 8 (Some 2) = (2, number_of h)).
    { pose proof (parse_digits_field (y ++ mo ++ d) h (mi ++ s) Dh ltac:(lia))
        as P.
      rewrite !size_app, Sy, Sm, Sd, Sh, !app_assoc_s in P. exact P. }
    assert (P10 : parse_digits wrap_int text 10 (Some 2) = (2, number_of mi)).
    { pose proof (parse_digits_field (y ++ mo ++ d ++ h) mi s Di ltac:(lia))
        as P.
      rewrite !size_app, Sy, Sm, Sd, Sh, Si, !app_assoc_s in P. exact P. }
    assert (P12 : parse_digits wrap_int text 12 (Some 2) = (2, number_of s)).
    { pose proof (parse_digits_field (y ++ mo ++ d ++ h ++ mi) s "" Ds
                    ltac:(lia)) as P.
      rewrite !size_app, Sy, Sm, Sd, Sh, Si, Ss, !app_assoc_s, app_nil_r_s in P.
      exact P. }
    pose proof (number_of_range y 4 Dy Sy ltac:(lia)) as Ry.
    pose proof (number_of_range mo 2 Dm Sm ltac:(lia)) as Rm.
    pose proof (number_of_range d 2 Dd Sd ltac:(lia)) as Rd.
    assert (L : size text = 14) by (unfold text; rewrite !size_app; lia).
    unfold parse_datetime. cbv zeta. rewrite L, P0, P4, P6, P8, P10, P12.
    rewrite (wrap_int_small (number_of y - 1900)) by lia.
    cbn [Nat.ltb Nat.leb Nat.eqb orb].
    range_cases; rewrite wrap_int_small by lia; reflexivity.
Qed.

(** X9: on a text of eight digits YYYYMMDD [parse_datetime] succeeds exactly
    when the month is 1 to 12 and the day 1 to 31, and then gives the year,
    month and day the digits denote, at midnight, with offset 0.  On a text of
    fourteen digits YYYYMMDDHHMMSS it succeeds exactly when moreover the hour
    is at most 23, the minute at most 59 and the second at most 60, and gives
    the six numbers. *)
Theorem parse_datetime_digits :
  (forall y mo d : string,
     size y = 4 -> size mo = 2 -> size d = 2 ->
     all_digits y = true -> all_digits mo = true -> all_digits d = true ->
     parse_datetime (y ++ mo ++ d)
     = if in_range 1 12 (number_of mo) && in_range 1 31 (number_of d)
       then Some (mk_datetime
                    (mk_tm (number_of y - 1900) (number_of mo - 1)
                       (number_of d) 0 0 0) None 0)
       else None) /\
  (forall y mo d h mi s : string,
     size y = 4 -> size mo = 2 -> size d = 2 ->
     size h = 2 -> size mi = 2 -> size s = 2 ->
     all_digits y = true -> all_digits mo = true -> all_digits d = true ->
     all_digits h = true -> all_digits mi = true -> all_digits s = true ->
     parse_datetime (y ++ mo ++ d ++ h ++ mi ++ s)
     = if in_range 1 12 (number_of mo) && in_range 1 31 (number_of d)
          && (number_of h <=? 23)%Z && (number_of mi <=? 59)%Z
          && (number_of s <=? 60)%Z
       then Some (mk_datetime
                    (mk_tm (number_of y - 1900) (number_of mo - 1)
                       (number_of d) (number_of h) (number_of mi)
                       (number_of s)) None 0)
       else None).
Proof. exact parse_datetime_digits_gen. Qed.

Lemma parse_datetime_digits_witness :
  parse_datetime ("2021" ++ "02" ++ "31")
  = (if in_range 1 12 (number_of "02") && in_range 1 31 (number_of "31")
     then Some (mk_datetime
                  (mk_tm (number_of "2021" - 1900) (number_of "02" - 1)
                     (number_of "31") 0 0 0) None 0)
     else None) /\
  parse_datetime ("2021" ++ "01" ++ "15" ++ "24" ++ "00" ++ "00")
  = (if in_range 1 12 (number_of "01") && in_range 1 31 (number_of "15")
        && (number_of "24" <=? 23)%Z && (number_of "00" <=? 59)%Z
        && (number_of "00" <=? 60)%Z
     then Some (mk_datetime
                  (mk_tm (number_of "2021" - 1900) (number_of "01" - 1)
                     (number_of "15") (number_of "24") (number_of "00")
                     (number_of "00")) None 0)
     else None).
Proof.
  destruct parse_datetime_digits as (H8 & H14).
  split; [apply H8 | apply H14]; reflexivity.
Defined.

(** ** What a decoded timestamp holds *)

Ltac field_in H E :=
  match type of H with
  | context [parse_digits ?w ?t ?p ?l] =>
      destruct (parse_digits w t p l) as [?n ?v] eqn:E
  end;
  match type of H with
  | (if ?c then None else _) = _ =>
      let C := fresh "C" in
      destruct c eqn:C; [discriminate H|];
      repeat (apply orb_false_iff in C; destruct C as [C ?]);
      apply Nat.eqb_neq in C;
      pose proof (parse_digits_nonneg _ _ _ _ _ E C)
  end.

(** The fields of a timestamp that [parse_datetime] accepts. *)
Lemma parse_datetime_fields (text : string) (d : datetime) :
  parse_datetime text = Some d ->
  (size text = 8 \/ size text = 14 \/ 18 <= size text) /\
  (0 <= tm_year (dt_tm d) + 1900 <= 9999)%Z /\
  (0 <= tm_mon (dt_tm d) <= 11)%Z /\
  (1 <= tm_mday (dt_tm d) <= 31)%Z /\
  (0 <= tm_hour (dt_tm d) <= 23)%Z /\
  (0 <= tm_min (dt_tm d) <= 59)%Z /\
  (0 <= tm_sec (dt_tm d) <= 60)%Z /\
  (size text = 8 ->
   tm_hour (dt_tm d) = 0%Z /\ tm_min (dt_tm d) = 0%Z /\ tm_sec (dt_tm d) = 0%Z) /\
  (size text < 18 -> dt_msecs d = None /\ dt_tzoff_min d = 0%Z).
Proof.
  unfold parse_datetime. intros H.
  destruct (Nat.ltb_spec (size text) 8) as [|L8]; [discriminate|].
  field_in H E0. field_in H E4. field_in H E6.
  repeat match goal with
    | X : (_ <? _)%Z = false |- _ => apply Z.ltb_ge in X
    | X : (_ =? _)%Z = false |- _ => apply Z.eqb_neq in X
    end.
  assert (Wy : wrap_int (v - 1900) = (v - 1900)%Z)
    by (apply wrap_int_small; lia).
  assert (Wm : wrap_int (v0 - 1) = (v0 - 1)%Z) by (apply wrap_int_small; lia).
  rewrite Wy, Wm in H.
  destruct (Nat.leb_spec 14 (size text)) as [L14|L14].
  - field_in H E8. field_in H E10. field_in H E12.
    repeat match goal with
      | X : (_ <? _)%Z = false |- _ => apply Z.ltb_ge in X
      end.
    destruct (Nat.leb_spec 18 (size text)) as [L18|L18].
    + break_in H; inversion H; subst d; simpl;
        repeat split; try lia; intros; lia.
    + destruct (Nat.ltb_spec 14 (size text)); [discriminate|].
      inversion H; subst d; simpl.
      repeat split; try lia; intros; lia.
  - destruct (Nat.ltb_spec 8 (size text)); [discriminate|].
    inversion H; subst d; simpl.
    repeat split; try lia; intros; lia.
Qed.

(** X10: a text that [parse_datetime] accepts has 8, 14 or at least 18
    characters, and the timestamp it gives has a year from 0 to 9999, a month
    from 1 to 12 (kept as 0 to 11), a day from 1 to 31, an hour up to 23, a
    minute up to 59 and a second up to 60; a text of 8 characters gives
    midnight, and one of fewer than 18 has offset 0 and leaves the
    milliseconds unset. *)
Theorem parse_datetime_in_range (text : string) (d : datetime) :
  parse_datetime text = Some d ->
  (size text = 8 \/ size text = 14 \/ 18 <= size text) /\
  (0 <= tm_year (dt_tm d) + 1900 <= 9999)%Z /\
  (0 <= tm_mon (dt_tm d) <= 11)%Z /\
  (1 <= tm_mday (dt_tm d) <= 31)%Z /\
  (0 <= tm_hour (dt_tm d) <= 23)%Z /\
  (0 <= tm_min (dt_tm d) <= 59)%Z /\
  (0 <= tm_sec (dt_tm d) <= 60)%Z /\
  (size text = 8 ->
   tm_hour (dt_tm d) = 0%Z /\ tm_min (dt_tm d) = 0%Z /\ tm_sec (dt_tm d) = 0%Z) /\
  (size text < 18 -> dt_msecs d = None /\ dt_tzoff_min d = 0%Z).
Proof. exact (parse_datetime_fields text d). Qed.

Lemma parse_datetime_in_range_witness :
  (size "20210115" = 8 \/ size "20210115" = 14 \/ 18 <= size "20210115") /\
  (0 <= 121 + 1900 <= 9999)%Z /\ (0 <= 0 <= 11)%Z /\ (1 <= 15 <= 31)%Z /\
  (0 <= 0 <= 23)%Z /\ (0 <= 0 <= 59)%Z /\ (0 <= 0 <= 60)%Z /\
  (size "20210115" = 8 -> 0%Z = 0%Z /\ 0%Z = 0%Z /\ 0%Z = 0%Z) /\
  (size "20210115" < 18 -> @None Z = None /\ 0%Z = 0%Z).
Proof.
  apply (parse_datetime_in_range "20210115"
           (mk_datetime (mk_tm 121 0 15 0 0 0) None 0)).
  reflexivity.
Defined.

(** ** The text of a timestamp *)

Lemma Z_range_check (P : Z -> bool) (n : nat) :
  forallb P (map Z.of_nat (seq 0 n)) = true ->
  forall z, (0 <= z < Z.of_nat n)%Z -> P z = true.
Proof.
  intros H z Hz. rewrite forallb_forall in H. apply H.
  apply in_map_iff. exists (Z.to_nat z). split; [lia|].
  apply in_seq. lia.
Qed.

(** A number below [10 ^ w] is written by [%0<w>d] as the [w] digits that
    denote it (checked for two and for four digits). *)
Lemma fmt_ok_2 (z : Z) : (0 <= z < 100)%Z -> fmt_ok 2 z = true.
Proof. apply (Z_range_check (fmt_ok 2) 100). vm_compute. reflexivity. Qed.

Lemma fmt_ok_4 (z : Z) : (0 <= z < 10000)%Z -> fmt_ok 4 z = true.
Proof. apply (Z_range_check (fmt_ok 4) (100 * 100)). vm_compute. reflexivity. Qed.

Lemma fmt_ok_facts (w : nat) (z : Z) :
  fmt_ok w z = true ->
  size (fmt_int false w z) = w /\ all_digits (fmt_int false w z) = true /\
  number_of (fmt_int false w z) = z.
Proof.
  unfold fmt_ok. intros H.
  apply andb_true_iff in H as [H H3]. apply andb_true_iff in H as [H1 H2].
  apply Nat.eqb_eq in H1. apply Z.eqb_eq in H3. auto.
Qed.

(** The zone of a whole number of hours up to twelve is written in three
    characters. *)
Lemma fmt_zone_size (k : Z) :
  (-12 <= k <= 12)%Z -> size (fmt_int true 3 k) = 3.
Proof.
  intros H.
  pose proof (Z_range_check
                (fun z => size (fmt_int true 3 (z - 12)) =? 3) 25
                ltac:(vm_compute; reflexivity) (k + 12)%Z ltac:(lia)) as C.
  cbv beta in C. replace (k + 12 - 12)%Z with k in C by lia.
  apply Nat.eqb_eq, C.
Qed.

Lemma strftime_FT_size (t : tm) :
  (0 <= tm_year t + 1900 <= 9999)%Z -> (0 <= tm_mon t <= 11)%Z ->
  (1 <= tm_mday t <= 31)%Z -> (0 <= tm_hour t <= 23)%Z ->
  (0 <= tm_min t <= 59)%Z -> (0 <= tm_sec t <= 60)%Z ->
  size (strftime_FT t) = 19.
Proof.
  intros Hy Hm Hd Hh Hi Hs. unfold strftime_FT.
  destruct (fmt_ok_facts 4 _ (fmt_ok_4 (tm_year t + 1900) ltac:(lia))) as (S1 & _).
  destruct (fmt_ok_facts 2 _ (fmt_ok_2 (tm_mon t + 1) ltac:(lia))) as (S2 & _).
  destruct (fmt_ok_facts 2 _ (fmt_ok_2 (tm_mday t) ltac:(lia))) as (S3 & _).
  destruct (fmt_ok_facts 2 _ (fmt_ok_2 (tm_hour t) ltac:(lia))) as (S4 & _).
  destruct (fmt_ok_facts 2 _ (fmt_ok_2 (tm_min t) ltac:(lia))) as (S5 & _).
  destruct (fmt_ok_facts 2 _ (fmt_ok_2 (tm_sec t) ltac:(lia))) as (S6 & _).
  rewrite !size_app, S1, S2, S3, S4, S5, S6. reflexivity.
Qed.

(** X11: the text [add_datetime] builds for a decoded timestamp is the date
    and time followed by Z when the offset is 0 and by the sign and two
    digits of the hours otherwise; minutes are never written.  It fits, with
    its terminator, the 26 characters of [buf]; from the year 1000 on the
    date and time take 19 characters and the text 20 or 22. *)
Theorem format_datetime_shape (text : string) (d : datetime) :
  parse_datetime text = Some d ->
  format_datetime d
  = strftime_FT (dt_tm d)
    ++ (if (dt_tzoff_min d =? 0)%Z then "Z"
        else fmt_int true 3 (Z.quot (dt_tzoff_min d) 60)) /\
  size (format_datetime d) + 1 <= 26 /\
  ((1000 <= tm_year (dt_tm d) + 1900)%Z ->
   size (strftime_FT (dt_tm d)) = 19 /\
   size (format_datetime d) = (if (dt_tzoff_min d =? 0)%Z then 20 else 22)).
Proof.
  intros H.
  destruct (parse_datetime_tz_bound text d H) as (B & M).
  destruct (parse_datetime_fields text d H)
    as (_ & Ry & Rm & Rd & Rh & Ri & Rs & _).
  pose proof (strftime_FT_size (dt_tm d) Ry Rm Rd Rh Ri Rs) as S19.
  assert (R0 : Z.rem (Z.abs (dt_tzoff_min d)) 60 = 0%Z).
  { rewrite Z.rem_mod_nonneg by lia.
    destruct (Z.abs_spec (dt_tzoff_min d)) as [[_ ->]|[_ ->]]; [exact M|].
    apply Z.mod_opp_l_z; [lia | exact M]. }
  assert (Q : (-12 <= Z.quot (dt_tzoff_min d) 60 <= 12)%Z).
  { split.
    - apply Z.quot_le_lower_bound; lia.
    - apply Z.quot_le_upper_bound; lia. }
  assert (F : format_datetime d
              = strftime_FT (dt_tm d)
                ++ (if (dt_tzoff_min d =? 0)%Z then "Z"
                    else fmt_int true 3 (Z.quot (dt_tzoff_min d) 60))).
  { unfold format_datetime. cbv zeta. rewrite R0.
    destruct (dt_tzoff_min d =? 0)%Z; reflexivity. }
  assert (S : size (format_datetime d)
              = if (dt_tzoff_min d =? 0)%Z then 20 else 22).
  { rewrite F, size_app, S19.
    destruct (dt_tzoff_min d =? 0)%Z; [reflexivity|].
    rewrite (fmt_zone_size _ Q). reflexivity. }
  split; [exact F|]. split; [|auto].
  rewrite S. destruct (dt_tzoff_min d =? 0)%Z; lia.
Qed.

Lemma format_datetime_shape_witness :
  format_datetime (mk_datetime (mk_tm 121 0 15 12 0 0) None (-300))
  = strftime_FT (mk_tm 121 0 15 12 0 0) ++ fmt_int true 3 (Z.quot (-300) 60) /\
  size (format_datetime
          (mk_datetime (mk_tm 121 0 15 12 0 0) None (-300))) = 22.
Proof.
  destruct (format_datetime_shape est_stamp
              (mk_datetime (mk_tm 121 0 15 12 0 0) None (-300)) eq_refl)
    as (F & _ & S).
  split; [exact F|]. apply S. simpl. lia.
Defined.

Lemma digit_val_inj (c c' : ascii) : digit_val c = digit_val c' -> c = c'.
Proof.
  unfold digit_val. intros H.
  rewrite <- (ascii_nat_embedding c), <- (ascii_nat_embedding c').
  f_equal. lia.
Qed.

(** Two texts of digits of one length that denote the same number are the
    same. *)
Lemma number_of_inj (ds : string) :
  forall ds' : string,
    all_digits ds = true -> all_digits ds' = true -> size ds = size ds' ->
    number_of ds = number_of ds' -> ds = ds'.
Proof.
  unfold number_of.
  induction ds as [|c r IH]; intros [|c' r'] Hd Hd' Hs Hn; simpl in Hs;
    try discriminate; [reflexivity|].
  simpl in Hd, Hd'. apply andb_true_iff in Hd as [Hc Hr].
  apply andb_true_iff in Hd' as [Hc' Hr'].
  cbn [dec_value] in Hn.
  rewrite (dec_value_acc r), (dec_value_acc r') in Hn.
  assert (Es : size r = size r') by lia. rewrite <- Es in Hn.
  pose proof (dec_value_bound r Hr) as B.
  pose proof (dec_value_bound r' Hr') as B'. rewrite <- Es in B'.
  pose proof (isdigit_digit_val c Hc). pose proof (isdigit_digit_val c' Hc').
  set (P := (10 ^ Z.of_nat (size r))%Z) in *.
  assert (Ec : digit_val c = digit_val c') by nia.
  rewrite Ec in Hn.
  assert (Er : dec_value r 0 = dec_value r' 0) by lia.
  f_equal; [apply digit_val_inj, Ec | apply IH; auto].
Qed.

Lemma fmt_int_digits (w : nat) (ds : string) :
  size ds = w -> all_digits ds = true -> fmt_ok w (number_of ds) = true ->
  fmt_int false w (number_of ds) = ds.
Proof.
  intros Hs Hd Hk. apply fmt_ok_facts in Hk as (K1 & K2 & K3).
  apply number_of_inj; auto. lia.
Qed.

(** X12: for a text of fourteen digits that [parse_datetime] accepts, with a
    year from 1000 on, [add_datetime] stores the same digits with the
    separators of ISO 8601 between them and a Z after them; for an accepted
    text of eight digits it stores the date in that form at T00:00:00Z. *)
Theorem add_datetime_same_digits :
  (forall (hp : heap) (val : nat) (element y mo d h mi s : string),
     size y = 4 -> size mo = 2 -> size d = 2 ->
     size h = 2 -> size mi = 2 -> size s = 2 ->
     all_digits y = true -> all_digits mo = true -> all_digits d = true ->
     all_digits h = true -> all_digits mi = true -> all_digits s = true ->
     (1000 <= number_of y)%Z ->
     in_range 1 12 (number_of mo) && in_range 1 31 (number_of d)
       && (number_of h <=? 23)%Z && (number_of mi <=? 59)%Z
       && (number_of s <=? 60)%Z = true ->
     add_datetime hp val element (y ++ mo ++ d ++ h ++ mi ++ s)
     = add_string hp val element
         (y ++ "-" ++ mo ++ "-" ++ d ++ "T" ++ h ++ ":" ++ mi ++ ":" ++ s
          ++ "Z")) /\
  (forall (hp : heap) (val : nat) (element y mo d : string),
     size y = 4 -> size mo = 2 -> size d = 2 ->
     all_digits y = true -> all_digits mo = true -> all_digits d = true ->
     (1000 <= number_of y)%Z ->
     in_range 1 12 (number_of mo) && in_range 1 31 (number_of d) = true ->
     add_datetime hp val element (y ++ mo ++ d)
     = add_string hp val element
         (y ++ "-" ++ mo ++ "-" ++ d ++ "T00:00:00Z")).
Proof.
  destruct parse_datetime_digits_gen as (H8 & H14).
  split.
  - intros hp val element y mo d h mi s Sy Sm Sd Sh Si Ss Dy Dm Dd Dh Di Ds _ R.
    unfold add_datetime.
    rewrite (H14 y mo d h mi s) by assumption. rewrite R.
    f_equal. unfold format_datetime, strftime_FT. simpl.
    replace (number_of y - 1900 + 1900)%Z with (number_of y) by lia.
    replace (number_of mo - 1 + 1)%Z with (number_of mo) by lia.
    rewrite (fmt_int_digits 4 y), (fmt_int_digits 2 mo), (fmt_int_digits 2 d),
      (fmt_int_digits 2 h), (fmt_int_digits 2 mi), (fmt_int_digits 2 s);
      auto;
      try (apply fmt_ok_2; apply (number_of_range _ 2) in Ds;
           apply (number_of_range _ 2) in Di;
           apply (number_of_range _ 2) in Dh;
           apply (number_of_range _ 2) in Dd;
           apply (number_of_range _ 2) in Dm; auto;
           unfold in_range in R;
           repeat (apply andb_true_iff in R; destruct R as [R ?]);
           repeat match goal with
             | X : (_ <=? _)%Z = true |- _ => apply Z.leb_le in X
             end; lia);
      try (apply fmt_ok_4, (number_of_range y 4); auto).
    repeat (progress (rewrite ?app_assoc_s; cbn [append])). reflexivity.
  - intros hp val element y mo d Sy Sm Sd Dy Dm Dd _ R.
    unfold add_datetime.
    rewrite (H8 y mo d) by assumption. rewrite R.
    f_equal. unfold format_datetime, strftime_FT. simpl.
    replace (number_of y - 1900 + 1900)%Z with (number_of y) by lia.
    replace (number_of mo - 1 + 1)%Z with (number_of mo) by lia.
    rewrite (fmt_int_digits 4 y), (fmt_int_digits 2 mo), (fmt_int_digits 2 d);
      auto;
      try (apply fmt_ok_2; apply (number_of_range _ 2) in Dd;
           apply (number_of_range _ 2) in Dm; auto;
           unfold in_range in R;
           repeat (apply andb_true_iff in R; destruct R as [R ?]);
           repeat match goal with
             | X : (_ <=? _)%Z = true |- _ => apply Z.leb_le in X
             end; lia);
      try (apply fmt_ok_4, (number_of_range y 4); auto).
    repeat (progress (rewrite ?app_assoc_s; cbn [append])). reflexivity.
Qed.

Lemma add_datetime_same_digits_witness :
  add_datetime [JObject []] 0 "DTSERVER"
    ("2021" ++ "01" ++ "15" ++ "12" ++ "30" ++ "59")
  = add_string [JObject []] 0 "DTSERVER"
      ("2021" ++ "-" ++ "01" ++ "-" ++ "15" ++ "T" ++ "12" ++ ":" ++ "30"
       ++ ":" ++ "59" ++ "Z") /\
  add_datetime [JObject []] 0 "DTSERVER" ("2021" ++ "01" ++ "15")
  = add_string [JObject []] 0 "DTSERVER"
      ("2021" ++ "-" ++ "01" ++ "-" ++ "15" ++ "T00:00:00Z").
Proof.
  destruct add_datetime_same_digits as (H14 & H8).
  split; [apply H14 | apply H8]; try reflexivity; vm_compute; discriminate.
Defined.

(** ** The texts parse_number accepts *)

Lemma skip_ws_end (str : string) (pos : nat) :
  size str <= skip_ws str pos -> all_space (drop pos str) = true.
Proof.
  intros H. rewrite skip_ws_lead in H.
  rewrite all_space_drop.
  assert (E : drop (lead_ws (drop pos str)) (drop pos str) = EmptyString).
  { apply drop_empty_iff. rewrite size_drop. lia. }
  rewrite E. reflexivity.
Qed.

Lemma parse_number_loop_body (rest : string) :
  forall (pos : nat) (r f : float) (isf : bool) (pos' : nat) (r' f' : float),
    parse_number_loop rest pos r f isf = Some (pos', r', f') ->
    exists n,
      pos' = pos + n /\ n <= size rest /\ number_body (take n rest) isf = true.
Proof.
  induction rest as [|c rest IH]; intros pos r f isf pos' r' f' H;
    simpl in H.
  - inversion H; subst. exists 0. simpl. repeat split; lia.
  - destruct (chr_eqb c ".") eqn:Ep.
    + destruct isf; [discriminate|].
      apply IH in H as (n & -> & Hn & Hb). exists (S n). simpl.
      rewrite Ep, Hb. repeat split; lia.
    + destruct (is_09 c) eqn:Ed.
      * match type of H with
        | (if ?b then _ else _) = _ => destruct b; [discriminate|]
        end.
        apply IH in H as (n & -> & Hn & Hb). exists (S n). simpl.
        change (isdigit c) with (is_09 c). rewrite Ep, Ed, Hb.
        repeat split; lia.
      * inversion H; subst. exists 0. simpl. repeat split; lia.
Qed.

Lemma is_sign_not_space (c : ascii) : is_sign c = true -> isspace c = false.
Proof.
  unfold is_sign. intros H. apply orb_true_iff in H.
  destruct H as [H|H]; apply chr_eqb_eq in H; subst c; reflexivity.
Qed.

(** [parse_number] up to its digit loop: for a text that has a character
    [ch] after its leading white space, the loop is run from [ch] when it is
    no sign, and from the character after it when it is a sign and the text
    goes on. *)
Lemma parse_number_head (text : string) (ch : ascii) (rest : string) :
  drop (lead_ws text) text = String ch rest ->
  parse_number text =
  if is_sign ch then
    match rest with
    | EmptyString => None
    | String _ _ =>
        match parse_number_loop rest (S (lead_ws text)) 0%float
                (if chr_eqb ch "-" then (-1)%float else 1%float) false with
        | None => None
        | Some (pos, r, f) =>
            if skip_ws text pos <? size text then None
            else Some (PrimFloat.mul r f)
        end
    end
  else
    match parse_number_loop (String ch rest) (lead_ws text) 0%float 1%float
            false with
    | None => None
    | Some (pos, r, f) =>
        if skip_ws text pos <? size text then None
        else Some (PrimFloat.mul r f)
    end.
Proof.
  intros D. unfold parse_number.
  assert (P : skip_ws text 0 = lead_ws text) by (rewrite skip_ws_lead; reflexivity).
  rewrite P, size_leb_drop, D, (char_at_drop _ _ _ _ D).
  fold (is_sign ch).
  destruct (is_sign ch) eqn:Es.
  - rewrite skip_ws_lead, D. simpl lead_ws.
    rewrite (is_sign_not_space ch Es), Nat.add_0_r.
    rewrite size_leb_drop, (drop_S _ _ _ _ D).
    destruct rest as [|c' rest']; [reflexivity|]. cbv [andb].
    reflexivity.
  - cbv [andb]. rewrite D.
    unfold is_sign in Es. apply orb_false_iff in Es as [-> _]. reflexivity.
Qed.

(** X13: a text [parse_number] accepts is made of white space, then at most
    one sign, then digits with at most one decimal point among them, then
    white space, and nothing else; without a sign there is at least a digit
    or a point, and after a sign the text goes on. *)
Theorem parse_number_accepts_numbers_only (text : string) (v : float) :
  parse_number text = Some v ->
  exists ws1 sign body ws2 : string,
    text = ws1 ++ sign ++ body ++ ws2 /\
    all_space ws1 = true /\
    (sign = "" \/ sign = "+" \/ sign = "-") /\
    number_body body false = true /\
    all_space ws2 = true /\
    (sign = "" -> body <> "") /\
    body ++ ws2 <> "".
Proof.
  intros H.
  destruct (lead_ws_spec text) as (L1 & L2 & L3).
  destruct (drop (lead_ws text) text) as [|ch rest] eqn:D.
  { unfold parse_number in H.
    assert (P : skip_ws text 0 = lead_ws text)
      by (rewrite skip_ws_lead; reflexivity).
    rewrite P, size_leb_drop, D in H. discriminate. }
  rewrite (parse_number_head text ch rest D) in H.
  pose proof (take_drop (lead_ws text) text) as T. rewrite D in T.
  destruct (is_sign ch) eqn:Es.
  - destruct rest as [|c' rest']; [discriminate|].
    destruct (parse_number_loop (String c' rest') (S (lead_ws text)) 0%float
                (if chr_eqb ch "-" then (-1)%float else 1%float) false)
      as [[[pos' r'] f']|] eqn:E; [|discriminate].
    destruct (skip_ws text pos' <? size text) eqn:Ew; [discriminate|].
    apply Nat.ltb_ge in Ew. apply skip_ws_end in Ew.
    apply parse_number_loop_body in E as (n & -> & Hn & Hb).
    assert (W : drop (S (lead_ws text) + n) text = drop n (String c' rest')).
    { rewrite <- drop_drop. rewrite (drop_S _ _ _ _ D). reflexivity. }
    rewrite W in Ew.
    exists (take (lead_ws text) text), (String ch ""),
      (take n (String c' rest')), (drop n (String c' rest')).
    split; [|split; [exact L2|split; [|split; [exact Hb|split; [exact Ew|]]]]].
    + rewrite take_drop. simpl. symmetry. exact T.
    + unfold is_sign in Es. apply orb_true_iff in Es.
      destruct Es as [Es|Es]; apply chr_eqb_eq in Es; subst ch; auto.
    + split; [discriminate|]. rewrite take_drop. discriminate.
  - destruct (parse_number_loop (String ch rest) (lead_ws text) 0%float
                1%float false) as [[[pos' r'] f']|] eqn:E; [|discriminate].
    destruct (skip_ws text pos' <? size text) eqn:Ew; [discriminate|].
    apply Nat.ltb_ge in Ew. apply skip_ws_end in Ew.
    apply parse_number_loop_body in E as (n & -> & Hn & Hb).
    rewrite <- drop_drop, D in Ew.
    exists (take (lead_ws text) text), "",
      (take n (String ch rest)), (drop n (String ch rest)).
    split; [|split; [exact L2|split; [auto|split; [exact Hb|split; [exact Ew|]]]]].
    + rewrite take_drop. simpl. symmetry. exact T.
    + assert (B : take n (String ch rest) <> "").
      { destruct n as [|n]; [|simpl; discriminate].
        simpl in Ew. simpl in L3.
        apply andb_true_iff in Ew as [Ew _]. congruence. }
      split; [intros _; exact B|].
      intros C. apply B. destruct (take n (String ch rest)); [reflexivity|].
      discriminate C.
Qed.

Lemma parse_number_accepts_numbers_only_witness :
  exists ws1 sign body ws2 : string,
    "  -12.50 " = ws1 ++ sign ++ body ++ ws2 /\
    all_space ws1 = true /\
    (sign = "" \/ sign = "+" \/ sign = "-") /\
    number_body body false = true /\
    all_space ws2 = true /\
    (sign = "" -> body <> "") /\
    body ++ ws2 <> "".
Proof.
  apply (parse_number_accepts_numbers_only "  -12.50 " (-12.5)%float).
  vm_compute. reflexivity.
Defined.

Lemma lead_ws_before (ws1 : string) (c : ascii) (rest : string) :
  all_space ws1 = true -> isspace c = false ->
  lead_ws (ws1 ++ String c rest) = size ws1 /\
  drop (lead_ws (ws1 ++ String c rest)) (ws1 ++ String c rest) = String c rest.
Proof.
  intros H1 Hc.
  assert (L : lead_ws (ws1 ++ String c rest) = size ws1).
  { rewrite lead_ws_app by exact H1. simpl. rewrite Hc. lia. }
  split; [exact L|]. rewrite L. apply drop_app_exact.
Qed.

(** X14: [parse_number] refuses a text that is empty or white space only,
    and a text that ends with its sign; a sign with nothing but white space
    after it is accepted as zero (negative zero for a minus sign). *)
Theorem parse_number_without_digits :
  (forall text : string, all_space text = true -> parse_number text = None) /\
  (forall ws1 sign : string,
     all_space ws1 = true -> sign = "+" \/ sign = "-" ->
     parse_number (ws1 ++ sign) = None) /\
  (forall ws1 sign ws2 : string,
     all_space ws1 = true -> sign = "+" \/ sign = "-" ->
     all_space ws2 = true -> ws2 <> "" ->
     parse_number (ws1 ++ sign ++ ws2)
     = Some (if String.eqb sign "-" then (-0)%float else 0%float)).
Proof.
  split; [|split].
  - intros text H. unfold parse_number.
    assert (P : skip_ws text 0 = lead_ws text)
      by (rewrite skip_ws_lead; reflexivity).
    rewrite all_space_drop in H.
    rewrite P, size_leb_drop.
    destruct (drop (lead_ws text) text); [reflexivity | discriminate].
  - intros ws1 sign H1 Hs.
    assert (exists c, sign = String c "" /\ is_sign c = true) as (c & -> & Hc)
      by (destruct Hs as [->| ->]; eexists; split; reflexivity).
    destruct (lead_ws_before ws1 c "" H1 (is_sign_not_space c Hc)) as (_ & D).
    rewrite (parse_number_head _ c "" D), Hc. reflexivity.
  - intros ws1 sign ws2 H1 Hs H2 Hn.
    assert (exists c, sign = String c "" /\ is_sign c = true) as (c & -> & Hc)
      by (destruct Hs as [->| ->]; eexists; split; reflexivity).
    simpl String.append.
    destruct (lead_ws_before ws1 c ws2 H1 (is_sign_not_space c Hc)) as (L & D).
    rewrite (parse_number_head _ c ws2 D), Hc.
    destruct ws2 as [|c2 w2] eqn:E2; [congruence|]. rewrite <- E2 in *.
    rewrite parse_number_loop_space by exact H2.
    rewrite skip_ws_lead, (drop_S _ _ _ _ D).
    rewrite (lead_ws_all_space ws2 H2), L, size_app. simpl size.
    replace (S (size ws1) + size ws2 <? size ws1 + S (size ws2)) with false
      by (symmetry; apply Nat.ltb_ge; lia).
    destruct Hs as [Hs|Hs]; inversion Hs; subst c; reflexivity.
Qed.

Lemma parse_number_without_digits_witness :
  parse_number "   " = None /\ parse_number (" " ++ "-") = None /\
  parse_number (" " ++ "-" ++ " ") = Some (-0)%float.
Proof.
  destruct parse_number_without_digits as (H1 & H2 & H3).
  split; [apply H1; reflexivity|].
  split; [apply H2; [reflexivity | right; reflexivity]|].
  apply (H3 " " "-" " "); [reflexivity | right; reflexivity | reflexivity|].
  discriminate.
Defined.

Lemma isdigit_not_point (c : ascii) : isdigit c = true -> chr_eqb c "." = false.
Proof.
  intros H. destruct (chr_eqb c ".") eqn:E; [|reflexivity].
  apply chr_eqb_eq in E. subst c. discriminate H.
Qed.

(** Over a run of digits the loop either stops on its guard or goes on
    behind the run. *)
Lemma parse_number_loop_digits (a : string) :
  forall (tl : string) (pos : nat) (r f : float) (isf : bool),
    all_digits a = true ->
    parse_number_loop (a ++ tl) pos r f isf = None \/
    exists r' f',
      parse_number_loop (a ++ tl) pos r f isf
      = parse_number_loop tl (pos + size a) r' f' isf.
Proof.
  induction a as [|c a IH]; intros tl pos r f isf H.
  - right. exists r, f. simpl. rewrite Nat.add_0_r. reflexivity.
  - simpl in H. apply andb_true_iff in H as [Hc Ha].
    simpl. rewrite (isdigit_not_point c Hc).
    change (is_09 c) with (isdigit c). rewrite Hc.
    match goal with
    | |- (if ?b then _ else _) = _ \/ _ => destruct b; [left; reflexivity|]
    end.
    replace (pos + S (size a)) with (S pos + size a) by lia.
    apply IH. exact Ha.
Qed.

Lemma parse_number_loop_two_points (a b rest : string) (pos : nat)
    (r f : float) :
  all_digits a = true -> all_digits b = true ->
  parse_number_loop (a ++ "." ++ b ++ "." ++ rest) pos r f false = None.
Proof.
  intros Ha Hb.
  destruct (parse_number_loop_digits a ("." ++ b ++ "." ++ rest) pos r f false Ha)
    as [E|(r1 & f1 & E)]; rewrite E; [reflexivity|].
  change (parse_number_loop (b ++ String "." rest) (S (pos + size a)) r1 f1 true
          = None).
  destruct (parse_number_loop_digits b (String "." rest) (S (pos + size a))
              r1 f1 true Hb) as [E2|(r2 & f2 & E2)]; rewrite E2; reflexivity.
Qed.

(** X15: a text with a second decimal point is refused, whatever follows
    that point. *)
Theorem parse_number_second_point (ws1 sign a b rest : string) :
  all_space ws1 = true -> sign = "" \/ sign = "+" \/ sign = "-" ->
  all_digits a = true -> all_digits b = true ->
  parse_number (ws1 ++ sign ++ a ++ "." ++ b ++ "." ++ rest) = None.
Proof.
  intros H1 Hs Ha Hb.
  pose proof (fun pos r f =>
                parse_number_loop_two_points a b rest pos r f Ha Hb) as T.
  remember (a ++ "." ++ b ++ "." ++ rest) as tail eqn:Et.
  assert (exists c t, tail = String c t /\ is_sign c = false /\
                      isspace c = false) as (c & t & E & Hc & Hw).
  { subst tail. destruct a as [|c a]; simpl.
    - eexists _, _. repeat split; reflexivity.
    - simpl in Ha. apply andb_true_iff in Ha as [Hc _].
      exists c, (a ++ String "." (b ++ String "." rest)).
      split; [reflexivity|].
      destruct (isdigit_not_sign c Hc) as (Hm & Hp & Hw).
      split; [|exact Hw].
      unfold is_sign. rewrite Hm, Hp. reflexivity. }
  destruct Hs as [->|Hs].
  - simpl String.append. rewrite E.
    destruct (lead_ws_before ws1 c t H1 Hw) as (_ & D).
    rewrite (parse_number_head _ c t D), Hc, <- E, T. reflexivity.
  - assert (exists s, sign = String s "" /\ is_sign s = true) as (s & -> & Hsg)
      by (destruct Hs as [->| ->]; eexists; split; reflexivity).
    simpl String.append.
    destruct (lead_ws_before ws1 s tail H1 (is_sign_not_space s Hsg)) as (_ & D).
    rewrite (parse_number_head _ s tail D), Hsg.
    rewrite E at 1. rewrite T. reflexivity.
Qed.

Lemma parse_number_second_point_witness :
  parse_number (" " ++ "-" ++ "12" ++ "." ++ "5" ++ "." ++ "3") = None.
Proof.
  apply (parse_number_second_point " " "-" "12" "5" "3"); try reflexivity.
  right; right; reflexivity.
Defined.

(** ** Closing a container *)

(** What the close tag of the front container does to the stack and the
    values, in a context whose stack is in order. *)
Lemma close_fold (pctx : process_ctx) (this parent : ofx_container)
    (rest : list ofx_container) (a : attrs) (t : string) :
  ctx_ok pctx -> ostack_ pctx = this :: parent :: rest ->
  (forall tg, In tg (tags_ this) -> fst tg <> name_ this) ->
  exists pctx',
    handle_element pctx ("/" ++ name_ this) a t = Ret (true, pctx') /\
    ostack_ pctx' = parent :: rest /\
    cerr_ pctx' = cerr_ pctx /\ doc_ pctx' = doc_ pctx /\
    ctx_ok pctx' /\
    load (heap_ pctx') (val_ this) = JNull /\
    (forall b, b <> val_ this -> b <> val_ parent ->
               load (heap_ pctx') b = load (heap_ pctx) b) /\
    (holds_array (serialize (cont_ parent)) = false ->
     exists ms,
       load (heap_ pctx) (val_ parent) = JObject ms /\
       load (heap_ pctx') (val_ parent)
       = JObject (ms ++ [(str_lower (name_ this),
                          load (heap_ pctx) (val_ this))])%list) /\
    (holds_array (serialize (cont_ parent)) = true ->
     exists l,
       load (heap_ pctx) (val_ parent) = JArray l /\
       load (heap_ pctx') (val_ parent)
       = JArray (l ++ [match serialize (cont_ this) with
                       | object_with_name_in_array =>
                           JObject [(str_lower (name_ this),
                                     load (heap_ pctx) (val_ this))]
                       | _ => load (heap_ pctx) (val_ this)
                       end])%list).
Proof.
  intros Hok Es Ht.
  assert (Hok' : forall r, handle_element pctx ("/" ++ name_ this) a t = Ret r ->
                           ctx_ok (snd r)).
  { intros [b p] E. apply (handle_element_ok _ _ _ _ _ _ Hok E). }
  unfold handle_element in *. rewrite char_at_slash in *.
  simpl negb in *. cbv iota in *. rewrite Es in *.
  change (substr1 ("/" ++ name_ this)) with (name_ this) in *.
  rewrite (handle_close_absent this (name_ this) Ht), String.eqb_refl in *.
  simpl negb in *. cbv iota in *.
  unfold ctx_ok in Hok. rewrite Es in Hok.
  destruct Hok as (Hv & Hk & Hw & Ho & Hc & Hr).
  assert (Hlt : val_ parent < val_ this) by (apply Ho; left; reflexivity).
  destruct Hr as (Hvp & Hkp & _). unfold kind_ok in Hkp.
  unfold done in *. simpl ostack_ in *. cbv iota in *.
  simpl name_ in *. simpl cont_ in *. simpl val_ in *. simpl heap_ in *.
  set (h := heap_ pctx) in *.
  set (h0 := store h (val_ this) JNull) in *.
  assert (L0 : load h0 (val_ parent) = load h (val_ parent))
    by (apply load_store_other; lia).
  assert (Hp : val_ parent < List.length h0)
    by (unfold h0; rewrite length_store; lia).
  assert (Fin : forall v' : json,
            load (store h0 (val_ parent) v') (val_ this) = JNull /\
            load (store h0 (val_ parent) v') (val_ parent) = v' /\
            forall b, b <> val_ this -> b <> val_ parent ->
                      load (store h0 (val_ parent) v') b = load h b).
  { intros v'. split; [|split].
    - rewrite load_store_other by lia. apply load_store_same. exact Hv.
    - apply load_store_same. exact Hp.
    - intros b B1 B2. rewrite load_store_other by auto.
      apply load_store_other. auto. }
  destruct (holds_array (serialize (cont_ parent))) eqn:Ea.
  - destruct (load h (val_ parent)) as [| | | |l|] eqn:El; try discriminate.
    assert (Ep : forall v, PushBack h0 (val_ parent) v
                           = Ret (store h0 (val_ parent) (JArray (l ++ [v])%list))).
    { intros v. unfold PushBack. rewrite L0. reflexivity. }
    destruct (serialize (cont_ this)) eqn:Et; simpl in Hc; rewrite ?Ea in Hc;
      try discriminate;
      rewrite Ep in *; eexists; (split; [reflexivity|]);
      (split; [reflexivity|]); (split; [reflexivity|]); (split; [reflexivity|]);
      (split; [apply (Hok' _ eq_refl)|]);
      match goal with
      | |- context [store h0 (val_ parent) ?v'] =>
          destruct (Fin v') as (F1 & F2 & F3)
      end;
      simpl heap_;
      (split; [exact F1|]); (split; [exact F3|]);
      (split; [discriminate|]); intros _; exists l;
      (split; [reflexivity|]); exact F2.
  - destruct (load h (val_ parent)) as [| | | | |ms] eqn:El; try discriminate.
    assert (Ep : forall n v, AddMember h0 (val_ parent) n v
                = Ret (store h0 (val_ parent) (JObject (ms ++ [(n, v)])%list))).
    { intros n v. unfold AddMember. rewrite L0. reflexivity. }
    destruct (serialize (cont_ this)) eqn:Et; simpl in Hc; rewrite ?Ea in Hc;
      try discriminate;
      rewrite Ep in *; eexists; (split; [reflexivity|]);
      (split; [reflexivity|]); (split; [reflexivity|]); (split; [reflexivity|]);
      (split; [apply (Hok' _ eq_refl)|]);
      match goal with
      | |- context [store h0 (val_ parent) ?v'] =>
          destruct (Fin v') as (F1 & F2 & F3)
      end;
      simpl heap_;
      (split; [exact F1|]); (split; [exact F3|]);
      (split; [|discriminate]); intros _; exists ms;
      (split; [reflexivity|]); exact F2.
Qed.

(** X16: in a context whose stack is in order, the close tag of the front
    container, when no pending tag has its name, is accepted and takes the
    container off the stack.  Its value is moved into the value of the
    container below it: as a member with the lower-cased name when that one
    holds an object, as a further item when it holds an array (wrapped in an
    object with the one member of that name for the mode
    object_with_name_in_array).  The cell of the closed container is left
    null, no other value changes, nothing is logged, and the stack is in
    order again. *)
Theorem close_folds_into_parent (pctx : process_ctx) (this parent : ofx_container)
    (rest : list ofx_container) (a : attrs) (t : string) :
  ctx_ok pctx -> ostack_ pctx = this :: parent :: rest ->
  (forall tg, In tg (tags_ this) -> fst tg <> name_ this) ->
  exists pctx',
    handle_element pctx ("/" ++ name_ this) a t = Ret (true, pctx') /\
    ostack_ pctx' = parent :: rest /\
    cerr_ pctx' = cerr_ pctx /\ doc_ pctx' = doc_ pctx /\
    ctx_ok pctx' /\
    load (heap_ pctx') (val_ this) = JNull /\
    (forall b, b <> val_ this -> b <> val_ parent ->
               load (heap_ pctx') b = load (heap_ pctx) b) /\
    (holds_array (serialize (cont_ parent)) = false ->
     exists ms,
       load (heap_ pctx) (val_ parent) = JObject ms /\
       load (heap_ pctx') (val_ parent)
       = JObject (ms ++ [(str_lower (name_ this),
                          load (heap_ pctx) (val_ this))])%list) /\
    (holds_array (serialize (cont_ parent)) = true ->
     exists l,
       load (heap_ pctx) (val_ parent) = JArray l /\
       load (heap_ pctx') (val_ parent)
       = JArray (l ++ [match serialize (cont_ this) with
                       | object_with_name_in_array =>
                           JObject [(str_lower (name_ this),
                                     load (heap_ pctx) (val_ this))]
                       | _ => load (heap_ pctx) (val_ this)
                       end])%list).
Proof. apply close_fold. Qed.

Lemma close_folds_into_parent_witness :
  exists pctx',
    handle_element sonrs_ctx ("/" ++ "SONRS") [] "" = Ret (true, pctx') /\
    ostack_ pctx' = sonrs_below /\
    load (heap_ pctx') 2 = JNull /\
    load (heap_ pctx') 1
    = JObject [("sonrs", JObject [("language", JString "ENG")])].
Proof.
  destruct (close_folds_into_parent sonrs_ctx sonrs_frame
              (mk_ofx_container "SIGNONMSGSRSV1" ofx_signonmsgsrsv1 1 [])
              [mk_ofx_container "OFX" ofx_main 0 []] [] "")
    as (p & E & Eo & _ & _ & _ & En & _ & Eobj & _).
  - apply (reachable_ok ofx_main); [exact wf_ofx_main | exact sonrs_ctx_reachable].
  - reflexivity.
  - intros tg [<-|[]]. discriminate.
  - exists p. split; [exact E|]. split; [exact Eo|]. split; [exact En|].
    destruct (Eobj eq_refl) as (ms & E1 & E2).
    vm_compute in E1. inversion E1; subst ms. exact E2.
Defined.

(** X17: an element that opens a container of the schema and is closed at
    once leaves the stack as it was and adds an empty value to the container
    it stands in: a member with the lower-cased name that holds an empty
    object (an empty array when the new container is serialized as an array),
    or, in an array, an empty object (wrapped in an object with the one
    member of that name for the mode object_with_name_in_array).  The text
    and the attributes of the two tags play no part. *)
Theorem empty_container_element (pctx : process_ctx) (this : ofx_container)
    (below : list ofx_container) (e : string) (c : ofx_cont) (a a' : attrs)
    (t t' : string) :
  ctx_ok pctx -> ostack_ pctx = this :: below ->
  chr_eqb (char_at e 0) "/" = false ->
  map_find e (sub (cont_ this)) = Some c ->
  exists p1 p2,
    handle_element pctx e a t = Ret (true, p1) /\
    handle_element p1 ("/" ++ e) a' t' = Ret (true, p2) /\
    ostack_ p2 = ostack_ pctx /\ cerr_ p2 = cerr_ pctx /\ ctx_ok p2 /\
    (holds_array (serialize (cont_ this)) = false ->
     exists ms,
       load (heap_ pctx) (val_ this) = JObject ms /\
       load (heap_ p2) (val_ this)
       = JObject (ms ++ [(str_lower e,
                          if holds_array (serialize c) then JArray []
                          else JObject [])])%list) /\
    (holds_array (serialize (cont_ this)) = true ->
     exists l,
       load (heap_ pctx) (val_ this) = JArray l /\
       load (heap_ p2) (val_ this)
       = JArray (l ++ [match serialize c with
                       | object_with_name_in_array =>
                           JObject [(str_lower e, JObject [])]
                       | _ => JObject []
                       end])%list).
Proof.
  intros Hok Es He Hc.
  assert (Hv : val_ this < List.length (heap_ pctx)).
  { unfold ctx_ok in Hok. rewrite Es in Hok. apply Hok. }
  assert (Hw : wf_cont (cont_ this) = true).
  { unfold ctx_ok in Hok. rewrite Es in Hok. apply Hok. }
  destruct (wf_cont_sub _ _ _ Hw Hc) as (Hch & _).
  set (v0 := if holds_array (serialize c) then JArray [] else JObject []).
  set (p1 := mk_process_ctx (heap_ pctx ++ [v0])%list (cerr_ pctx) (doc_ pctx)
               (mk_ofx_container e c (List.length (heap_ pctx)) []
                :: this :: below)).
  assert (E1 : handle_element pctx e a t = Ret (true, p1)).
  { unfold handle_element. rewrite He. simpl negb. cbv iota.
    unfold handle_tag. rewrite Es, Hc. unfold new_ofx_container, p1, v0.
    destruct (serialize c); simpl in Hch; try discriminate;
      simpl; unfold push_container, with_ostack, with_heap; simpl;
      rewrite Es; reflexivity. }
  pose proof (handle_element_ok _ _ _ _ _ _ Hok E1) as Hok1.
  destruct (close_fold p1 (mk_ofx_container e c (List.length (heap_ pctx)) [])
              this below a' t' Hok1 eq_refl)
    as (p2 & E2 & Eo & Ec & _ & Hok2 & _ & _ & Hobj & Harr).
  { intros tg []. }
  simpl name_ in *. simpl val_ in *. simpl heap_ in *. simpl cont_ in *.
  rewrite (load_alloc_old _ _ _ Hv), load_alloc_new in *.
  exists p1, p2. split; [exact E1|]. split; [exact E2|].
  split; [rewrite Eo, Es; reflexivity|]. split; [exact Ec|].
  split; [exact Hok2|]. split.
  - intros Ea. destruct (Hobj Ea) as (ms & M1 & M2). exists ms. auto.
  - intros Ea. destruct (Harr Ea) as (l & M1 & M2). exists l.
    split; [exact M1|]. rewrite M2. unfold v0.
    destruct (serialize c); simpl in Hch; rewrite ?Ea in Hch;
      try discriminate; reflexivity.
Qed.

Lemma empty_container_element_witness :
  exists p1 p2,
    handle_element (loop_start ofx_main fresh_ctx) "SIGNONMSGSRSV1" [] "text"
    = Ret (true, p1) /\
    handle_element p1 ("/" ++ "SIGNONMSGSRSV1") [] "" = Ret (true, p2) /\
    ostack_ p2 = ostack_ (loop_start ofx_main fresh_ctx) /\
    load (heap_ p2) 0 = JObject [("signonmsgsrsv1", JObject [])].
Proof.
  destruct (empty_container_element (loop_start ofx_main fresh_ctx)
              (mk_ofx_container "OFX" ofx_main 0 []) []
              "SIGNONMSGSRSV1" ofx_signonmsgsrsv1 [] [] "text" "")
    as (p1 & p2 & E1 & E2 & Eo & _ & _ & Hobj & _).
  - apply loop_start_ok. exact wf_ofx_main.
  - reflexivity.
  - reflexivity.
  - reflexivity.
  - exists p1, p2. split; [exact E1|]. split; [exact E2|]. split; [exact Eo|].
    destruct (Hobj eq_refl) as (ms & M1 & M2).
    vm_compute in M1. inversion M1; subst ms. exact M2.
Defined.

(** ** The document a run writes *)

Lemma after_scan_heap (pctx : process_ctx) (b : bool) (q : process_ctx) :
  after_scan pctx = Ret (b, q) ->
  heap_ q = heap_ pctx /\ doc_ q = doc_ pctx.
Proof.
  unfold after_scan. intros H.
  destruct (ostack_ pctx) as [|f [|g s]].
  - inversion H; subst. split; reflexivity.
  - destruct (snd (fst (handle_close f (name_ f)))); inversion H; subst;
      split; reflexivity.
  - inversion H; subst. split; reflexivity.
Qed.

(** What [main] writes is the document of a context the loop reached. *)
Lemma main_output_reachable (root_cont : ofx_cont) (input : string)
    (o : outcome) (v : json) :
  main root_cont input = Ret o -> output o = Some v ->
  exists pctx, reachable root_cont pctx /\ v = load (heap_ pctx) (doc_ pctx).
Proof.
  unfold main. intros H Ho.
  destruct (String.index 0 "<OFX>" input) as [pos|];
    [|inversion H; subst; discriminate Ho].
  rewrite process_ofx_unfold in H.
  change (mk_process_ctx [JObject []] [] 0 []) with fresh_ctx in H.
  destruct (iterate_elements (S (size input)) input (pos + 5) handle_element
              (loop_start root_cont fresh_ctx)) as [[[b p] pctx']| |] eqn:E;
    try discriminate.
  pose proof (scan_reachable _ _ _ _ _ _ _ E) as R.
  exists pctx'. split; [exact R|].
  destruct b.
  - destruct (after_scan pctx') as [[b' q]| |] eqn:A; try discriminate.
    destruct (after_scan_heap _ _ _ A) as (Eh & Ed).
    destruct b'; inversion H; subst; simpl in Ho; [|discriminate].
    inversion Ho. rewrite Eh, Ed. reflexivity.
  - inversion H; subst. simpl in Ho. inversion Ho. reflexivity.
Qed.

Lemma load_store_cases (h : heap) (a : nat) (v : json) (b : nat) :
  load (store h a v) b = v \/ load (store h a v) b = load h b.
Proof.
  unfold load. revert a b. induction h as [|x h IH]; intros a b; simpl; auto.
  destruct a as [|a]; destruct b as [|b]; simpl; auto.
Qed.

Lemma load_alloc_cases (h : heap) (v : json) (b : nat) :
  load (h ++ [v])%list b = v \/ load (h ++ [v])%list b = load h b.
Proof.
  unfold load. revert b. induction h as [|x h IH]; intros b; simpl.
  - destruct b as [|[|b]]; auto.
  - destruct b as [|b]; auto.
Qed.

Lemma heap_lower_store (h : heap) (a : nat) (v : json) :
  heap_lower h -> keys_lower v = true -> heap_lower (store h a v).
Proof.
  intros H Hv b. destruct (load_store_cases h a v b) as [-> | ->]; auto.
Qed.

Lemma heap_lower_alloc (h : heap) (v : json) :
  heap_lower h -> keys_lower v = true -> heap_lower (h ++ [v])%list.
Proof.
  intros H Hv b. destruct (load_alloc_cases h v b) as [-> | ->]; auto.
Qed.

Lemma str_lower_no_upper (s : string) : no_upper (str_lower s) = true.
Proof.
  unfold no_upper. induction s as [|c r IH]; simpl; [reflexivity|].
  destruct (tolower_facts c) as (_ & -> & _). exact IH.
Qed.

Lemma heap_lower_AddMember (h h' : heap) (a : nat) (name : string) (v : json) :
  heap_lower h -> keys_lower v = true ->
  AddMember h a (str_lower name) v = Ret h' -> heap_lower h'.
Proof.
  intros H Hv E. apply AddMember_ret in E as (ms & El & ->).
  apply heap_lower_store; [exact H|].
  pose proof (H a) as Ha. rewrite El in Ha. simpl in Ha. simpl.
  rewrite forallb_app, Ha. simpl. rewrite str_lower_no_upper, Hv. reflexivity.
Qed.

Lemma heap_lower_PushBack (h h' : heap) (a : nat) (v : json) :
  heap_lower h -> keys_lower v = true ->
  PushBack h a v = Ret h' -> heap_lower h'.
Proof.
  intros H Hv E. apply PushBack_ret in E as (l & El & ->).
  apply heap_lower_store; [exact H|].
  pose proof (H a) as Ha. rewrite El in Ha. simpl in Ha. simpl.
  rewrite forallb_app, Ha. simpl. rewrite Hv. reflexivity.
Qed.

Lemma handle_tag_lower (pctx : process_ctx) (e : string) (a : attrs)
    (t : string) (b : bool) (pctx' : process_ctx) :
  heap_lower (heap_ pctx) -> handle_tag pctx e a t = Ret (b, pctx') ->
  heap_lower (heap_ pctx').
Proof.
  intros H E. unfold handle_tag in E.
  destruct (ostack_ pctx) as [|this below]; [discriminate|].
  destruct (map_find e (sub (cont_ this))) as [c|].
  - unfold new_ofx_container in E.
    destruct (serialize c); simpl in E; inversion E; subst; simpl;
      try exact H; apply heap_lower_alloc; auto.
  - assert (L : forall v h',
                AddMember (heap_ pctx) (val_ this) (str_lower e) v = Ret h' ->
                keys_lower v = true -> heap_lower h')
      by (intros v h' Ea Hv; apply (heap_lower_AddMember _ _ _ _ _ H Hv Ea)).
    destruct (map_find e (tags (cont_ this))) as [[| | |]|].
    + unfold add_string in E.
      destruct (AddMember _ _ _ _) as [h'| |] eqn:Ea; try discriminate.
      inversion E; subst. simpl. apply (L _ _ Ea eq_refl).
    + unfold add_number in E. destruct (parse_number t); [|discriminate].
      destruct (AddMember _ _ _ _) as [h'| |] eqn:Ea; try discriminate.
      inversion E; subst. simpl. apply (L _ _ Ea eq_refl).
    + unfold add_bool in E. destruct (parse_bool t); [|discriminate].
      destruct (AddMember _ _ _ _) as [h'| |] eqn:Ea; try discriminate.
      inversion E; subst. simpl. apply (L _ _ Ea eq_refl).
    + unfold add_datetime, add_string in E. destruct (parse_datetime t);
        destruct (AddMember _ _ _ _) as [h'| |] eqn:Ea; try discriminate;
        inversion E; subst; simpl; apply (L _ _ Ea eq_refl).
    + inversion E; subst. exact H.
Qed.

Lemma done_lower (pctx pctx' : process_ctx) :
  heap_lower (heap_ pctx) -> done pctx = Ret pctx' -> heap_lower (heap_ pctx').
Proof.
  intros H E. unfold done in E.
  destruct (ostack_ pctx) as [|this [|p rest]]; [discriminate| |].
  { inversion E; subst. exact H. }
  pose proof (heap_lower_store _ (val_ this) JNull H eq_refl) as H0.
  pose proof (H (val_ this)) as Hv.
  destruct (serialize (cont_ this)).
  - inversion E; subst. exact H.
  - destruct (AddMember _ _ _ _) as [h'| |] eqn:Ea; try discriminate.
    inversion E; subst. simpl. apply (heap_lower_AddMember _ _ _ _ _ H0 Hv Ea).
  - destruct (PushBack _ _ _) as [h'| |] eqn:Ea; try discriminate.
    inversion E; subst. simpl. apply (heap_lower_PushBack _ _ _ _ H0 Hv Ea).
  - destruct (PushBack _ _ _) as [h'| |] eqn:Ea; try discriminate.
    inversion E; subst. simpl.
    apply (heap_lower_PushBack _ _ _ _ H0) in Ea; [exact Ea|].
    simpl. rewrite str_lower_no_upper, Hv. reflexivity.
  - destruct (AddMember _ _ _ _) as [h'| |] eqn:Ea; try discriminate.
    inversion E; subst. simpl. apply (heap_lower_AddMember _ _ _ _ _ H0 Hv Ea).
Qed.

Lemma handle_element_lower (pctx : process_ctx) (e : string) (a : attrs)
    (t : string) (b : bool) (pctx' : process_ctx) :
  heap_lower (heap_ pctx) -> handle_element pctx e a t = Ret (b, pctx') ->
  heap_lower (heap_ pctx').
Proof.
  intros H E. unfold handle_element in E.
  destruct (negb (chr_eqb (char_at e 0) "/"));
    [apply (handle_tag_lower _ _ _ _ _ _ H E)|].
  destruct (ostack_ pctx) as [|os_top below];
    [inversion E; subst; exact H|].
  destruct (handle_close os_top (substr1 e)) as [[ok cd] top'].
  destruct ok; simpl in E; [|inversion E; subst; exact H].
  destruct cd; [|inversion E; subst; exact H].
  destruct (done _) as [p1| |] eqn:Ed; try discriminate.
  inversion E; subst. simpl.
  apply (done_lower (with_ostack pctx (top' :: below)) _ H Ed).
Qed.

Lemma reachable_lower (root_cont : ofx_cont) (pctx : process_ctx) :
  reachable root_cont pctx -> heap_lower (heap_ pctx).
Proof.
  intros R. induction R as [|pctx e a t b pctx' _ IH H].
  - unfold loop_start, new_ofx_container, fresh_ctx.
    destruct (serialize root_cont); simpl; intros [|[|[|n]]]; reflexivity.
  - apply (handle_element_lower _ _ _ _ _ _ IH H).
Qed.

(** X18: whatever the input and the schema, no member name of the document
    that [main] writes has an upper-case letter, at any depth. *)
Theorem output_names_lower_case (root_cont : ofx_cont) (input : string)
    (o : outcome) (v : json) :
  main root_cont input = Ret o -> output o = Some v -> keys_lower v = true.
Proof.
  intros H Ho.
  destruct (main_output_reachable _ _ _ _ H Ho) as (pctx & R & ->).
  apply (reachable_lower _ _ R).
Qed.

Lemma output_names_lower_case_witness :
  keys_lower
    (JObject [("signonmsgsrsv1",
       JObject [("sonrs", JObject [("language", JString "ENG")])])]) = true.
Proof.
  apply (output_names_lower_case ofx_main broken_after_signon
           (mk_outcome 0
              (Some (JObject [("signonmsgsrsv1",
                 JObject [("sonrs", JObject [("language", JString "ENG")])])]))
              [ProcessingFailed])).
  - vm_compute. reflexivity.
  - reflexivity.
Defined.

Lemma AddMember_doc (h h' : heap) (a : nat) (name : string) (v : json) :
  is_object (load h 0) = true -> AddMember h a name v = Ret h' ->
  is_object (load h' 0) = true.
Proof.
  intros H E. apply AddMember_ret in E as (ms & El & ->).
  destruct (load_store_cases h a (JObject (ms ++ [(name, v)])%list) 0)
    as [-> | ->]; [reflexivity | exact H].
Qed.

Lemma PushBack_doc (h h' : heap) (a : nat) (v : json) :
  is_object (load h 0) = true -> PushBack h a v = Ret h' ->
  is_object (load h' 0) = true.
Proof.
  intros H E. apply PushBack_ret in E as (l & El & ->).
  destruct a as [|a]; [rewrite El in H; discriminate|].
  rewrite load_store_other by discriminate. exact H.
Qed.

Lemma alloc_doc (h : heap) (v : json) :
  is_object (load h 0) = true -> is_object (load (h ++ [v])%list 0) = true.
Proof. destruct h as [|x h]; [discriminate | auto]. Qed.

Lemma handle_tag_doc (pctx : process_ctx) (e : string) (a : attrs)
    (t : string) (b : bool) (pctx' : process_ctx) :
  doc_ok pctx -> handle_tag pctx e a t = Ret (b, pctx') -> doc_ok pctx'.
Proof.
  intros (Hd & H) E. unfold handle_tag in E. unfold doc_ok.
  destruct (ostack_ pctx) as [|this below]; [discriminate|].
  destruct (map_find e (sub (cont_ this))) as [c|].
  - unfold new_ofx_container in E.
    destruct (serialize c); simpl in E; inversion E; subst; simpl;
      (split; [exact Hd|]); try exact H; apply alloc_doc; exact H.
  - pose proof (fun v h' => AddMember_doc (heap_ pctx) h' (val_ this)
                              (str_lower e) v H) as L.
    destruct (map_find e (tags (cont_ this))) as [[| | |]|].
    + unfold add_string in E.
      destruct (AddMember _ _ _ _) as [h'| |] eqn:Ea; try discriminate.
      inversion E; subst. simpl. split; [exact Hd | apply (L _ _ Ea)].
    + unfold add_number in E. destruct (parse_number t); [|discriminate].
      destruct (AddMember _ _ _ _) as [h'| |] eqn:Ea; try discriminate.
      inversion E; subst. simpl. split; [exact Hd | apply (L _ _ Ea)].
    + unfold add_bool in E. destruct (parse_bool t); [|discriminate].
      destruct (AddMember _ _ _ _) as [h'| |] eqn:Ea; try discriminate.
      inversion E; subst. simpl. split; [exact Hd | apply (L _ _ Ea)].
    + unfold add_datetime, add_string in E. destruct (parse_datetime t);
        destruct (AddMember _ _ _ _) as [h'| |] eqn:Ea; try discriminate;
        inversion E; subst; simpl; (split; [exact Hd | apply (L _ _ Ea)]).
    + inversion E; subst. split; [exact Hd | exact H].
Qed.

Lemma done_doc (pctx pctx' : process_ctx) :
  (forall this p rest, ostack_ pctx = this :: p :: rest -> val_ this <> 0) ->
  doc_ok pctx -> done pctx = Ret pctx' -> doc_ok pctx'.
Proof.
  intros Hn (Hd & H) E. unfold done in E. unfold doc_ok.
  destruct (ostack_ pctx) as [|this [|p rest]]; [discriminate| |].
  { inversion E; subst. auto. }
  pose proof (Hn _ _ _ eq_refl) as Hv.
  assert (H0 : is_object (load (store (heap_ pctx) (val_ this) JNull) 0) = true)
    by (rewrite load_store_other by exact Hv; exact H).
  destruct (serialize (cont_ this)).
  - inversion E; subst. auto.
  - destruct (AddMember _ _ _ _) as [h'| |] eqn:Ea; try discriminate.
    inversion E; subst. simpl. split; [exact Hd|].
    apply (AddMember_doc _ _ _ _ _ H0 Ea).
  - destruct (PushBack _ _ _) as [h'| |] eqn:Ea; try discriminate.
    inversion E; subst. simpl. split; [exact Hd|].
    apply (PushBack_doc _ _ _ _ H0 Ea).
  - destruct (PushBack _ _ _) as [h'| |] eqn:Ea; try discriminate.
    inversion E; subst. simpl. split; [exact Hd|].
    apply (PushBack_doc _ _ _ _ H0 Ea).
  - destruct (AddMember _ _ _ _) as [h'| |] eqn:Ea; try discriminate.
    inversion E; subst. simpl. split; [exact Hd|].
    apply (AddMember_doc _ _ _ _ _ H0 Ea).
Qed.

Lemma handle_element_doc (pctx : process_ctx) (e : string) (a : attrs)
    (t : string) (b : bool) (pctx' : process_ctx) :
  ctx_ok pctx -> doc_ok pctx -> handle_element pctx e a t = Ret (b, pctx') ->
  doc_ok pctx'.
Proof.
  intros Hok H E. unfold handle_element in E.
  destruct (negb (chr_eqb (char_at e 0) "/"));
    [apply (handle_tag_doc _ _ _ _ _ _ H E)|].
  destruct (ostack_ pctx) as [|os_top below] eqn:Es;
    [inversion E; subst; exact H|].
  destruct (handle_close_set_tags os_top (substr1 e)) as [l El].
  destruct (handle_close os_top (substr1 e)) as [[ok cd] top']. simpl in El.
  subst top'.
  destruct ok; simpl in E; [|inversion E; subst; exact H].
  destruct cd; [|inversion E; subst; exact H].
  destruct (done _) as [p1| |] eqn:Ed; try discriminate.
  inversion E; subst.
  apply (done_doc (with_ostack pctx (set_tags os_top l :: below))) in Ed.
  - exact Ed.
  - simpl. intros this p rest Eq. inversion Eq; subst. simpl.
    unfold ctx_ok in Hok. rewrite Es in Hok.
    destruct Hok as (_ & _ & _ & Ho & _).
    assert (val_ p < val_ os_top) by (apply Ho; left; reflexivity). lia.
  - exact H.
Qed.

Lemma reachable_doc (root_cont : ofx_cont) (pctx : process_ctx) :
  wf_cont root_cont = true -> reachable root_cont pctx -> doc_ok pctx.
Proof.
  intros Hw R. induction R as [|pctx e a t b pctx' R IH H].
  - unfold loop_start, new_ofx_container, fresh_ctx, doc_ok.
    destruct (serialize root_cont); simpl; split; reflexivity.
  - apply (handle_element_doc _ _ _ _ _ _ (reachable_ok _ _ Hw R) IH H).
Qed.

(** X19: on a schema whose containers fit their values (the program's is
    one) the document [main] writes is a JSON object, whatever the input and
    whether the scan succeeded or failed. *)
Theorem output_is_object (root_cont : ofx_cont) (input : string) (o : outcome)
    (v : json) :
  wf_cont root_cont = true ->
  main root_cont input = Ret o -> output o = Some v -> is_object v = true.
Proof.
  intros Hw H Ho.
  destruct (main_output_reachable _ _ _ _ H Ho) as (pctx & R & ->).
  destruct (reachable_doc _ _ Hw R) as (-> & Hd). exact Hd.
Qed.

Lemma output_is_object_witness : is_object (JObject []) = true.
Proof.
  apply (output_is_object ofx_main mismatched_close
           (mk_outcome 0 (Some (JObject []))
              [MismatchFor "/BAD" "SONRS"; ProcessingFailed])).
  - vm_compute. reflexivity.
  - vm_compute. reflexivity.
  - reflexivity.
Defined.

(** ** Runs that end the process *)

(** Where the loop ends the process: in the handler, on the element of some
    pass, when the handler keeps [P] and ends the process on open events
    only. *)
Lemma iterate_elements_abort {St : Type} (h : handler St) (P : St -> Prop) :
  (forall st e a t b st', P st -> h st e a t = Ret (b, st') -> P st') ->
  (forall st e a t,
     P st -> h st e a t = Aborted -> chr_eqb (char_at e 0) "/" = false) ->
  forall (fuel : nat) (str : string) (pos : nat) (st : St),
    P st -> iterate_elements fuel str pos h st = Aborted ->
    exists (pos1 : nat) (st1 : St) (pos2 : nat) (el : element) (text : string),
      loop_reaches h str pos st pos1 st1 /\ P st1 /\
      pos1 < size str /\
      read_element str pos1 = Ret (TokElement pos2 el) /\
      String.eqb (el_name el) "/OFX" = false /\
      try_xml_decode (el_text el) = Ret text /\
      h st1 (el_name el) (el_attrs el) text = Aborted.
Proof.
  intros Hh Ho. induction fuel as [|fuel IH]; intros str pos st HP H;
    [discriminate|].
  simpl in H.
  destruct (Nat.ltb_spec pos (size str)) as [Hlt|_]; [|discriminate].
  destruct (read_element_returns str pos) as (tk & Er & _).
  rewrite Er in H.
  destruct tk as [p|p|p el]; try discriminate.
  destruct (String.eqb (el_name el) "/OFX") eqn:En; [discriminate|].
  destruct (try_xml_decode_returns (el_text el)) as [text Et].
  rewrite Et in H.
  destruct (h st (el_name el) (el_attrs el) text) as [[b1 st1]| |] eqn:E1;
    [| |discriminate].
  2:{ exists pos, st, p, el, text.
      split; [apply reaches_here|]. repeat split; assumption. }
  pose proof (Hh _ _ _ _ _ _ HP E1) as HP1.
  destruct b1; [|discriminate].
  destruct (simple_tag el) eqn:Es.
  - destruct (h st1 (String "/" (el_name el)) (el_attrs el) EmptyString)
      as [[b2 st2]| |] eqn:E2; [| |discriminate].
    2:{ exfalso. pose proof (Ho _ _ _ _ HP1 E2) as C.
        change (String "/" (el_name el)) with ("/" ++ el_name el) in C.
        rewrite char_at_slash in C. discriminate. }
    pose proof (Hh _ _ _ _ _ _ HP1 E2) as HP2.
    destruct b2; [|discriminate].
    destruct (IH _ _ _ HP2 H)
      as (pos1 & s1 & pos2 & el' & text' & L & Q).
    exists pos1, s1, pos2, el', text'. split; [|exact Q].
    apply (reaches_pass h str pos st p el text st1 st2); auto.
  - destruct (IH _ _ _ HP1 H)
      as (pos1 & s1 & pos2 & el' & text' & L & Q).
    exists pos1, s1, pos2, el', text'. split; [|exact Q].
    apply (reaches_pass h str pos st p el text st1 st1); auto.
Qed.

(** What every handler call keeps holds in every context the loop comes
    to. *)
Lemma loop_reaches_keeps {St : Type} (h : handler St) (str : string)
    (P : St -> Prop) :
  (forall st e a t b st', P st -> h st e a t = Ret (b, st') -> P st') ->
  forall (pos : nat) (st : St) (pos1 : nat) (st1 : St),
    loop_reaches h str pos st pos1 st1 -> P st -> P st1.
Proof.
  intros Hh pos st pos1 st1 L.
  induction L as [pos st|pos st p el0 text0 s1 s2 pos1 st1
                      _ _ _ _ E1 E2 L IH]; intros HP; [exact HP|].
  apply IH. pose proof (Hh _ _ _ _ _ _ HP E1) as HP1.
  destruct E2 as [(_ & E2)|(_ & ->)]; [|exact HP1].
  exact (Hh _ _ _ _ _ _ HP1 E2).
Qed.

(** The other way round: when a pass the loop comes to reads an element on
    which the handler ends the process, the loop ends the process. *)
Lemma loop_reaches_abort {St : Type} (h : handler St) (str : string)
    (pos : nat) (st : St) (pos1 : nat) (st1 : St) :
  loop_reaches h str pos st pos1 st1 ->
  forall (pos2 : nat) (el : element) (text : string),
    pos1 < size str ->
    read_element str pos1 = Ret (TokElement pos2 el) ->
    String.eqb (el_name el) "/OFX" = false ->
    try_xml_decode (el_text el) = Ret text ->
    h st1 (el_name el) (el_attrs el) text = Aborted ->
    forall fuel : nat,
      size str - pos < fuel -> iterate_elements fuel str pos h st = Aborted.
Proof.
  intros L. induction L as [pos st|pos st p el0 text0 s1 s2 pos1 st1
                                    Hlt0 Er0 En0 Et0 E1 E2 L IH];
    intros pos2 el text Hlt Er En Et Ha fuel Hf.
  - destruct fuel as [|fuel]; [lia|]. simpl.
    apply Nat.ltb_lt in Hlt. rewrite Hlt, Er, En, Et, Ha. reflexivity.
  - destruct fuel as [|fuel]; [lia|]. simpl.
    destruct (read_element_returns str pos) as (tk & Er' & Adv).
    rewrite Er0 in Er'. inversion Er'; subst tk. simpl in Adv.
    pose proof Hlt0 as Hb. apply Nat.ltb_lt in Hb.
    rewrite Hb, Er0, En0, Et0, E1.
    assert (Hf' : size str - p < fuel) by lia.
    pose proof (IH pos2 el text Hlt Er En Et Ha fuel Hf') as R.
    destruct E2 as [(Es & E2)|(Es & ->)]; rewrite Es.
    + change (String "/" (el_name el0)) with ("/" ++ el_name el0).
      rewrite E2. exact R.
    + exact R.
Qed.

(** X20: on a schema whose containers fit their values (the program's is
    one) a run ends the process, by [abort()] or a failed assertion, exactly
    when the handler does so on the element that some pass of the loop has
    read from the input, in the context the passes before it, all of which
    went on, have left.  That element is then an open tag: one that stands
    in a number or boolean leaf whose text does not decode, or one that
    comes when the stack is empty.  No close tag ends the process, and
    neither does an AddMember or PushBack on a value of the wrong kind. *)
Theorem run_aborts_only_at_open_tags (root_cont : ofx_cont) (input : string) :
  wf_cont root_cont = true ->
  (main root_cont input = Aborted <->
   exists (start pos : nat) (pctx : process_ctx) (pos' : nat) (el : element)
          (text : string),
     String.index 0 "<OFX>" input = Some start /\
     loop_reaches handle_element input (start + 5)
       (loop_start root_cont fresh_ctx) pos pctx /\
     pos < size input /\
     read_element input pos = Ret (TokElement pos' el) /\
     String.eqb (el_name el) "/OFX" = false /\
     try_xml_decode (el_text el) = Ret text /\
     handle_element pctx (el_name el) (el_attrs el) text = Aborted) /\
  (forall (start pos : nat) (pctx : process_ctx) (pos' : nat) (el : element)
          (text : string),
     String.index 0 "<OFX>" input = Some start ->
     loop_reaches handle_element input (start + 5)
       (loop_start root_cont fresh_ctx) pos pctx ->
     read_element input pos = Ret (TokElement pos' el) ->
     handle_element pctx (el_name el) (el_attrs el) text = Aborted ->
     chr_eqb (char_at (el_name el) 0) "/" = false /\
     (ostack_ pctx = [] \/
      exists this below fmt,
        ostack_ pctx = this :: below /\
        map_find (el_name el) (tags (cont_ this)) = Some fmt /\
        ((fmt = tag_number /\ parse_number text = None) \/
         (fmt = tag_boolean /\ parse_bool text = None)))).
Proof.
  intros Hw.
  assert (Keep : forall st e a t b st',
            reachable root_cont st -> handle_element st e a t = Ret (b, st') ->
            reachable root_cont st')
    by (intros st e a t b st' R Hs; apply (reach_step _ _ _ _ _ _ _ R Hs)).
  split; [split|].
  - intros H. unfold main in H.
    destruct (String.index 0 "<OFX>" input) as [start|]; [|discriminate].
    rewrite process_ofx_unfold in H.
    change (mk_process_ctx [JObject []] [] 0 []) with fresh_ctx in H.
    destruct (iterate_elements (S (size input)) input (start + 5)
                handle_element (loop_start root_cont fresh_ctx))
      as [[[b p] pctx']| |] eqn:E.
    + exfalso. destruct b; [|discriminate].
      destruct (after_scan_returns pctx') as [[b' q] A]. rewrite A in H.
      destruct b'; discriminate.
    + destruct (iterate_elements_abort handle_element (reachable root_cont)
                  Keep
                  (fun st e a t R Ha =>
                     proj1 (handle_element_abort _ _ _ _
                              (reachable_ok _ _ Hw R) Ha))
                  _ _ _ _ (reach_start root_cont) E)
        as (pos & pctx & pos' & el & text & L & R & Hlt & Er & En & Et & Ha).
      exists start, pos, pctx, pos', el, text. auto 10.
    + discriminate.
  - intros (start & pos & pctx & pos' & el & text & Ei & L & Hlt & Er & En
            & Et & Ha).
    unfold main. rewrite Ei, process_ofx_unfold.
    change (mk_process_ctx [JObject []] [] 0 []) with fresh_ctx.
    rewrite (loop_reaches_abort handle_element input _ _ _ _ L pos' el text
               Hlt Er En Et Ha (S (size input))) by lia.
    reflexivity.
  - intros start pos pctx pos' el text Ei L Er Ha.
    pose proof (loop_reaches_keeps handle_element input (reachable root_cont)
                  Keep _ _ _ _ L (reach_start root_cont)) as R.
    apply (handle_element_abort _ _ _ _ (reachable_ok _ _ Hw R) Ha).
Qed.

Lemma run_aborts_only_at_open_tags_witness :
  wf_cont ofx_main = true /\
  main ofx_main
    "<OFX><INVSTMTMSGSRSV1><INVSTMTTRNRS><INVSTMTRS><INVBAL><AVAILCASH>abc<X>"
  = Aborted /\
  exists (pctx : process_ctx) (el : element) (text : string),
    handle_element pctx (el_name el) (el_attrs el) text = Aborted /\
    chr_eqb (char_at (el_name el) 0) "/" = false /\
    (ostack_ pctx = [] \/
     exists this below fmt,
       ostack_ pctx = this :: below /\
       map_find (el_name el) (tags (cont_ this)) = Some fmt /\
       ((fmt = tag_number /\ parse_number text = None) \/
        (fmt = tag_boolean /\ parse_bool text = None))).
Proof.
  destruct (run_aborts_only_at_open_tags ofx_main
              "<OFX><INVSTMTMSGSRSV1><INVSTMTTRNRS><INVSTMTRS><INVBAL><AVAILCASH>abc<X>"
              wf_ofx_main) as [[F _] O].
  assert (A : main ofx_main
                "<OFX><INVSTMTMSGSRSV1><INVSTMTTRNRS><INVSTMTRS><INVBAL><AVAILCASH>abc<X>"
              = Aborted) by (vm_compute; reflexivity).
  split; [exact wf_ofx_main|]. split; [exact A|].
  destruct (F A) as (start & pos & pctx & pos' & el & text & Ei & L & _ & Er
                     & _ & _ & Ha).
  exists pctx, el, text. split; [exact Ha|].
  exact (O start pos pctx pos' el text Ei L Er Ha).
Defined.

(** ** The entry of main *)

Lemma substring_prefix (m : nat) :
  forall s t : string,
    substring 0 m s = t -> size t = m -> exists post, s = t ++ post.
Proof.
  induction m as [|m IH]; intros s t H Hl.
  - destruct t; [|discriminate]. exists s. reflexivity.
  - destruct s as [|c s]; simpl in H; subst t; [discriminate|].
    simpl in Hl. injection Hl as Hl.
    destruct (IH s _ eq_refl Hl) as [post E].
    exists post. simpl. f_equal. exact E.
Qed.

Lemma substring_occurs (s : string) :
  forall (n m : nat) (t : string),
    substring n m s = t -> size t = m -> exists pre post, s = pre ++ t ++ post.
Proof.
  induction s as [|c s IH]; intros n m t H Hl.
  - exists "", "". destruct n, m; simpl in H; subst t; try reflexivity;
      discriminate.
  - destruct n as [|n].
    + destruct (substring_prefix m _ _ H Hl) as [post E].
      exists "", post. exact E.
    + simpl in H. destruct (IH n m t H Hl) as (pre & post & E).
      exists (String c pre), post. simpl. f_equal. exact E.
Qed.

Lemma substring_app_mid (pre t post : string) :
  substring (size pre) (size t) (pre ++ t ++ post) = t.
Proof.
  induction pre as [|c pre IH]; simpl; [|exact IH].
  induction t as [|c t IH]; simpl; [destruct post; reflexivity|].
  f_equal. exact IH.
Qed.

(** [in.find("<OFX>")] finds nothing exactly when the text has no
    occurrence of <OFX>. *)
Lemma find_ofx_none (input : string) :
  String.index 0 "<OFX>" input = None <->
  (forall pre post, input <> pre ++ "<OFX>" ++ post).
Proof.
  split.
  - intros H pre post E.
    apply (index_correct3 0 (size pre) "<OFX>" input H); [discriminate|lia|].
    rewrite E. apply (substring_app_mid pre "<OFX>" post).
  - intros H. destruct (String.index 0 "<OFX>" input) as [n|] eqn:E;
      [|reflexivity].
    apply index_correct1 in E.
    destruct (substring_occurs input n 5 "<OFX>" E eq_refl) as (pre & post & C).
    exfalso. apply (H pre post C).
Qed.

(** X21: a run that comes back has exit status 1 exactly when the input has
    no occurrence of <OFX>; it then writes nothing and reports that the
    input is not an OFX file.  When <OFX> occurs the status is 0, whatever
    the scan found.  (Errors of the files and streams, which are left out
    here, also give status 1.) *)
Theorem main_exit_status (root_cont : ofx_cont) (input : string) (o : outcome) :
  main root_cont input = Ret o ->
  ((forall pre post, input <> pre ++ "<OFX>" ++ post) ->
   o = mk_outcome 1 None [NotAnOfxFile]) /\
  ((exists pre post, input = pre ++ "<OFX>" ++ post) -> ret o = 0%Z) /\
  (ret o = 1%Z <-> (forall pre post, input <> pre ++ "<OFX>" ++ post)).
Proof.
  intros H. rewrite <- find_ofx_none. unfold main in H.
  destruct (String.index 0 "<OFX>" input) as [pos|] eqn:Ei.
  - rewrite process_ofx_unfold in H.
    assert (Z0 : ret o = 0%Z).
    { destruct (iterate_elements _ _ _ _ _) as [[[b p] pctx']| |];
        try discriminate.
      destruct b; [|inversion H; subst; reflexivity].
      destruct (after_scan pctx') as [[b' q]| |]; try discriminate.
      destruct b'; inversion H; subst; reflexivity. }
    split; [discriminate|]. split; [intros _; exact Z0|].
    rewrite Z0. split; discriminate.
  - inversion H; subst. simpl.
    split; [reflexivity|]. split; [|split; reflexivity].
    intros (pre & post & E). exfalso.
    destruct (find_ofx_none input) as [F _]. apply (F Ei pre post E).
Qed.

Lemma main_exit_status_witness :
  ((forall pre post, "OFXHEADER:100" <> pre ++ "<OFX>" ++ post) ->
   mk_outcome 1 None [NotAnOfxFile] = mk_outcome 1 None [NotAnOfxFile]) /\
  ((exists pre post, "OFXHEADER:100" = pre ++ "<OFX>" ++ post) ->
   ret (mk_outcome 1 None [NotAnOfxFile]) = 0%Z) /\
  (ret (mk_outcome 1 None [NotAnOfxFile]) = 1%Z <->
   (forall pre post, "OFXHEADER:100" <> pre ++ "<OFX>" ++ post)).
Proof.
  apply (main_exit_status ofx_main "OFXHEADER:100"
           (mk_outcome 1 None [NotAnOfxFile])).
  vm_compute. reflexivity.
Defined.

(** ** What stands before the document *)

Section Shift.

Variables pre str : string.

Lemma skip_ws_shift (pos : nat) :
  skip_ws (pre ++ str) (size pre + pos) = size pre + skip_ws str pos.
Proof. rewrite !skip_ws_lead, drop_app_size. lia. Qed.

Lemma char_at_shift (pos : nat) :
  char_at (pre ++ str) (size pre + pos) = char_at str pos.
Proof. unfold char_at. rewrite drop_app_size. reflexivity. Qed.

Lemma size_leb_shift (pos : nat) :
  (size (pre ++ str) <=? size pre + pos) = (size str <=? pos).
Proof.
  rewrite size_app.
  destruct (Nat.leb_spec (size str) pos);
    [apply Nat.leb_le | apply Nat.leb_gt]; lia.
Qed.

Lemma size_ltb_shift (pos : nat) :
  (size pre + pos <? size (pre ++ str)) = (pos <? size str).
Proof.
  rewrite size_app.
  destruct (Nat.ltb_spec pos (size str));
    [apply Nat.ltb_lt | apply Nat.ltb_ge]; lia.
Qed.

Lemma read_name_from_shift (k : nat) (rest : string) :
  forall (pos : nat) (txt : string),
    read_name_from rest (k + pos) txt = shift_read k (read_name_from rest pos txt).
Proof.
  induction rest as [|c rest IH]; intros pos txt; simpl; [reflexivity|].
  destruct (is_name_end c); [reflexivity|].
  rewrite <- Nat.add_succ_r. apply IH.
Qed.

Lemma read_attrval_from_shift (k : nat) (quoted : bool) (rest : string) :
  forall (pos : nat) (txt : string),
    read_attrval_from quoted rest (k + pos) txt
    = shift_read k (read_attrval_from quoted rest pos txt).
Proof.
  induction rest as [|c rest IH]; intros pos txt; simpl; [reflexivity|].
  destruct (negb quoted && is_name_end c); [reflexivity|].
  destruct (quoted && chr_eqb c dquote); [reflexivity|].
  rewrite <- Nat.add_succ_r. apply IH.
Qed.

Lemma read_text_from_shift (k : nat) (rest : string) :
  forall (pos : nat) (txt : string),
    read_text_from rest (k + pos) txt = shift_read k (read_text_from rest pos txt).
Proof.
  induction rest as [|c rest IH]; intros pos txt; simpl; [reflexivity|].
  destruct (chr_eqb c "<" || chr_eqb c ">"); [reflexivity|].
  rewrite <- Nat.add_succ_r. apply IH.
Qed.

Lemma read_name_shift (pos : nat) (txt : string) :
  read_name (pre ++ str) (size pre + pos) txt
  = shift_read (size pre) (read_name str pos txt).
Proof. unfold read_name. rewrite drop_app_size. apply read_name_from_shift. Qed.

Lemma read_attrval_shift (pos : nat) (txt : string) (quoted : bool) :
  read_attrval (pre ++ str) (size pre + pos) txt quoted
  = shift_read (size pre) (read_attrval str pos txt quoted).
Proof.
  unfold read_attrval. rewrite drop_app_size. apply read_attrval_from_shift.
Qed.

Lemma read_text_shift (pos : nat) (txt : string) :
  read_text (pre ++ str) (size pre + pos) txt
  = shift_read (size pre) (read_text str pos txt).
Proof.
  unfold read_text. rewrite skip_ws_shift, drop_app_size.
  apply read_text_from_shift.
Qed.

Ltac shift_norm :=
  repeat first
    [ rewrite skip_ws_shift | rewrite char_at_shift | rewrite size_leb_shift
    | rewrite size_ltb_shift | rewrite read_name_shift
    | rewrite read_attrval_shift | rewrite read_text_shift
    | rewrite <- Nat.add_succ_r ].

Ltac shift_case :=
  match goal with
  | |- context [match ?x with _ => _ end] =>
      lazymatch x with
      | context [pre] => fail
      | context [match _ with _ => _ end] => fail
      | _ => destruct x
      end
  end;
  cbn [shift_read shift_attrs shift_token negb andb orb]; cbv beta iota.

Lemma read_attrs_shift (fuel : nat) :
  forall (pos : nat) (a : attrs),
    read_attrs fuel (pre ++ str) (size pre + pos) a
    = shift_attrs (size pre) (read_attrs fuel str pos a).
Proof.
  induction fuel as [|fuel IH]; intros pos a; [reflexivity|].
  cbn [read_attrs]. cbv zeta.
  repeat (shift_norm; try shift_case); try reflexivity; try apply IH.
Qed.

(** More passes than the attribute loop needs change nothing. *)
Lemma read_attrs_fuel (fuel : nat) :
  forall (fuel' : nat) (s : string) (pos : nat) (a : attrs),
    finishes (read_attrs fuel s pos a) -> fuel <= fuel' ->
    read_attrs fuel' s pos a = read_attrs fuel s pos a.
Proof.
  induction fuel as [|fuel IH]; intros fuel' s pos a F Hle; [destruct F|].
  destruct fuel' as [|fuel']; [lia|].
  cbn [read_attrs] in *. cbv zeta in *.
  repeat match goal with
    | |- context [match ?x with _ => _ end] =>
        lazymatch x with
        | context [match _ with _ => _ end] => fail
        | _ => destruct x
        end
    end; try reflexivity; (apply IH; [exact F | lia]).
Qed.

Lemma read_attrs_shift_fuel (pos : nat) (a : attrs) :
  read_attrs (S (size (pre ++ str))) (pre ++ str) (size pre + pos) a
  = shift_attrs (size pre) (read_attrs (S (size str)) str pos a).
Proof.
  rewrite read_attrs_shift. f_equal.
  apply read_attrs_fuel.
  - destruct (read_attrs_returns (S (size str)) str pos a) as (r & -> & _);
      [lia | exact I].
  - rewrite size_app. lia.
Qed.

Hypothesis str_long : 1 < size str.

Lemma read_open_tag_shift (pos : nat) (name : string) :
  read_open_tag (pre ++ str) (size pre + pos) name
  = shift_token (size pre) (read_open_tag str pos name).
Proof.
  unfold read_open_tag. cbv zeta.
  assert (L1 : (1 <? size (pre ++ str)) = true)
    by (apply Nat.ltb_lt; rewrite size_app; lia).
  assert (L2 : (1 <? size str) = true) by (apply Nat.ltb_lt; lia).
  rewrite L1, L2. cbn [andb].
  rewrite skip_ws_shift.
  replace (size pre + pos <? size pre + skip_ws str pos)
    with (pos <? skip_ws str pos)
    by (destruct (Nat.ltb_spec pos (skip_ws str pos));
        symmetry; [apply Nat.ltb_lt | apply Nat.ltb_ge]; lia).
  destruct (pos <? skip_ws str pos).
  - rewrite read_attrs_shift_fuel.
    destruct (read_attrs (S (size str)) str (skip_ws str pos) [])
      as [[[p a]|]| |]; cbn [shift_attrs shift_token]; try reflexivity.
    repeat (shift_norm; try shift_case); reflexivity.
  - repeat (shift_norm; try shift_case); reflexivity.
Qed.

Lemma read_element_shift (pos : nat) :
  read_element (pre ++ str) (size pre + pos)
  = shift_token (size pre) (read_element str pos).
Proof.
  unfold read_element. cbv zeta.
  repeat (shift_norm; try shift_case); try reflexivity;
    apply read_open_tag_shift.
Qed.

Lemma iterate_elements_shift {St : Type} (h : handler St) (fuel : nat) :
  forall (pos : nat) (st : St),
    iterate_elements fuel (pre ++ str) (size pre + pos) h st
    = shift_scan (size pre) (iterate_elements fuel str pos h st).
Proof.
  induction fuel as [|fuel IH]; intros pos st; [reflexivity|].
  cbn [iterate_elements].
  rewrite size_ltb_shift, read_element_shift.
  destruct (pos <? size str); [|reflexivity].
  destruct (read_element str pos) as [[p|p|p el]| |];
    cbn [shift_token shift_scan]; try reflexivity.
  repeat match goal with
    | |- context [match ?x with _ => _ end] =>
        lazymatch x with
        | context [match _ with _ => _ end] => fail
        | context [iterate_elements] => fail
        | _ => destruct x
        end
    end; cbn [shift_scan]; try reflexivity; apply IH.
Qed.

End Shift.

(** A run of [process_ofx] on a text with something put before it, the
    cursor moved accordingly, gives what the run on the text gives. *)
Lemma process_ofx_shift (root_cont : ofx_cont) (pctx : process_ctx)
    (pre str : string) (pos : nat) :
  1 < size str ->
  process_ofx root_cont pctx (pre ++ str) (size pre + pos)
  = process_ofx root_cont pctx str pos.
Proof.
  intros Hl. rewrite !process_ofx_unfold.
  rewrite (iterate_elements_shift pre str Hl).
  rewrite (iterate_elements_fuel handle_element (S (size str))
             (S (size (pre ++ str)))).
  - destruct (iterate_elements (S (size str)) str pos handle_element
                (loop_start root_cont pctx)) as [[[b p] q]| |];
      try reflexivity.
  - apply iterate_elements_finishes; [apply handle_element_finishes | lia].
  - rewrite size_app. lia.
Qed.

Lemma find_ofx_head (post : string) :
  String.index 0 "<OFX>" ("<OFX>" ++ post) = Some 0.
Proof. simpl. destruct post; reflexivity. Qed.

(** X22: what stands before the first <OFX> of the input (the header of the
    file) plays no part: the run gives what it gives on the input from that
    <OFX> on. *)
Theorem main_skips_header (root_cont : ofx_cont) (pre post : string) :
  String.index 0 "<OFX>" (pre ++ "<OFX>" ++ post) = Some (size pre) ->
  main root_cont (pre ++ "<OFX>" ++ post) = main root_cont ("<OFX>" ++ post).
Proof.
  intros H. unfold main. rewrite H.
  rewrite find_ofx_head.
  rewrite (process_ofx_shift root_cont _ pre ("<OFX>" ++ post) 5);
    [reflexivity | simpl; lia].
Qed.

Lemma main_skips_header_witness :
  main ofx_main
    ("OFXHEADER:100 DATA:OFXSGML <?x?> " ++ "<OFX>" ++ "<SIGNONMSGSRSV1></OFX>")
  = main ofx_main ("<OFX>" ++ "<SIGNONMSGSRSV1></OFX>").
Proof.
  apply (main_skips_header ofx_main "OFXHEADER:100 DATA:OFXSGML <?x?> "
           "<SIGNONMSGSRSV1></OFX>").
  vm_compute. reflexivity.
Defined.

(** ** The fraction of a second *)

(** X23: on a text of fourteen digits followed by a point and three more
    digits [parse_datetime] succeeds exactly when it does on the fourteen
    digits, with the same date and time, the three digits as [msecs] and
    offset 0; [add_datetime] then stores what it stores for the fourteen
    digits alone: the fraction of a second is read and not written. *)
Theorem fraction_of_second_dropped (y mo d h mi s ms : string) :
  size y = 4 -> size mo = 2 -> size d = 2 ->
  size h = 2 -> size mi = 2 -> size s = 2 -> size ms = 3 ->
  all_digits y = true -> all_digits mo = true -> all_digits d = true ->
  all_digits h = true -> all_digits mi = true -> all_digits s = true ->
  all_digits ms = true ->
  parse_datetime (y ++ mo ++ d ++ h ++ mi ++ s ++ "." ++ ms)
  = (if in_range 1 12 (number_of mo) && in_range 1 31 (number_of d)
        && (number_of h <=? 23)%Z && (number_of mi <=? 59)%Z
        && (number_of s <=? 60)%Z
     then Some (mk_datetime
                  (mk_tm (number_of y - 1900) (number_of mo - 1)
                     (number_of d) (number_of h) (number_of mi)
                     (number_of s)) (Some (number_of ms)) 0)
     else None) /\
  (in_range 1 12 (number_of mo) && in_range 1 31 (number_of d)
     && (number_of h <=? 23)%Z && (number_of mi <=? 59)%Z
     && (number_of s <=? 60)%Z = true ->
   forall (hp : heap) (val : nat) (element : string),
     add_datetime hp val element (y ++ mo ++ d ++ h ++ mi ++ s ++ "." ++ ms)
     = add_datetime hp val element (y ++ mo ++ d ++ h ++ mi ++ s)).
Proof.
  intros Sy Sm Sd Sh Si Ss Sms Dy Dm Dd Dh Di Ds Dms.
  set (frac := "." ++ ms).
  destruct (parse_date_fields y mo d (h ++ mi ++ s ++ frac) Sy Sm Sd Dy Dm Dd)
    as (P0 & P4 & P6).
  set (text := y ++ mo ++ d ++ h ++ mi ++ s ++ frac) in *.
  assert (P8 : parse_digits wrap_int text 8 (Some 2) = (2, number_of h)).
  { pose proof (parse_digits_field (y ++ mo ++ d) h (mi ++ s ++ frac) Dh
                  ltac:(lia)) as P.
    rewrite !size_app, Sy, Sm, Sd, Sh, !app_assoc_s in P. exact P. }
  assert (P10 : parse_digits wrap_int text 10 (Some 2) = (2, number_of mi)).
  { pose proof (parse_digits_field (y ++ mo ++ d ++ h) mi (s ++ frac) Di
                  ltac:(lia)) as P.
    rewrite !size_app, Sy, Sm, Sd, Sh, Si, !app_assoc_s in P. exact P. }
  assert (P12 : parse_digits wrap_int text 12 (Some 2) = (2, number_of s)).
  { pose proof (parse_digits_field (y ++ mo ++ d ++ h ++ mi) s frac Ds
                  ltac:(lia)) as P.
    rewrite !size_app, Sy, Sm, Sd, Sh, Si, Ss, !app_assoc_s in P. exact P. }
  assert (L : size text = 18)
    by (unfold text, frac; rewrite !size_app; simpl; lia).
  assert (T : text = (y ++ mo ++ d ++ h ++ mi ++ s) ++ String "." ms)
    by (unfold text, frac; rewrite !app_assoc_s; reflexivity).
  assert (L14 : size (y ++ mo ++ d ++ h ++ mi ++ s) = 14)
    by (rewrite !size_app; lia).
  assert (D14 : drop 14 text = String "." ms)
    by (rewrite T, <- L14; apply drop_app_exact).
  assert (P15 : parse_digits wrap_uint text 15 (Some 3) = (3, number_of ms)).
  { destruct (parse_digits_exact_gen wrap_uint wrap_uint_small) as (H & _).
    assert (W : take 3 (drop 15 text) = ms).
    { rewrite (drop_S _ _ _ _ D14), <- Sms.
      pose proof (take_app_exact ms "") as T3.
      rewrite app_nil_r_s in T3. exact T3. }
    rewrite H; rewrite ?W; auto; try lia.
    pose proof (dec_value_bound ms Dms) as B. rewrite Sms in B.
    change (10 ^ Z.of_nat 3)%Z with 1000%Z in B. lia. }
  assert (W18 : skip_ws text 18 = 18).
  { rewrite skip_ws_lead.
    assert (E : drop 18 text = "") by (apply drop_empty_iff; lia).
    rewrite E. reflexivity. }
  pose proof (number_of_range y 4 Dy Sy ltac:(lia)) as Ry.
  pose proof (number_of_range mo 2 Dm Sm ltac:(lia)) as Rm.
  pose proof (number_of_range d 2 Dd Sd ltac:(lia)) as Rd.
  assert (P : parse_datetime text
              = if in_range 1 12 (number_of mo) && in_range 1 31 (number_of d)
                   && (number_of h <=? 23)%Z && (number_of mi <=? 59)%Z
                   && (number_of s <=? 60)%Z
                then Some (mk_datetime
                             (mk_tm (number_of y - 1900) (number_of mo - 1)
                                (number_of d) (number_of h) (number_of mi)
                                (number_of s)) (Some (number_of ms)) 0)
                else None).
  { unfold parse_datetime. cbv zeta.
    rewrite L, P0, P4, P6, P8, P10, P12, (char_at_drop _ _ _ _ D14), P15.
    rewrite (wrap_int_small (number_of y - 1900)) by lia.
    cbn [Nat.ltb Nat.leb Nat.eqb orb Nat.add chr_eqb Ascii.eqb Bool.eqb].
    rewrite W18.
    cbn [Nat.ltb Nat.leb].
    range_cases; rewrite wrap_int_small by lia; reflexivity. }
  split; [exact P|].
  intros R hp val element. unfold add_datetime.
  rewrite P, R.
  assert (P' : parse_datetime (y ++ mo ++ d ++ h ++ mi ++ s)
               = Some (mk_datetime
                         (mk_tm (number_of y - 1900) (number_of mo - 1)
                            (number_of d) (number_of h) (number_of mi)
                            (number_of s)) None 0)).
  { destruct parse_datetime_digits_gen as (_ & H14).
    rewrite (H14 y mo d h mi s) by assumption. rewrite R. reflexivity. }
  rewrite P'. reflexivity.
Qed.

Lemma fraction_of_second_dropped_witness :
  parse_datetime ("2021" ++ "01" ++ "15" ++ "12" ++ "30" ++ "59" ++ "." ++ "123")
  = Some (mk_datetime (mk_tm 121 0 15 12 30 59) (Some 123%Z) 0) /\
  add_datetime [JObject []] 0 "DTSERVER"
    ("2021" ++ "01" ++ "15" ++ "12" ++ "30" ++ "59" ++ "." ++ "123")
  = add_datetime [JObject []] 0 "DTSERVER"
      ("2021" ++ "01" ++ "15" ++ "12" ++ "30" ++ "59").
Proof.
  destruct (fraction_of_second_dropped "2021" "01" "15" "12" "30" "59" "123")
    as (P & A); try reflexivity.
  split; [exact P | apply A; reflexivity].
Defined.

(** ** The elements the tokenizer reads *)

(** What the cursor sees when the unread part of the buffer is known. *)
Lemma at_suffix (str : string) (p : nat) (c : ascii) (r : string) :
  drop p str = String c r ->
  char_at str p = c /\ (size str <=? p) = false /\ drop (S p) str = r /\
  (isspace c = false -> skip_ws str p = p).
Proof.
  intros D. split; [apply (char_at_drop _ _ _ _ D)|].
  split; [rewrite size_leb_drop, D; reflexivity|].
  split; [apply (drop_S _ _ _ _ D)|].
  intros Hc. rewrite skip_ws_lead, D. simpl. rewrite Hc. lia.
Qed.

Lemma drop_add_app (str : string) (p : nat) (a b : string) :
  drop p str = a ++ b -> drop (p + size a) str = b.
Proof. intros D. rewrite <- drop_drop, D. apply drop_app_exact. Qed.

Lemma read_name_from_run (name : string) :
  forall (c : ascii) (r : string) (p : nat) (txt : string),
    all_chars not_name_end name = true -> is_name_end c = true ->
    read_name_from (name ++ String c r) p txt
    = (nonempty (txt ++ name), p + size name, txt ++ name).
Proof.
  induction name as [|x name IH]; intros c r p txt Hn Hc; simpl.
  - rewrite Hc, app_nil_r_s, Nat.add_0_r. reflexivity.
  - simpl in Hn. apply andb_true_iff in Hn as [Hx Hn].
    unfold not_name_end in Hx. apply negb_true_iff in Hx. rewrite Hx.
    rewrite (IH c r (S p) (push_back txt x) Hn Hc), push_back_app.
    replace (p + S (size name)) with (S p + size name) by lia. reflexivity.
Qed.

Lemma not_angle_not_space_end (value : string) (c : ascii) (r : string) :
  is_angle c = true ->
  lead_ws (value ++ String c r) = lead_ws value.
Proof.
  intros Hc. induction value as [|x value IH]; simpl.
  - assert (W : isspace c = false).
    { unfold is_angle in Hc. apply orb_true_iff in Hc.
      destruct Hc as [Hc|Hc]; apply chr_eqb_eq in Hc; subst c; reflexivity. }
    rewrite W. reflexivity.
  - destruct (isspace x); [rewrite IH|]; reflexivity.
Qed.

Lemma read_text_from_run (value : string) :
  forall (c : ascii) (r : string) (p : nat) (txt : string),
    all_chars not_angle value = true -> is_angle c = true ->
    read_text_from (value ++ String c r) p txt
    = (true, p + size value, rtrim (txt ++ value)).
Proof.
  induction value as [|x value IH]; intros c r p txt Hv Hc; simpl.
  - unfold is_angle in Hc. rewrite Hc, app_nil_r_s, Nat.add_0_r. reflexivity.
  - simpl in Hv. apply andb_true_iff in Hv as [Hx Hv].
    unfold not_angle, is_angle in Hx. apply negb_true_iff in Hx. rewrite Hx.
    rewrite (IH c r (S p) (push_back txt x) Hv Hc), push_back_app.
    replace (p + S (size value)) with (S p + size value) by lia. reflexivity.
Qed.

Lemma all_chars_drop (p : ascii -> bool) (n : nat) (s : string) :
  all_chars p s = true -> all_chars p (drop n s) = true.
Proof.
  revert s. induction n as [|n IH]; intros [|c s] H; simpl; auto.
  simpl in H. apply andb_true_iff in H as [_ H]. apply IH, H.
Qed.

Lemma drop_app_le (n : nat) :
  forall a b : string, n <= size a -> drop n (a ++ b) = drop n a ++ b.
Proof.
  induction n as [|n IH]; intros [|c a] b H; simpl in *; try reflexivity;
    try lia.
  apply IH. lia.
Qed.

Lemma read_text_run (str : string) (p : nat) (value : string) (c : ascii)
    (r : string) :
  drop p str = value ++ String c r ->
  all_chars not_angle value = true -> is_angle c = true ->
  read_text str p EmptyString
  = (true, p + size value, rtrim (drop (lead_ws value) value)).
Proof.
  intros D Hv Hc. unfold read_text.
  rewrite skip_ws_lead, D, (not_angle_not_space_end value c r Hc).
  destruct (lead_ws_spec value) as (L & _ & _).
  assert (D' : drop (p + lead_ws value) str
               = drop (lead_ws value) value ++ String c r).
  { rewrite <- drop_drop, D. apply drop_app_le. exact L. }
  rewrite D'.
  rewrite (read_text_from_run _ c r _ "" (all_chars_drop _ _ _ Hv) Hc).
  rewrite size_drop. simpl String.append.
  f_equal. f_equal. lia.
Qed.

Lemma name_head (name : string) :
  name <> "" -> all_chars not_name_end name = true ->
  exists x t, name = String x t /\ is_name_end x = false /\
              isspace x = false /\ chr_eqb x "/" = false.
Proof.
  intros Hn Ha. destruct name as [|x t]; [congruence|].
  simpl in Ha. apply andb_true_iff in Ha as [Hx _].
  unfold not_name_end in Hx. apply negb_true_iff in Hx.
  exists x, t. split; [reflexivity|]. split; [exact Hx|].
  unfold is_name_end in Hx.
  repeat (apply orb_false_iff in Hx; destruct Hx as [Hx ?]).
  split; [|assumption]. unfold isspace. cbv zeta. rewrite Hx, H4. reflexivity.
Qed.

(** X24: the tokenizer on a tag without attributes and without white
    space in it.  An open tag is read as an element with the name between the
    brackets and the text that follows up to the next angle bracket, without
    the white space around it; a close tag as an element whose name starts
    with the slash, with no text.  The cursor is left on the bracket that
    ends the text, and behind the close tag. *)
Theorem read_element_plain (str : string) (pos : nat) (name : string) :
  name <> "" -> all_chars not_name_end name = true ->
  (forall (value : string) (c : ascii) (r : string),
     drop pos str = "<" ++ name ++ ">" ++ value ++ String c r ->
     all_chars not_angle value = true -> is_angle c = true ->
     read_element str pos
     = Ret (TokElement (pos + size name + 2 + size value)
              (mk_element name [] (rtrim (drop (lead_ws value) value)) false))) /\
  (forall r : string,
     drop pos str = "</" ++ name ++ ">" ++ r ->
     read_element str pos
     = Ret (TokElement (pos + size name + 3)
              (mk_element ("/" ++ name) [] EmptyString false))).
Proof.
  intros Hn Ha.
  destruct (name_head name Hn Ha) as (x & t & En & Hx & Hxs & Hxl).
  split.
  - intros value c r D Hv Hc.
    simpl String.append in D.
    destruct (at_suffix _ _ _ _ D) as (C0 & B0 & D1 & W0).
    assert (D1' : drop (S pos) str = String x (t ++ String ">" (value ++ String c r)))
      by (rewrite D1, En; reflexivity).
    destruct (at_suffix _ _ _ _ D1') as (C1 & B1 & _ & W1).
    assert (Rn : read_name str (S pos) EmptyString
                 = (true, S pos + size name, name)).
    { unfold read_name. rewrite D1.
      rewrite (read_name_from_run name ">" _ _ "" Ha eq_refl).
      simpl String.append. rewrite En. reflexivity. }
    pose proof (drop_add_app _ _ _ _ D1) as D2.
    destruct (at_suffix _ _ _ _ D2) as (C2 & B2 & D3 & W2).
    assert (L : (1 <? size str) = true).
    { apply Nat.ltb_lt. pose proof (size_drop pos str) as S0.
      rewrite D, En in S0. simpl in S0. lia. }
    unfold read_element. cbv zeta.
    rewrite (W0 eq_refl), B0, C0. cbn [chr_eqb Ascii.eqb Bool.eqb negb andb].
    rewrite (W1 Hxs), B1, C1, Hxl. cbn [andb negb].
    rewrite Rn. cbn [negb].
    assert (N0 : chr_eqb (char_at name 0) "/" = false)
      by (rewrite En; exact Hxl).
    rewrite N0. cbn [negb].
    unfold read_open_tag. cbv zeta.
    rewrite (W2 eq_refl), Nat.ltb_irrefl, B2, C2, L.
    cbn [chr_eqb Ascii.eqb Bool.eqb negb andb orb].
    rewrite (W2 eq_refl), B2, C2.
    cbn [chr_eqb Ascii.eqb Bool.eqb negb andb orb].
    rewrite (read_text_run str _ value c r D3 Hv Hc). cbn [negb].
    do 2 f_equal. lia.
  - intros r D.
    simpl String.append in D.
    destruct (at_suffix _ _ _ _ D) as (C0 & B0 & D1 & W0).
    destruct (at_suffix _ _ _ _ D1) as (C1 & B1 & D2 & W1).
    assert (D2' : drop (S (S pos)) str = String x (t ++ String ">" r))
      by (rewrite D2, En; reflexivity).
    destruct (at_suffix _ _ _ _ D2') as (C2 & B2 & _ & W2).
    assert (Rn : read_name str (S (S pos)) "/"
                 = (true, S (S pos) + size name, "/" ++ name)).
    { unfold read_name. rewrite D2.
      rewrite (read_name_from_run name ">" _ _ "/" Ha eq_refl). reflexivity. }
    pose proof (drop_add_app _ _ _ _ D2) as D3.
    destruct (at_suffix _ _ _ _ D3) as (C3 & B3 & _ & W3).
    unfold read_element. cbv zeta.
    rewrite (W0 eq_refl), B0, C0. cbn [chr_eqb Ascii.eqb Bool.eqb negb andb].
    rewrite (W1 eq_refl), B1, C1. cbn [chr_eqb Ascii.eqb Bool.eqb negb andb].
    rewrite (W2 Hxs), B2. cbn [andb].
    rewrite Rn. cbn [negb].
    change (chr_eqb (char_at ("/" ++ name) 0) "/") with true. cbn [negb].
    rewrite (W3 eq_refl), B3, C3.
    cbn [chr_eqb Ascii.eqb Bool.eqb negb andb orb].
    do 2 f_equal. lia.
Qed.

Lemma read_element_plain_witness :
  read_element "<OFX><CODE> 0 </CODE>" 5
  = Ret (TokElement (5 + size "CODE" + 2 + size " 0 ")
           (mk_element "CODE" [] (rtrim (drop (lead_ws " 0 ") " 0 ")) false)) /\
  read_element "<OFX><CODE> 0 </CODE>" 14
  = Ret (TokElement (14 + size "CODE" + 3)
           (mk_element ("/" ++ "CODE") [] EmptyString false)).
Proof.
  split.
  - destruct (read_element_plain "<OFX><CODE> 0 </CODE>" 5 "CODE")
      as (H & _); [discriminate | reflexivity|].
    apply (H " 0 " "<"%char "/CODE>"); reflexivity.
  - destruct (read_element_plain "<OFX><CODE> 0 </CODE>" 14 "CODE")
      as (_ & H); [discriminate | reflexivity|].
    apply (H ""). reflexivity.
Defined.

(** ** Attribute values *)

Lemma read_attrval_from_unquoted (rest : string) :
  forall (pos : nat) (txt : string),
    read_attrval_from false rest pos txt = read_name_from rest pos txt.
Proof.
  induction rest as [|c rest IH]; intros pos txt; simpl; [reflexivity|].
  destruct (is_name_end c); [reflexivity | apply IH].
Qed.

Lemma read_attrval_from_quoted (rest : string) :
  forall (pos : nat) (txt : string) (ok : bool) (pos' : nat) (txt' : string),
    read_attrval_from true rest pos txt = (ok, pos', txt') ->
    exists n,
      pos' = pos + n /\ n <= size rest /\ txt' = txt ++ take n rest /\
      all_chars not_dquote (take n rest) = true /\
      starts_with not_dquote (drop n rest) = false /\
      ok = nonempty (drop n rest) && nonempty txt'.
Proof.
  induction rest as [|c rest IH]; intros pos txt ok pos' txt' H; simpl in H.
  - inversion H; subst. exists 0. simpl. rewrite app_nil_r_s.
    repeat split; auto.
  - destruct (chr_eqb c dquote) eqn:Ec.
    + inversion H; subst. exists 0. simpl. rewrite app_nil_r_s.
      unfold not_dquote. rewrite Ec. repeat split; auto; lia.
    + apply IH in H as (n & -> & Hn & -> & Ha & Hs & ->).
      exists (S n). simpl. unfold not_dquote at 1. rewrite Ec. simpl.
      rewrite push_back_app. repeat split; auto; lia.
Qed.

(** X25: an attribute value without quotes is read as a name is.  A value
    in quotes is what stands before the next double quote, whatever the
    characters; it is accepted when that quote is there and the value is not
    empty, so that an empty value in quotes is refused. *)
Theorem read_attrval_spec (str : string) (pos : nat) :
  read_attrval str pos EmptyString false = read_name str pos EmptyString /\
  (forall (ok : bool) (pos' : nat) (v : string),
     read_attrval str pos EmptyString true = (ok, pos', v) ->
     pos <= pos' /\
     v = take (pos' - pos) (drop pos str) /\
     all_chars not_dquote v = true /\
     starts_with not_dquote (drop pos' str) = false /\
     ok = nonempty (drop pos' str) && nonempty v).
Proof.
  split.
  - unfold read_attrval, read_name. apply read_attrval_from_unquoted.
  - intros ok pos' v H. unfold read_attrval in H.
    apply read_attrval_from_quoted in H as (n & -> & Hn & -> & Ha & Hs & ->).
    simpl String.append.
    replace (pos + n - pos) with n by lia.
    rewrite <- drop_drop.
    repeat split; auto. lia.
Qed.

Lemma read_attrval_spec_witness :
  read_attrval "<A b=c d>" 5 EmptyString false
  = read_name "<A b=c d>" 5 EmptyString /\
  "" = take (6 - 6) (drop 6 ("<A b=" ++ String dquote (String dquote ">"))) /\
  false = nonempty (drop 6 ("<A b=" ++ String dquote (String dquote ">")))
          && nonempty "".
Proof.
  destruct (read_attrval_spec "<A b=c d>" 5) as (U & _).
  destruct (read_attrval_spec ("<A b=" ++ String dquote (String dquote ">")) 6)
    as (_ & Q).
  destruct (Q false 6 "" eq_refl) as (_ & Q1 & _ & _ & Q2).
  split; [exact U|]. split; [exact Q1 | exact Q2].
Defined.

(** ** The value of a leaf *)

Lemma zeros_not_nul (n : nat) : all_chars not_nul (zeros n) = true.
Proof. induction n as [|n IH]; simpl; [reflexivity | exact IH]. Qed.

Lemma string_of_uint_not_nul (d : Decimal.uint) :
  all_chars not_nul (NilZero.string_of_uint d) = true.
Proof.
  destruct d; try reflexivity; unfold NilZero.string_of_uint;
    match goal with
    | |- all_chars _ (NilEmpty.string_of_uint (_ ?u)) = true =>
        simpl; induction u; simpl; auto
    end.
Qed.

Lemma fmt_int_not_nul (plus : bool) (width : nat) (v : Z) :
  all_chars not_nul (fmt_int plus width v) = true.
Proof.
  unfold fmt_int. cbv zeta.
  rewrite !all_chars_app, zeros_not_nul, string_of_uint_not_nul.
  destruct (v <? 0)%Z; [reflexivity|]. destruct plus; reflexivity.
Qed.

(** The text [add_datetime] builds has no NUL in it: as a C string it is
    the text itself. *)
Lemma format_datetime_not_nul (d : datetime) :
  all_chars not_nul (format_datetime d) = true.
Proof.
  unfold format_datetime, strftime_FT. cbv zeta.
  destruct (dt_tzoff_min d =? 0)%Z;
    [|destruct (negb (Z.rem (Z.abs (dt_tzoff_min d)) 60 =? 0)%Z)];
    rewrite !all_chars_app, !fmt_int_not_nul; reflexivity.
Qed.

(** X26: in a run on a schema whose containers fit their values, a tag that
    the front container declares as a leaf adds one member to the object of
    that container, under the lower-cased name of the tag: the text for a
    string, the decoded number or truth value, the rendered timestamp, or
    the text as it is when it is no timestamp.  Nothing else changes but
    the pending tags.  When the number or the truth value does not decode
    the process is ended.  The text is one without a NUL character: the
    program hands it on as a C string, which would end there. *)
Theorem handle_tag_leaf (root_cont : ofx_cont) (pctx : process_ctx)
    (this : ofx_container) (below : list ofx_container) (element : string)
    (a : attrs) (text : string) (fmt : tag_fmt) :
  wf_cont root_cont = true -> reachable root_cont pctx ->
  all_chars not_nul text = true ->
  ostack_ pctx = this :: below ->
  map_find element (sub (cont_ this)) = None ->
  map_find element (tags (cont_ this)) = Some fmt ->
  exists ms,
    load (heap_ pctx) (val_ this) = JObject ms /\
    handle_tag pctx element a text
    = match leaf_value fmt text with
      | Some v =>
          Ret (true,
               mk_process_ctx
                 (store (heap_ pctx) (val_ this)
                    (JObject (ms ++ [(str_lower element, v)])%list))
                 (cerr_ pctx) (doc_ pctx)
                 (set_tags this (tags_ this ++ [(element, text)])%list
                  :: below))
      | None => Aborted
      end.
Proof.
  intros Hw R Hz Es Hsub Ht.
  destruct (leaf_value_object pctx this below element fmt
              (reachable_ok _ _ Hw R) Es Ht) as [ms Hl].
  exists ms. split; [exact Hl|].
  unfold handle_tag. rewrite Es, Hsub, Ht.
  unfold leaf_value.
  destruct fmt; unfold add_number, add_bool, add_datetime, add_string, AddMember.
  - rewrite Hl, (c_str_id text Hz). reflexivity.
  - destruct (parse_number text); [rewrite Hl|]; reflexivity.
  - destruct (parse_bool text); [rewrite Hl|]; reflexivity.
  - destruct (parse_datetime text) as [d|]; rewrite Hl.
    + rewrite (c_str_id _ (format_datetime_not_nul d)). reflexivity.
    + rewrite (c_str_id text Hz). reflexivity.
Qed.

Lemma handle_tag_leaf_witness :
  exists ms,
    load (heap_ sonrs_ctx) (val_ sonrs_frame) = JObject ms /\
    handle_tag sonrs_ctx "DTSERVER" [] est_stamp
    = match leaf_value tag_datetime est_stamp with
      | Some v =>
          Ret (true,
               mk_process_ctx
                 (store (heap_ sonrs_ctx) (val_ sonrs_frame)
                    (JObject (ms ++ [(str_lower "DTSERVER", v)])%list))
                 (cerr_ sonrs_ctx) (doc_ sonrs_ctx)
                 (set_tags sonrs_frame
                    (tags_ sonrs_frame ++ [("DTSERVER", est_stamp)])%list
                  :: sonrs_below))
      | None => Aborted
      end.
Proof.
  apply (handle_tag_leaf ofx_main sonrs_ctx sonrs_frame sonrs_below "DTSERVER"
           [] est_stamp tag_datetime).
  - exact wf_ofx_main.
  - exact sonrs_ctx_reachable.
  - reflexivity.
  - reflexivity.
  - reflexivity.
  - reflexivity.
Defined.

(** ** A whole run *)

Section Steps.

Context {St : Type} (h : handler St).

(** One pass of the loop on an open tag without attributes. *)
Lemma iterate_elements_open (fuel : nat) (str : string) (pos : nat) (st : St)
    (name value : string) (c : ascii) (r : string) :
  name <> "" -> all_chars not_name_end name = true ->
  drop pos str = "<" ++ name ++ ">" ++ value ++ String c r ->
  all_chars not_angle value = true -> is_angle c = true ->
  iterate_elements (S fuel) str pos h st
  = match try_xml_decode (trim value) with
    | Ret text =>
        match h st name [] text with
        | Ret (true, st') =>
            iterate_elements fuel str (pos + size name + 2 + size value) h st'
        | Ret (false, st') => Ret (false, pos + size name + 2 + size value, st')
        | Aborted => Aborted
        | OutOfFuel => OutOfFuel
        end
    | Aborted => Aborted
    | OutOfFuel => OutOfFuel
    end.
Proof.
  intros Hn Ha D Hv Hc.
  destruct (read_element_plain str pos name Hn Ha) as (R & _).
  destruct (name_head name Hn Ha) as (x & t & En & _ & _ & Hx).
  cbn [iterate_elements].
  assert (L : (pos <? size str) = true).
  { apply Nat.ltb_lt. pose proof (size_drop pos str) as S0.
    rewrite D in S0. simpl in S0. lia. }
  rewrite L, (R value c r D Hv Hc). cbn [el_name el_text el_attrs simple_tag].
  assert (N : String.eqb name "/OFX" = false).
  { rewrite En. simpl. unfold chr_eqb in Hx. rewrite Hx. reflexivity. }
  rewrite N. fold (trim value).
  destruct (try_xml_decode (trim value)); reflexivity.
Qed.

(** One pass of the loop on a close tag. *)
Lemma iterate_elements_close (fuel : nat) (str : string) (pos : nat) (st : St)
    (name : string) (r : string) :
  name <> "" -> all_chars not_name_end name = true ->
  drop pos str = "</" ++ name ++ ">" ++ r ->
  iterate_elements (S fuel) str pos h st
  = if String.eqb name "OFX" then Ret (true, pos + size name + 3, st)
    else
      match h st ("/" ++ name) [] EmptyString with
      | Ret (true, st') => iterate_elements fuel str (pos + size name + 3) h st'
      | Ret (false, st') => Ret (false, pos + size name + 3, st')
      | Aborted => Aborted
      | OutOfFuel => OutOfFuel
      end.
Proof.
  intros Hn Ha D.
  destruct (read_element_plain str pos name Hn Ha) as (_ & R).
  cbn [iterate_elements].
  assert (L : (pos <? size str) = true).
  { apply Nat.ltb_lt. pose proof (size_drop pos str) as S0.
    rewrite D in S0. simpl in S0. lia. }
  rewrite L, (R r D). cbn [el_name el_text el_attrs simple_tag].
  change (String.eqb ("/" ++ name) "/OFX") with (String.eqb name "OFX").
  destruct (String.eqb name "OFX"); [reflexivity|].
  change (try_xml_decode "") with (@Ret string "").
  reflexivity.
Qed.

End Steps.

Lemma all_chars_rtrim (p : ascii -> bool) (s : string) :
  all_chars p s = true -> all_chars p (rtrim s) = true.
Proof.
  intros H. destruct (rtrim_split s) as (ws & E & _).
  rewrite E, all_chars_app in H. apply andb_true_iff in H. apply H.
Qed.

Lemma all_chars_trim (p : ascii -> bool) (s : string) :
  all_chars p s = true -> all_chars p (trim s) = true.
Proof. intros H. apply all_chars_rtrim, all_chars_drop, H. Qed.

(** The run on the document with the leaf text [value], given what the
    text decodes to: the leaf gets the C string of the decoded text. *)
Lemma signon_document_run (value text : string) :
  all_chars not_angle value = true ->
  try_xml_decode (trim value) = Ret text ->
  ofx2json (signon_document value)
  = Ret (mk_outcome 0 (Some (signon_json (c_str text))) [ProcessingSucceeded]).
Proof.
  intros Hv Hd. unfold ofx2json, main.
  set (body := "<SIGNONMSGSRSV1><SONRS><LANGUAGE>" ++ value
               ++ "</SONRS></SIGNONMSGSRSV1></OFX>").
  change (signon_document value) with ("<OFX>" ++ body).
  rewrite find_ofx_head. rewrite process_ofx_unfold.
  change (mk_process_ctx [JObject []] [] 0 []) with fresh_ctx.
  set (input := "<OFX>" ++ body).
  assert (F : exists fuel, S (size input) = S (S (S (S (S (S (S fuel))))))).
  { exists (size input - 6). unfold input, body. rewrite !size_app. simpl. lia. }
  destruct F as [fuel ->].
  assert (D0 : drop (0 + 5) input
               = "<" ++ "SIGNONMSGSRSV1" ++ ">" ++ "" ++ String "<"
                   ("SONRS><LANGUAGE>" ++ value
                    ++ "</SONRS></SIGNONMSGSRSV1></OFX>")) by reflexivity.
  rewrite (iterate_elements_open handle_element _ input _ _ "SIGNONMSGSRSV1" ""
             "<" _ ltac:(discriminate) eq_refl D0 eq_refl eq_refl).
  change (try_xml_decode (trim "")) with (@Ret string "").
  cbv beta iota.
  set (p1 := handle_element (loop_start ofx_main fresh_ctx) "SIGNONMSGSRSV1" [] "").
  vm_compute in p1. subst p1. cbv beta iota.
  assert (D1 : drop (0 + 5 + size "SIGNONMSGSRSV1" + 2 + size "") input
               = "<" ++ "SONRS" ++ ">" ++ "" ++ String "<"
                   ("LANGUAGE>" ++ value
                    ++ "</SONRS></SIGNONMSGSRSV1></OFX>")) by reflexivity.
  rewrite (iterate_elements_open handle_element _ input _ _ "SONRS" ""
             "<" _ ltac:(discriminate) eq_refl D1 eq_refl eq_refl).
  change (try_xml_decode (trim "")) with (@Ret string "").
  cbv beta iota.
  match goal with
  | |- context [handle_element ?c "SONRS" [] ""] =>
      set (p2 := handle_element c "SONRS" [] "")
  end.
  vm_compute in p2. subst p2. cbv beta iota.
  assert (D2 : drop (0 + 5 + size "SIGNONMSGSRSV1" + 2 + size ""
                     + size "SONRS" + 2 + size "") input
               = "<" ++ "LANGUAGE" ++ ">" ++ value ++ String "<"
                   "/SONRS></SIGNONMSGSRSV1></OFX>") by reflexivity.
  rewrite (iterate_elements_open handle_element _ input _ _ "LANGUAGE" value
             "<" _ ltac:(discriminate) eq_refl D2 Hv eq_refl).
  rewrite Hd.
  match goal with
  | |- context [handle_element ?c "LANGUAGE" [] text] =>
      set (p3 := handle_element c "LANGUAGE" [] text)
  end.
  vm_compute in p3. subst p3. cbv beta iota.
  set (q := 0 + 5 + size "SIGNONMSGSRSV1" + 2 + size "" + size "SONRS" + 2
            + size "" + size "LANGUAGE" + 2 + size value).
  assert (Q : q = size ("<OFX><SIGNONMSGSRSV1><SONRS><LANGUAGE>" ++ value))
    by (unfold q; rewrite size_app; simpl; lia).
  assert (D3 : drop q input
               = "</" ++ "SONRS" ++ ">" ++ "</SIGNONMSGSRSV1></OFX>").
  { rewrite Q.
    change input with (("<OFX><SIGNONMSGSRSV1><SONRS><LANGUAGE>" ++ value)
                       ++ "</SONRS></SIGNONMSGSRSV1></OFX>").
    apply drop_app_exact. }
  clearbody q.
  rewrite (iterate_elements_close handle_element _ input q _ "SONRS" _
             ltac:(discriminate) eq_refl D3).
  change (String.eqb "SONRS" "OFX") with false. cbv iota.
  match goal with
  | |- context [handle_element ?c ("/" ++ "SONRS") [] ""] =>
      set (p4 := handle_element c ("/" ++ "SONRS") [] "")
  end.
  vm_compute in p4. subst p4. cbv beta iota.
  assert (D4 : drop (q + size "SONRS" + 3) input
               = "</" ++ "SIGNONMSGSRSV1" ++ ">" ++ "</OFX>").
  { replace (q + size "SONRS" + 3) with (q + 8) by (simpl; lia).
    rewrite <- drop_drop, D3. reflexivity. }
  rewrite (iterate_elements_close handle_element _ input _ _ "SIGNONMSGSRSV1" _
             ltac:(discriminate) eq_refl D4).
  change (String.eqb "SIGNONMSGSRSV1" "OFX") with false. cbv iota.
  match goal with
  | |- context [handle_element ?c ("/" ++ "SIGNONMSGSRSV1") [] ""] =>
      set (p5 := handle_element c ("/" ++ "SIGNONMSGSRSV1") [] "")
  end.
  vm_compute in p5. subst p5. cbv beta iota.
  assert (D5 : drop (q + size "SONRS" + 3 + size "SIGNONMSGSRSV1" + 3) input
               = "</" ++ "OFX" ++ ">" ++ "").
  { replace (q + size "SONRS" + 3 + size "SIGNONMSGSRSV1" + 3)
      with (q + 25) by (simpl; lia).
    rewrite <- drop_drop, D3. reflexivity. }
  rewrite (iterate_elements_close handle_element _ input _ _ "OFX" _
             ltac:(discriminate) eq_refl D5).
  change (String.eqb "OFX" "OFX") with true. cbv iota.
  reflexivity.
Qed.

Lemma xml_escape_char_cases (c : ascii) :
  xml_escape_char c = String c "" \/
  (isspace c = false /\
   exists e, xml_escape_char c = String "&" (e ++ ";") /\
             all_chars not_angle e = true).
Proof.
  unfold xml_escape_char.
  destruct (chr_eqb c dquote) eqn:E1;
    [apply chr_eqb_eq in E1; subst c; right; split; [reflexivity|];
     exists "quot"; split; reflexivity|].
  destruct (chr_eqb c "&") eqn:E2;
    [apply chr_eqb_eq in E2; subst c; right; split; [reflexivity|];
     exists "amp"; split; reflexivity|].
  destruct (chr_eqb c "'") eqn:E3;
    [apply chr_eqb_eq in E3; subst c; right; split; [reflexivity|];
     exists "apos"; split; reflexivity|].
  destruct (chr_eqb c "<") eqn:E4;
    [apply chr_eqb_eq in E4; subst c; right; split; [reflexivity|];
     exists "lt"; split; reflexivity|].
  destruct (chr_eqb c ">") eqn:E5;
    [apply chr_eqb_eq in E5; subst c; right; split; [reflexivity|];
     exists "gt"; split; reflexivity|].
  left. reflexivity.
Qed.

Lemma xml_escape_char_not_angle (c : ascii) :
  all_chars not_angle (xml_escape_char c) = true.
Proof.
  unfold xml_escape_char.
  destruct (chr_eqb c dquote); [reflexivity|].
  destruct (chr_eqb c "&"); [reflexivity|].
  destruct (chr_eqb c "'"); [reflexivity|].
  destruct (chr_eqb c "<") eqn:E4; [reflexivity|].
  destruct (chr_eqb c ">") eqn:E5; [reflexivity|].
  simpl. unfold not_angle, is_angle. rewrite E4, E5. reflexivity.
Qed.

Lemma xml_escape_not_angle (s : string) :
  all_chars not_angle (xml_escape s) = true.
Proof.
  induction s as [|c r IH]; simpl; [reflexivity|].
  rewrite all_chars_app, xml_escape_char_not_angle, IH. reflexivity.
Qed.

Lemma xml_escape_starts (s : string) :
  starts_with_space (xml_escape s) = starts_with_space s.
Proof.
  destruct s as [|c r]; simpl; [reflexivity|].
  destruct (xml_escape_char_cases c) as [-> | (W & e & -> & _)];
    simpl; [reflexivity | rewrite W; reflexivity].
Qed.

Lemma ends_with_space_app (a b : string) :
  b <> "" -> ends_with_space (a ++ b) = ends_with_space b.
Proof.
  intros Hb. induction a as [|c a IH]; simpl; [reflexivity|].
  destruct (a ++ b) eqn:E; [|exact IH].
  destruct a; simpl in E; congruence.
Qed.

Lemma ends_with_space_escape_char (c : ascii) :
  ends_with_space (xml_escape_char c) = isspace c.
Proof.
  destruct (xml_escape_char_cases c) as [-> | (W & e & -> & _)];
    [reflexivity|].
  rewrite W.
  change (String "&" (e ++ ";")) with (("&" ++ e) ++ ";").
  apply ends_with_space_app. discriminate.
Qed.

Lemma xml_escape_ends (s : string) :
  ends_with_space (xml_escape s) = ends_with_space s.
Proof.
  induction s as [|c r IH]; [reflexivity|].
  simpl xml_escape.
  destruct r as [|c' r'].
  - simpl xml_escape. rewrite app_nil_r_s. apply ends_with_space_escape_char.
  - rewrite ends_with_space_app; [exact IH|].
    pose proof (size_xml_escape (String c' r')) as L.
    destruct (xml_escape (String c' r')); [simpl in L; lia | discriminate].
Qed.

Lemma rtrim_id (s : string) : ends_with_space s = false -> rtrim s = s.
Proof.
  induction s as [|c r IH]; [reflexivity|].
  intros H. simpl in *. destruct r as [|c' r'].
  - simpl. rewrite H. reflexivity.
  - rewrite (IH H). reflexivity.
Qed.

Lemma trim_id (s : string) :
  starts_with_space s = false -> ends_with_space s = false -> trim s = s.
Proof.
  intros H1 H2. unfold trim.
  assert (L : lead_ws s = 0) by (destruct s; simpl in *; [|rewrite H1]; auto).
  rewrite L. simpl drop. apply rtrim_id, H2.
Qed.

(** X27: a whole run of the program on a document with one leaf.  For a
    text without angle brackets and ampersands the document that holds it as
    the leaf LANGUAGE of the sign-on response gives, with status 0, the JSON
    document with the three nested members in lower case and the text
    without the white space around it.  For any text that neither starts nor
    ends with white space, the document that holds it with the five special
    characters escaped gives the JSON document with the text itself.  The
    texts are those without a NUL character: the program hands the text on
    as a C string, which would end there. *)
Theorem signon_language_run :
  (forall value : string,
     all_chars not_angle value = true -> all_chars not_amp value = true ->
     all_chars not_nul value = true ->
     ofx2json (signon_document value)
     = Ret (mk_outcome 0 (Some (signon_json (trim value)))
              [ProcessingSucceeded])) /\
  (forall s : string,
     starts_with_space s = false -> ends_with_space s = false ->
     all_chars not_nul s = true ->
     ofx2json (signon_document (xml_escape s))
     = Ret (mk_outcome 0 (Some (signon_json s)) [ProcessingSucceeded])).
Proof.
  split.
  - intros value Hv Ha Hz.
    rewrite <- (c_str_id (trim value) (all_chars_trim _ _ Hz)) at 1.
    apply (signon_document_run value); [exact Hv|].
    unfold try_xml_decode.
    rewrite try_xml_decode_loop_plain;
      [reflexivity | lia | apply all_chars_trim, Ha].
  - intros s H1 H2 Hz.
    rewrite <- (c_str_id s Hz) at 2.
    apply (signon_document_run (xml_escape s)); [apply xml_escape_not_angle|].
    rewrite trim_id by (rewrite ?xml_escape_starts, ?xml_escape_ends; assumption).
    unfold try_xml_decode.
    change (xml_escape s) with ("" ++ xml_escape s) at 2.
    change 0 with (size "").
    rewrite try_xml_decode_loop_escaped; [reflexivity|].
    pose proof (size_xml_escape s). simpl. lia.
Qed.

Lemma signon_language_run_witness :
  ofx2json (signon_document " ENG ")
  = Ret (mk_outcome 0 (Some (signon_json (trim " ENG "))) [ProcessingSucceeded]) /\
  ofx2json (signon_document (xml_escape "<a&b>"))
  = Ret (mk_outcome 0 (Some (signon_json "<a&b>")) [ProcessingSucceeded]).
Proof.
  destruct signon_language_run as (H1 & H2).
  split; [apply H1 | apply H2]; reflexivity.
Defined.

(** ** The bracketed time zone *)

Lemma skip_to_bracket_from_run (name : string) :
  forall (r : string) (p : nat),
    all_chars not_bracket name = true ->
    skip_to_bracket_from (name ++ String "]" r) p = p + size name.
Proof.
  induction name as [|c name IH]; intros r p H; simpl.
  - lia.
  - simpl in H. apply andb_true_iff in H as [Hc Hn].
    unfold not_bracket in Hc. apply negb_true_iff in Hc. rewrite Hc.
    rewrite (IH r (S p) Hn). lia.
Qed.

Lemma digits_head (hh : string) :
  hh <> "" -> all_digits hh = true ->
  exists x t, hh = String x t /\ isdigit x = true.
Proof.
  intros Hn Hd. destruct hh as [|x t]; [congruence|].
  simpl in Hd. apply andb_true_iff in Hd as [Hx _]. eauto.
Qed.

(** The zone of the form [sign hours : name], read from its bracket. *)
Lemma parse_tzoff_named (text : string) (i : nat) (sg hh name : string) :
  drop i text = "[" ++ sg ++ hh ++ ":" ++ name ++ "]" ->
  sg = "" \/ sg = "+" \/ sg = "-" ->
  hh <> "" -> all_digits hh = true -> (number_of hh <= 12)%Z ->
  all_chars not_bracket name = true ->
  parse_tzoff text i = Some (zone_minutes sg (number_of hh)).
Proof.
  intros D Hs Hn Hd Hv Hb.
  destruct (digits_head hh Hn Hd) as (x & t & Eh & Hx).
  destruct (isdigit_not_sign x Hx) as (Xm & Xp & Xs).
  pose proof (dec_value_bound hh Hd) as B. fold (number_of hh) in B.
  simpl String.append in D.
  destruct (at_suffix _ _ _ _ D) as (C0 & B0 & D1 & _).
  (* the cursor after the sign *)
  assert (exists j,
            drop j text = hh ++ String ":" (name ++ "]") /\
            (if chr_eqb (char_at text (skip_ws text (S i))) "-"
                || chr_eqb (char_at text (skip_ws text (S i))) "+"
             then S (skip_ws text (S i)) else skip_ws text (S i)) = j /\
            (size text <=? skip_ws text (S i)) = false /\
            (chr_eqb (char_at text (skip_ws text (S i))) "-"
             || chr_eqb (char_at text (skip_ws text (S i))) "+")
            && chr_eqb (char_at text (skip_ws text (S i))) "-"
            = String.eqb sg "-") as (j & Dj & Ej & Bj & Nj).
  { destruct Hs as [->|[->| ->]]; simpl String.append in D1.
    - rewrite Eh in D1. simpl String.append in D1.
      destruct (at_suffix _ _ _ _ D1) as (C1 & B1 & _ & W1).
      rewrite (W1 Xs), C1, Xm, Xp. exists (S i).
      rewrite Eh. repeat split; auto.
    - destruct (at_suffix _ _ _ _ D1) as (C1 & B1 & D2 & W1).
      rewrite (W1 eq_refl), C1. exists (S (S i)). repeat split; auto.
    - destruct (at_suffix _ _ _ _ D1) as (C1 & B1 & D2 & W1).
      rewrite (W1 eq_refl), C1. exists (S (S i)). repeat split; auto. }
  assert (Bj' : (size text <=? j) = false).
  { rewrite size_leb_drop, Dj, Eh. reflexivity. }
  assert (P : parse_digits wrap_int text j None = (size hh, number_of hh)).
  { destruct (parse_digits_exact_gen wrap_int wrap_int_small_pos)
      as (_ & _ & H & _).
    apply (H text j hh (String ":" (name ++ "]")) Dj Hn Hd eq_refl).
    unfold number_of in Hv. lia. }
  pose proof (drop_add_app _ _ _ _ Dj) as D3.
  destruct (at_suffix _ _ _ _ D3) as (C3 & B3 & D4 & W3).
  assert (K : skip_to_bracket text (S (j + size hh)) = S (j + size hh) + size name).
  { unfold skip_to_bracket. rewrite D4.
    apply skip_to_bracket_from_run, Hb. }
  pose proof (drop_add_app _ _ _ _ D4) as D5.
  destruct (at_suffix _ _ _ _ D5) as (C5 & B5 & D6 & _).
  assert (W6 : skip_ws text (S (S (j + size hh) + size name))
               = S (S (j + size hh) + size name))
    by (rewrite skip_ws_lead, D6; simpl; lia).
  assert (L : size text = S (S (j + size hh) + size name)).
  { pose proof (size_drop (S (j + size hh) + size name) text) as S5.
    rewrite D5 in S5. simpl in S5.
    apply Nat.leb_gt in B5. lia. }
  assert (Hsz : size hh <> 0) by (rewrite Eh; discriminate).
  unfold parse_tzoff. cbv zeta.
  rewrite C0. cbn [chr_eqb Ascii.eqb Bool.eqb negb].
  rewrite Bj, Nj, Ej.
  replace ((chr_eqb (char_at text (skip_ws text (S i))) "-"
            || chr_eqb (char_at text (skip_ws text (S i))) "+")
           && (size text <=? j)) with false
    by (rewrite Bj'; destruct (_ || _); reflexivity).
  rewrite P.
  replace (size hh =? 0) with false by (symmetry; apply Nat.eqb_neq, Hsz).
  replace (12 <? number_of hh)%Z with false by (symmetry; apply Z.ltb_ge, Hv).
  cbn [orb].
  rewrite B3, C3. cbn [chr_eqb Ascii.eqb Bool.eqb].
  rewrite (W3 eq_refl), B3, C3. cbn [chr_eqb Ascii.eqb Bool.eqb].
  rewrite K, B5, C5. cbn [chr_eqb Ascii.eqb Bool.eqb negb].
  rewrite W6, L, Nat.ltb_irrefl.
  unfold zone_minutes.
  rewrite (wrap_int_small (number_of hh * 60)) by lia.
  destruct (String.eqb sg "-"); [rewrite wrap_int_small by lia|]; reflexivity.
Qed.

Lemma take_app_le (n : nat) :
  forall a b : string, n <= size a -> take n (a ++ b) = take n a.
Proof.
  induction n as [|n IH]; intros [|c a] b H; simpl in *;
    try reflexivity; try lia; try (destruct b; reflexivity).
  f_equal. apply IH. lia.
Qed.

(** A window that lies in the text is read the same when the text goes on. *)
Lemma parse_digits_window_app (wrap : Z -> Z) (text suf : string) (pos l : nat) :
  pos + l <= size text ->
  parse_digits wrap (text ++ suf) pos (Some l)
  = parse_digits wrap text pos (Some l).
Proof.
  intros H. unfold parse_digits.
  replace (size (text ++ suf) <? pos + l) with false
    by (symmetry; apply Nat.ltb_ge; rewrite size_app; lia).
  replace (size text <? pos + l) with false
    by (symmetry; apply Nat.ltb_ge; lia).
  rewrite drop_app_le by lia.
  rewrite take_app_le by (rewrite size_drop; lia).
  reflexivity.
Qed.

Lemma format_zone (t : tm) (sg : string) (v : Z) :
  (0 <= v)%Z ->
  format_datetime (mk_datetime t None (zone_minutes sg v))
  = strftime_FT t
    ++ (if (v =? 0)%Z then "Z"
        else fmt_int true 3 (if String.eqb sg "-" then (- v)%Z else v)).
Proof.
  intros Hv. unfold format_datetime, zone_minutes. cbv zeta.
  cbn [dt_tm dt_tzoff_min].
  destruct (Z.eqb_spec v 0) as [->|Hn].
  - destruct (String.eqb sg "-"); reflexivity.
  - destruct (String.eqb sg "-").
    + replace (- (v * 60) =? 0)%Z with false by (symmetry; apply Z.eqb_neq; lia).
      rewrite Z.abs_opp, Z.abs_eq by lia.
      rewrite Z.rem_mul by lia. cbn [Z.eqb negb].
      rewrite Z.quot_opp_l, Z.quot_mul by lia. reflexivity.
    + replace (v * 60 =? 0)%Z with false by (symmetry; apply Z.eqb_neq; lia).
      rewrite Z.abs_eq by lia.
      rewrite Z.rem_mul by lia. cbn [Z.eqb negb].
      rewrite Z.quot_mul by lia. reflexivity.
Qed.

(** X28: a timestamp of fourteen digits that [parse_datetime] accepts is
    also accepted with a zone [sign hours : name] in brackets after it, for
    at most twelve hours and any name without a closing bracket: the date
    and time are the same and the offset is the hours times sixty, negative
    after a minus sign.  [add_datetime] then stores the date and time
    followed by Z for zero hours and by the signed hours in two digits
    otherwise. *)
Theorem parse_datetime_zone (stamp : string) (d : datetime)
    (sg hh name : string) :
  size stamp = 14 -> parse_datetime stamp = Some d ->
  sg = "" \/ sg = "+" \/ sg = "-" ->
  hh <> "" -> all_digits hh = true -> (number_of hh <= 12)%Z ->
  all_chars not_bracket name = true ->
  parse_datetime (stamp ++ "[" ++ sg ++ hh ++ ":" ++ name ++ "]")
  = Some (mk_datetime (dt_tm d) None (zone_minutes sg (number_of hh))) /\
  (forall (hp : heap) (val : nat) (element : string),
     add_datetime hp val element
       (stamp ++ "[" ++ sg ++ hh ++ ":" ++ name ++ "]")
     = add_string hp val element
         (strftime_FT (dt_tm d)
          ++ (if (number_of hh =? 0)%Z then "Z"
              else fmt_int true 3
                     (if String.eqb sg "-" then (- number_of hh)%Z
                      else number_of hh)))).
Proof.
  intros S14 H Hs Hn Hd Hv Hb.
  set (zone := "[" ++ sg ++ hh ++ ":" ++ name ++ "]").
  assert (Lz : 4 <= size zone).
  { unfold zone. rewrite !size_app. simpl.
    destruct hh; [congruence | simpl; lia]. }
  assert (D14 : drop 14 (stamp ++ zone) = zone)
    by (rewrite <- S14; apply drop_app_exact).
  pose proof (parse_tzoff_named _ _ sg hh name D14 Hs Hn Hd Hv Hb) as T.
  assert (D14' : drop 14 (stamp ++ zone)
                 = String "[" (sg ++ hh ++ ":" ++ name ++ "]")) by exact D14.
  destruct (at_suffix _ _ _ _ D14') as (C0 & _ & _ & W0).
  assert (P : parse_datetime (stamp ++ zone)
              = Some (mk_datetime (dt_tm d) None
                        (zone_minutes sg (number_of hh)))).
  { unfold parse_datetime in H |- *. cbv zeta in H |- *.
    rewrite size_app, S14. rewrite S14 in H.
    rewrite !parse_digits_window_app by lia.
    replace (14 + size zone <? 8) with false
      by (symmetry; apply Nat.ltb_ge; lia).
    replace (14 <=? 14 + size zone) with true
      by (symmetry; apply Nat.leb_le; lia).
    replace (18 <=? 14 + size zone) with true
      by (symmetry; apply Nat.leb_le; lia).
    rewrite C0.
    cbn [Nat.ltb Nat.leb chr_eqb Ascii.eqb Bool.eqb] in H |- *.
    rewrite (W0 eq_refl).
    replace (14 <? 14 + size zone) with true
      by (symmetry; apply Nat.ltb_lt; lia).
    rewrite T.
    repeat (match type of H with
            | context [parse_digits ?w ?t ?p ?l] =>
                destruct (parse_digits w t p l) as [? ?]
            | (if ?c then None else _) = _ => destruct c; [discriminate H|]
            end; cbv beta iota in H |- *).
    inversion H; subst d. reflexivity. }
  split; [exact P|].
  intros hp val element. unfold add_datetime. rewrite P.
  rewrite format_zone; [reflexivity|].
  pose proof (dec_value_bound hh Hd) as B. unfold number_of. lia.
Qed.

Lemma parse_datetime_zone_witness :
  parse_datetime ("20210115120000" ++ "[" ++ "-" ++ "5" ++ ":" ++ "EST" ++ "]")
  = Some (mk_datetime (mk_tm 121 0 15 12 0 0) None
            (zone_minutes "-" (number_of "5"))) /\
  add_datetime [JObject []] 0 "DTSERVER"
    ("20210115120000" ++ "[" ++ "-" ++ "5" ++ ":" ++ "EST" ++ "]")
  = add_string [JObject []] 0 "DTSERVER"
      (strftime_FT (mk_tm 121 0 15 12 0 0)
       ++ (if (number_of "5" =? 0)%Z then "Z"
           else fmt_int true 3
                  (if String.eqb "-" "-" then (- number_of "5")%Z
                   else number_of "5"))).
Proof.
  destruct (parse_datetime_zone "20210115120000"
              (mk_datetime (mk_tm 121 0 15 12 0 0) None 0) "-" "5" "EST")
    as (P & A); try reflexivity.
  - right; right; reflexivity.
  - discriminate.
  - vm_compute. discriminate.
  - split; [exact P | apply A].
Defined.

(** ** The close tag of a leaf *)


